(** * dotconfig_handler: the sync engine, embedded and verified

    A shallow embedding of the Go packages [config] (path filter, initial
    sync, watcher loop, change reconciliation, commit messages) and [git]
    (conflict resolution), followed by the properties of the specification
    that are settled on it; then of what these call and what calls them:
    the prompts of [ui], [env], the sync with the remote of [git] and
    [main], with further properties of the code.

    Conventions of the embedding
    - Go strings are [string], the bytes of the UTF-8 encoding; the paths
      and patterns of interest are ASCII, so a rune is a character.
      Where the code decodes runes ([strings.TrimSpace]) the embedding
      decodes the bytes.
    - [time.Time] and [time.Duration] are integers counting nanoseconds.
    - Go maps are [gmap]s; a [range] over a map visits the keys in an
      unspecified order, so a function that ranges over a map takes the
      visiting order as a parameter, unless what the loop computes does
      not depend on the order.
    - A directory tree is a [node], without symbolic links; the source
      tree (ConfigDir) and the mirror tree (RepoDir) are two separate
      trees.  The mirror tree is the working tree of the repository: the
      sync with the remote takes it and gives the tree it leaves.
    - Permission bits are stored and copied but not enforced, and a tree
      is read without error: every operation is performed as by a
      process that may read and write every entry.  What is proved of an
      operation that the system can refuse is therefore stated of a call
      that returns, or prints, no error.
    - Console output ([ui.Print...]) is a list of [output] lines, oldest
      first.
    - What leaves the program (the git backend, the watcher, the
      terminal) is a parameter of the section that uses it.  A Bubble Tea
      program is its [Update] applied to the messages it processes, one
      after the other; a function that waits for an answer that does not
      come returns [None]. *)

From Stdlib Require Import ZArith List Bool Ascii String Lia.
From Stdlib Require Import Numbers.DecimalString.
From stdpp Require Import gmap strings list fin_maps.

Import ListNotations.
Set Warnings "-register-all".
Local Open Scope string_scope.
Local Open Scope Z_scope.

(** ** Packages [strings] and [fmt]: the library functions the code calls *)

Module Strings.

(** [s[n:]] *)
Fixpoint drop (n : nat) (s : string) : string :=
  match n, s with
  | O, _ => s
  | S n', String _ s' => drop n' s'
  | S _, EmptyString => EmptyString
  end.

(** [s[:n]] *)
Fixpoint take (n : nat) (s : string) : string :=
  match n, s with
  | O, _ => EmptyString
  | S n', String c s' => String c (take n' s')
  | S _, EmptyString => EmptyString
  end.

(** [strings.HasPrefix s prefix] *)
Definition HasPrefix (s prefix : string) : bool := String.prefix prefix s.

(** [strings.HasSuffix s suffix]:
    [len(s) >= len(suffix) && s[len(s)-len(suffix):] == suffix] *)
Definition HasSuffix (s suffix : string) : bool :=
  (String.length suffix <=? String.length s)%nat
  && String.eqb (drop (String.length s - String.length suffix) s) suffix.

(** [strings.TrimSuffix s suffix] *)
Definition TrimSuffix (s suffix : string) : string :=
  if HasSuffix s suffix
  then take (String.length s - String.length suffix) s
  else s.

(** [strings.Contains s substr] *)
Fixpoint Contains (s substr : string) : bool :=
  if HasPrefix s substr then true
  else match s with
       | EmptyString => false
       | String _ s' => Contains s' substr
       end.

(** [strings.Split s sep] for a non-empty [sep]: the pieces of [s]
    between the occurrences of [sep], found from the left and not
    overlapping.  [skip] counts the characters of a separator still to be
    passed over, [cur] is the piece read so far. *)
Fixpoint Split_from (sep : string) (skip : nat) (cur s : string)
  : list string :=
  match s with
  | EmptyString => [cur]
  | String c s' =>
      match skip with
      | S k => Split_from sep k cur s'
      | O =>
          if HasPrefix s sep
          then cur :: Split_from sep (String.length sep - 1) EmptyString s'
          else Split_from sep O (cur ++ String c EmptyString) s'
      end
  end.

Definition Split (s sep : string) : list string :=
  Split_from sep O EmptyString s.

(** [strings.Join elems sep] *)
Definition Join (elems : list string) (sep : string) : string :=
  String.concat sep elems.

(** [fmt.Sprintf("%d", n)] *)
Definition itoa (n : Z) : string := NilZero.string_of_int (Z.to_int n).

End Strings.

(** ** Package [github.com/gobwas/glob]

    The library is a dependency of the program, not part of its
    repository.  Its patterns are modelled from the grammar the library
    documents:
<<
    pattern:      { term }
    term:         `*`   any sequence of non-separator characters
                  `**`  any sequence of characters
                  `?`   any single non-separator character
                  `[` [ `!` ] { character-range } `]`   character class
                  `{` pattern-list `}`                  alternatives
                  c     the character c
                  `\` c the character c
    pattern-list: pattern { `,` pattern }
>>
    [Compile pattern separators] parses a pattern; the program always
    calls it without separators.  A pattern outside this grammar, such
    as one with a brace left open, is a compile error here, whatever the
    library makes of it: nothing below is proved from a pattern that
    does not compile. *)

Module Glob.

Inductive term : Type :=
| Text (s : string)
| Any
| Super
| Single
| List (not : bool) (chars : string)
| Range (not : bool) (lo hi : ascii)
| AnyOf (alts : list (list term)).

Definition is_in (c : ascii) (cs : list ascii) : bool :=
  existsb (Ascii.eqb c) cs.

(** *** Lexing and parsing *)

(** The characters that end a run of text, outside and inside braces. *)
Definition inTextBreakers : list ascii := ["?"; "*"; "["; "{"]%char.
Definition inTermsBreakers : list ascii :=
  (inTextBreakers ++ ["}"; ","])%char%list.

(** A run of text up to the next breaker; a backslash takes the next
    character literally, and a backslash at the end is dropped. *)
Fixpoint fetchText (breakers : list ascii) (escaped : bool) (s : string)
  : string * string :=
  match s with
  | EmptyString => (EmptyString, EmptyString)
  | String c s' =>
      if negb escaped && Ascii.eqb c "\"
      then fetchText breakers true s'
      else if negb escaped && is_in c breakers
      then (EmptyString, s)
      else let '(t, rest) := fetchText breakers false s' in
           (String c t, rest)
  end.

(** The inside of a character class, after the opening bracket: an
    optional [!], then either one range [lo-hi] or a list of characters,
    then the closing bracket. *)
Definition parseRange (s : string) : option (term * string) :=
  let '(not, s1) :=
    match s with
    | String "!" r => (true, r)
    | _ => (false, s)
    end in
  match s1 with
  | String lo (String "-" (String hi (String "]" rest))) =>
      if (nat_of_ascii hi <? nat_of_ascii lo)%nat then None
      else Some (Range not lo hi, rest)
  | String lo (String "-" _) => None
  | EmptyString => None
  | _ =>
      let '(chars, rest) := fetchText ["]"%char] false s1 in
      match chars, rest with
      | String _ _, String "]" rest' => Some (List not chars, rest')
      | _, _ => None
      end
  end.

(** What ended a sequence of terms. *)
Inductive stop : Type := AtEOF | AtComma | AtClose.

(** [parse fuel inTerms s]: the terms of [s] up to the end of the input
    or, inside braces, up to the next comma or closing brace.
    [parseTerms] reads the alternatives that follow an opening brace. *)
Fixpoint parse (fuel : nat) (inTerms : bool) (s : string)
  : option (list term * stop * string) :=
  match fuel with
  | O => None
  | S fuel' =>
      let continue (t : term) (rest : string) :=
        match parse fuel' inTerms rest with
        | Some (ts, st, rest') => Some (t :: ts, st, rest')
        | None => None
        end in
      match s with
      | EmptyString => Some ([], AtEOF, EmptyString)
      | String c s' =>
          if Ascii.eqb c "{" then
            match parseTerms fuel' s' with
            | Some (alts, rest) => continue (AnyOf alts) rest
            | None => None
            end
          else if Ascii.eqb c "," && inTerms then Some ([], AtComma, s')
          else if Ascii.eqb c "}" && inTerms then Some ([], AtClose, s')
          else if Ascii.eqb c "[" then
            match parseRange s' with
            | Some (t, rest) => continue t rest
            | None => None
            end
          else if Ascii.eqb c "?" then continue Single s'
          else if Ascii.eqb c "*" then
            match s' with
            | String "*" s'' => continue Super s''
            | _ => continue Any s'
            end
          else
            let '(txt, rest) :=
              fetchText (if inTerms then inTermsBreakers
                         else inTextBreakers) false s in
            match txt with
            | EmptyString => parse fuel' inTerms rest
            | _ => continue (Text txt) rest
            end
      end
  end
with parseTerms (fuel : nat) (s : string)
  : option (list (list term) * string) :=
  match fuel with
  | O => None
  | S fuel' =>
      match parse fuel' true s with
      | Some (ts, AtClose, rest) => Some ([ts], rest)
      | Some (ts, AtComma, rest) =>
          match parseTerms fuel' rest with
          | Some (alts, rest') => Some (ts :: alts, rest')
          | None => None
          end
      | _ => None
      end
  end.

Definition parsePattern (pattern : string) : option (list term) :=
  match parse (2 * String.length pattern + 2) false pattern with
  | Some (ts, AtEOF, _) => Some ts
  | _ => None
  end.

(** *** Matching *)

Definition stripPrefix (p s : string) : option string :=
  if String.prefix p s then Some (Strings.drop (String.length p) s)
  else None.

(** [k] holds of some suffix of [s] reached by passing over characters
    that are not in [stops]. *)
Fixpoint anySuffix (stops : list ascii) (k : string -> bool) (s : string)
  : bool :=
  k s ||
  match s with
  | EmptyString => false
  | String c s' => negb (is_in c stops) && anySuffix stops k s'
  end.

Definition single (ok : ascii -> bool) (k : string -> bool) (s : string)
  : bool :=
  match s with
  | EmptyString => false
  | String c s' => ok c && k s'
  end.

(** [matchTerm seps t k s]: some prefix of [s] matches [t] and the rest
    of [s] satisfies [k]. *)
Fixpoint matchTerm (seps : list ascii) (t : term) (k : string -> bool)
  (s : string) {struct t} : bool :=
  match t with
  | Text x =>
      match stripPrefix x s with
      | Some rest => k rest
      | None => false
      end
  | Any => anySuffix seps k s
  | Super => anySuffix [] k s
  | Single => single (fun c => negb (is_in c seps)) k s
  | List not chars =>
      single (fun c => xorb not (is_in c (list_ascii_of_string chars))) k s
  | Range not lo hi =>
      single (fun c =>
                xorb not ((nat_of_ascii lo <=? nat_of_ascii c)%nat
                          && (nat_of_ascii c <=? nat_of_ascii hi)%nat)) k s
  | AnyOf alts =>
      (fix any (ps : list (list term)) : bool :=
         match ps with
         | [] => false
         | p :: ps' =>
             (fix seq (ts : list term) (k' : string -> bool)
                : string -> bool :=
                match ts with
                | [] => k'
                | t' :: ts' => matchTerm seps t' (seq ts' k')
                end) p k s
             || any ps'
         end) alts
  end.

Fixpoint matchTerms (seps : list ascii) (ts : list term)
  (k : string -> bool) : string -> bool :=
  match ts with
  | [] => k
  | t :: ts' => matchTerm seps t (matchTerms seps ts' k)
  end.

Definition isEmpty (s : string) : bool :=
  match s with EmptyString => true | _ => false end.

(** The interface [glob.Glob]: anything with a [Match] method. *)
Record Glob : Type := { Match : string -> bool }.

(** [glob.Compile(pattern, separators...)]; [None] is a compile error. *)
Definition Compile (pattern : string) (separators : list ascii)
  : option Glob :=
  match parsePattern pattern with
  | Some ts => Some {| Match := matchTerms separators ts isEmpty |}
  | None => None
  end.

End Glob.

(** ** Package [os]: a directory tree and the calls the program makes on it

    A tree is a file (permission bits, content) or a directory (permission
    bits, entries by name).  A path is the list of names from the root of
    the tree.  [umask] is the file-mode creation mask of the process. *)

Module os.

Inductive node : Type :=
| File (mode : Z) (data : string)
| Dir (mode : Z) (entries : list (string * node)).

Definition path : Type := list string.

Inductive errno : Type := ENOENT | ENOTDIR | EISDIR | ENOTEMPTY.

Inductive result (A : Type) : Type :=
| Ok (a : A)
| Fail (e : errno).
Arguments Ok {A} a.
Arguments Fail {A} e.

Definition bind {A B : Type} (r : result A) (k : A -> result B)
  : result B :=
  match r with
  | Ok a => k a
  | Fail e => Fail e
  end.

(** [os.IsNotExist(err)] *)
Definition IsNotExist {A : Type} (r : result A) : bool :=
  match r with
  | Fail ENOENT => true
  | _ => false
  end.

Definition IsDir (n : node) : bool :=
  match n with
  | Dir _ _ => true
  | File _ _ => false
  end.

(** [info.Mode()], the permission bits *)
Definition Mode (n : node) : Z :=
  match n with
  | Dir m _ => m
  | File m _ => m
  end.

Definition strerror (e : errno) : string :=
  match e with
  | ENOENT => "no such file or directory"
  | ENOTDIR => "not a directory"
  | EISDIR => "is a directory"
  | ENOTEMPTY => "directory not empty"
  end.

(** *** Directory entries *)

Fixpoint find (name : string) (es : list (string * node)) : option node :=
  match es with
  | [] => None
  | (k, v) :: es' => if String.eqb name k then Some v else find name es'
  end.

(** A new entry goes to its place in the lexical order in which a
    directory is listed. *)
Fixpoint add (name : string) (n : node) (es : list (string * node))
  : list (string * node) :=
  match es with
  | [] => [(name, n)]
  | (k, v) :: es' =>
      if String.ltb name k then (name, n) :: es
      else (k, v) :: add name n es'
  end.

Fixpoint replace (name : string) (n : node) (es : list (string * node))
  : list (string * node) :=
  match es with
  | [] => []
  | (k, v) :: es' =>
      if String.eqb name k then (k, n) :: es'
      else (k, v) :: replace name n es'
  end.

(** The entry [name] becomes [n]: in place when it exists, added
    otherwise. *)
Definition put (name : string) (n : node) (es : list (string * node))
  : list (string * node) :=
  match find name es with
  | Some _ => replace name n es
  | None => add name n es
  end.

Fixpoint remove (name : string) (es : list (string * node))
  : list (string * node) :=
  match es with
  | [] => []
  | (k, v) :: es' =>
      if String.eqb name k then es' else (k, v) :: remove name es'
  end.

(** *** Calls *)

(** [os.Stat(p)]: the entry at [p]. *)
Fixpoint Stat (p : path) (n : node) : result node :=
  match p with
  | [] => Ok n
  | s :: p' =>
      match n with
      | File _ _ => Fail ENOTDIR
      | Dir _ es =>
          match find s es with
          | Some c => Stat p' c
          | None => Fail ENOENT
          end
      end
  end.

(** The entry at [p] becomes [f] of what is there ([None] when the
    parent directory has no such entry); when [f] returns [None] the
    entry goes.  The root of the tree stays. *)
Fixpoint update (p : path) (f : option node -> result (option node))
  (n : node) : result node :=
  match p with
  | [] =>
      match f (Some n) with
      | Ok (Some n') => Ok n'
      | Ok None => Ok n
      | Fail e => Fail e
      end
  | s :: p' =>
      match n with
      | File _ _ => Fail ENOTDIR
      | Dir m es =>
          match find s es, p' with
          | Some c, _ :: _ =>
              bind (update p' f c) (fun c' => Ok (Dir m (put s c' es)))
          | None, _ :: _ => Fail ENOENT
          | o, [] =>
              bind (f o) (fun r =>
                match r with
                | Some c' => Ok (Dir m (put s c' es))
                | None => Ok (Dir m (remove s es))
                end)
          end
      end
  end.

Section WithUmask.

Variable umask : Z.

(** The directories of [p], one inside the other, all new. *)
Fixpoint newDirs (p : path) (perm : Z) : node :=
  match p with
  | [] => Dir (Z.ldiff perm umask) []
  | s :: p' => Dir (Z.ldiff perm umask) [(s, newDirs p' perm)]
  end.

(** [os.MkdirAll(p, perm)]: the directory [p] and every missing parent
    are created with [perm] less the umask; directories that exist are
    left as they are; a file on the way is an error. *)
Fixpoint MkdirAll (p : path) (perm : Z) (n : node) : result node :=
  match n with
  | File _ _ => Fail ENOTDIR
  | Dir m es =>
      match p with
      | [] => Ok n
      | s :: p' =>
          match find s es with
          | Some c =>
              bind (MkdirAll p' perm c)
                   (fun c' => Ok (Dir m (put s c' es)))
          | None => Ok (Dir m (put s (newDirs p' perm) es))
          end
      end
  end.

(** Opening [p] with [O_CREATE|O_TRUNC] and permission [perm], writing
    [data] and closing: a new file gets [perm] less the umask, a file
    that exists is truncated and keeps its permission bits.  This is
    [os.WriteFile(p, data, perm)], and [os.Create(p)] followed by
    [io.Copy] when [perm] is 0666. *)
Definition writeFile (p : path) (data : string) (perm : Z) (n : node)
  : result node :=
  update p (fun o =>
              match o with
              | None => Ok (Some (File (Z.ldiff perm umask) data))
              | Some (File m _) => Ok (Some (File m data))
              | Some (Dir _ _) => Fail EISDIR
              end) n.

End WithUmask.

(** [os.ReadFile(p)] *)
Definition ReadFile (p : path) (n : node) : result string :=
  bind (Stat p n) (fun f =>
    match f with
    | File _ data => Ok data
    | Dir _ _ => Fail EISDIR
    end).

(** [os.Chmod(p, mode)] *)
Definition Chmod (p : path) (mode : Z) (n : node) : result node :=
  update p (fun o =>
              match o with
              | None => Fail ENOENT
              | Some (File _ data) => Ok (Some (File mode data))
              | Some (Dir _ es) => Ok (Some (Dir mode es))
              end) n.

(** [os.Remove(p)]: a file or an empty directory. *)
Definition Remove (p : path) (n : node) : result node :=
  update p (fun o =>
              match o with
              | None => Fail ENOENT
              | Some (File _ _) => Ok None
              | Some (Dir _ []) => Ok None
              | Some (Dir _ (_ :: _)) => Fail ENOTEMPTY
              end) n.

(** The entry at [p] and everything below it goes. *)
Definition removeTree (p : path) (n : node) : result node :=
  update p (fun o =>
              match o with
              | None => Fail ENOENT
              | Some _ => Ok None
              end) n.

End os.

(** ** Package [path/filepath] *)

Module filepath.

(** The names of a clean slash-separated relative path. *)
Definition segments (relPath : string) : os.path :=
  if String.eqb relPath "." then [] else Strings.Split relPath "/".

(** The relative path of the names [p]; the root itself is ["."]. *)
Definition render (p : os.path) : string :=
  match p with
  | [] => "."
  | _ => Strings.Join p "/"
  end.

(** [filepath.Dir]: the path without its last name. *)
Definition Dir (p : os.path) : os.path := removelast p.

(** [filepath.Join(dir, rel)] as a string, for messages. *)
Definition Join (dir rel : string) : string := dir ++ "/" ++ rel.

End filepath.

(** [filepath.Walk] over a tree that can be read without error. *)

Module Walk.

Inductive walkErr : Type :=
| SkipDir
| Err (msg : string).

Definition isSkipDir (e : walkErr) : bool :=
  match e with SkipDir => true | Err _ => false end.

Section Walk.

Context {S : Type}.
Variable walkFn : os.path -> os.node -> S -> S * option walkErr.

(** The loop of [walk] over the names of a directory, given what walking
    one entry does: an error stops the loop, but [SkipDir] returned for a
    directory only skips that directory. *)
Definition walkNames (walkEntry : os.path -> os.node -> S -> S * option walkErr)
  (rel : os.path) : list (string * os.node) -> S -> S * option walkErr :=
  fix names (es : list (string * os.node)) (st : S) : S * option walkErr :=
    match es with
    | [] => (st, None)
    | (name, c) :: es' =>
        match walkEntry (rel ++ [name])%list c st with
        | (st', None) => names es' st'
        | (st', Some e) =>
            if os.IsDir c && isSkipDir e then names es' st'
            else (st', Some e)
        end
    end.

(** [walk]: the function is called on the entry, then, for a
    directory, the entries are walked in the order they are listed. *)
Fixpoint walk (rel : os.path) (info : os.node) (st : S)
  : S * option walkErr :=
  match info with
  | os.File _ _ => walkFn rel info st
  | os.Dir _ es =>
      match walkFn rel info st with
      | (st1, Some e) => (st1, Some e)
      | (st1, None) => walkNames walk rel es st1
      end
  end.

Definition Walk (root : os.node) (st : S) : S * option string :=
  match walk [] root st with
  | (st', Some (Err msg)) => (st', Some msg)
  | (st', _) => (st', None)
  end.

End Walk.

End Walk.

(** ** Package [ui]: what is printed *)

Module ui.

Inductive output : Type :=
| PrintSection (title : string)
| PrintSuccess (message : string)
| PrintError (message : string)
| PrintWarning (message : string)
| PrintInfo (message : string)
| PrintFileOperation (operation path : string)
| PrintSeparator
| Notify (event message : string).   (* a call of the notification manager *)

End ui.

(** [fmt.Errorf("<msg>: %w", err)]; an error is its message. *)
Definition Errorf (msg cause : string) : string := msg ++ ": " ++ cause.

(** ** Package [config]: the manager *)

Module config.

Import os.

Record Manager : Type := {
  ConfigDir : string;
  RepoDir : string;
  IncludeGlobs : list Glob.Glob;
  ExcludeGlobs : list Glob.Glob;
  SyncInterval : Z;
  Verbose : bool;
  NotifyManager : bool   (* whether the notification manager is set *)
}.

(** The loop of [NewManager] over a pattern list: an empty pattern and a
    pattern that does not compile are left out. *)
Fixpoint compilePatterns (patterns : list string) : list Glob.Glob :=
  match patterns with
  | [] => []
  | pattern :: rest =>
      if String.eqb pattern "" then compilePatterns rest
      else match Glob.Compile pattern [] with
           | Some g => g :: compilePatterns rest
           | None => compilePatterns rest
           end
  end.

Definition NewManager (configDir repoDir : string)
  (includePatterns excludePatterns : list string) (syncInterval : Z)
  (verbose notify : bool) : Manager :=
  {| ConfigDir := configDir;
     RepoDir := repoDir;
     IncludeGlobs := compilePatterns includePatterns;
     ExcludeGlobs := compilePatterns excludePatterns;
     SyncInterval := syncInterval;
     Verbose := verbose;
     NotifyManager := notify |}.

(** The [for ... range] loops of [shouldInclude]: whether some pattern
    matches. *)
Fixpoint anyMatch (globs : list Glob.Glob) (relPath : string) : bool :=
  match globs with
  | [] => false
  | pattern :: rest =>
      if Glob.Match pattern relPath then true else anyMatch rest relPath
  end.

(** [Manager.shouldInclude]; the line it prints in verbose mode when an
    exclude pattern matches is not part of the result. *)
Definition shouldInclude (m : Manager) (relPath : string) : bool :=
  if Strings.Contains relPath ".git" then false
  else if anyMatch (ExcludeGlobs m) relPath then false
  else if (0 <? Z.of_nat (length (IncludeGlobs m))) then
    if anyMatch (IncludeGlobs m) relPath then true else false
  else true.

(** *** Initial sync *)

Record syncState : Type := {
  mirror : node;          (* the tree at RepoDir *)
  fileCount : Z;
  dirCount : Z;
  out : list ui.output
}.

Definition setMirror (st : syncState) (t : node) : syncState :=
  {| mirror := t; fileCount := fileCount st; dirCount := dirCount st;
     out := out st |}.

Section WithUmask.

Variable umask : Z.

(** [copyFile(src, dst)]: the destination is created or truncated, the
    content copied, and the permission bits set to those of the
    source.  The tree is returned also on failure, as the steps before
    the failing one have taken place. *)
Definition copyFile (src : node) (dst : path) (t : node)
  : node * option errno :=
  match src with
  | Dir _ _ => (t, Some EISDIR)
  | File mode data =>
      match writeFile umask dst data 438 t with
      | Fail e => (t, Some e)
      | Ok t1 =>
          match Chmod dst mode t1 with
          | Fail e => (t1, Some e)
          | Ok t2 => (t2, None)
          end
      end
  end.

(** What the function [InitialSync] passes to [filepath.Walk] does
    with an entry in scope, from "Target path in the repo" on.  [rel]
    are the names from ConfigDir down to the entry; the target in the
    repo is the same names below RepoDir.  The result is the state and
    the error returned. *)
Definition mirrorEntry (m : Manager) (rel : path) (info : node)
  (st : syncState) : syncState * option string :=
  let relPath := filepath.render rel in
  let targetPath := filepath.Join (RepoDir m) relPath in
  if IsDir info then
    if IsNotExist (Stat rel (mirror st)) then
      match MkdirAll umask rel (Mode info) (mirror st) with
      | Fail e =>
          (st, Some (Errorf ("failed to create directory " ++ targetPath)
                            (strerror e)))
      | Ok t =>
          let n := dirCount st + 1 in
          ({| mirror := t; fileCount := fileCount st; dirCount := n;
              out := out st ++
                (if (n <=? 5) || Verbose m
                 then [ui.PrintFileOperation "added" ("dir: " ++ relPath)]
                 else []) |}, None)
      end
    else (st, None)
  else
    match MkdirAll umask (filepath.Dir rel) 493 (mirror st) with
    | Fail e =>
        (st, Some (Errorf ("failed to create directory "
                           ++ filepath.Join (RepoDir m)
                                (filepath.render (filepath.Dir rel)))
                          (strerror e)))
    | Ok t1 =>
        match copyFile info rel t1 with
        | (t2, Some e) =>
            (setMirror st t2,
             Some (Errorf ("failed to copy file "
                           ++ filepath.Join (ConfigDir m) relPath
                           ++ " to " ++ targetPath)
                          (strerror e)))
        | (t2, None) =>
            let n := fileCount st + 1 in
            ({| mirror := t2; fileCount := n; dirCount := dirCount st;
                out := out st ++
                  (if (n <=? 10) || Verbose m
                   then [ui.PrintFileOperation "added" relPath]
                   else if (n =? 11) && negb (Verbose m)
                   then [ui.PrintInfo "... and more files"]
                   else []) |}, None)
        end
    end.

(** The function [InitialSync] passes to [filepath.Walk]: the root is
    passed over, an entry out of scope is left out (with all that is
    below it, for a directory), an entry in scope is mirrored. *)
Definition initialVisit (m : Manager) (rel : path) (info : node)
  (st : syncState) : syncState * option Walk.walkErr :=
  let relPath := filepath.render rel in
  if String.eqb relPath "." then (st, None)
  else if negb (shouldInclude m relPath) then
    (st, if IsDir info then Some Walk.SkipDir else None)
  else
    match mirrorEntry m rel info st with
    | (st', Some err) => (st', Some (Walk.Err err))
    | (st', None) => (st', None)
    end.

(** [Manager.InitialSync] up to the return of [filepath.Walk].  [src]
    is the tree at ConfigDir, [repo] the tree at RepoDir ([None] when
    RepoDir does not exist; its parent directory does).  The result is
    the repo tree, the counters and the output so far, and the error of
    the walk. *)
Definition initialWalk (m : Manager) (src : node) (repo : option node)
  : syncState * option string :=
  let t0 :=
    match repo with
    | None => Dir (Z.ldiff 493 umask) []
    | Some t => t
    end in
  Walk.Walk (initialVisit m) src
    {| mirror := t0; fileCount := 0; dirCount := 0; out := [] |}.

(** [Manager.InitialSync].  RepoDir is the working tree of the
    repository, so the pull, the checkouts and the merges of
    [GitRepo.SyncWithRemote] work on the tree the walk has left:
    [SyncWithRemote] takes the commit message and that tree, and gives
    the tree it leaves and [None] or an error.  What
    [GitRepo.SyncWithRemote] prints is not part of [out].  The result is
    the repo tree, the counters and the output of the run, and the error
    returned. *)
Definition InitialSync (m : Manager)
  (SyncWithRemote : string -> node -> node * option string)
  (src : node) (repo : option node) : syncState * option string :=
  match initialWalk m src repo with
  | (st, Some err) => (st, Some (Errorf "failed to sync config files" err))
  | (st, None) =>
      let printed :=
        (out st ++
           [ui.PrintInfo ("Synchronized " ++ Strings.itoa (fileCount st)
                          ++ " files and "
                          ++ Strings.itoa (dirCount st)
                          ++ " directories");
            ui.PrintInfo "Committing changes to repository..."])%list in
      match SyncWithRemote "Initial sync of configuration files"
              (mirror st) with
      | (t, Some err) =>
          ({| mirror := t; fileCount := fileCount st;
              dirCount := dirCount st; out := printed |},
           Some (Errorf "failed to sync with remote" err))
      | (t, None) =>
          ({| mirror := t; fileCount := fileCount st;
              dirCount := dirCount st; out := printed |}, None)
      end
  end.

End WithUmask.

(** *** Reconciling a batch of changed paths *)

(** [removeDirectory(p)]: the entries below [p] are removed one by one,
    directories first emptied in the same way, and then [p] itself.  No
    single removal fails in a tree that is not protected, so the call
    fails only when [p] cannot be listed, and otherwise leaves the tree
    without [p]. *)
Definition removeDirectory (p : path) (t : node) : result node :=
  match Stat p t with
  | Ok (Dir _ _) => removeTree p t
  | Ok (File _ _) => Fail ENOTDIR
  | Fail e => Fail e
  end.

Record changes : Type := {
  tree : node;                               (* the tree at RepoDir *)
  fileChanges : gmap string (list string);   (* paths by operation *)
  fileChangeSummary : gmap string string;    (* the same, for the message *)
  console : list ui.output
}.

(** [fileChanges[op] = append(fileChanges[op], shown)] and
    [fileChangeSummary[op] = fileChangeSummary[op] + relPath + ", "] *)
Definition record (op shown relPath : string) (t : node) (c : changes)
  : changes :=
  {| tree := t;
     fileChanges :=
       <[op := (default [] (fileChanges c !! op) ++ [shown])%list]>
         (fileChanges c);
     fileChangeSummary :=
       <[op := default "" (fileChangeSummary c !! op) ++ relPath ++ ", "]>
         (fileChangeSummary c);
     console := console c |}.

Definition failed (msg : string) (e : errno) (t : node) (c : changes)
  : changes :=
  {| tree := t;
     fileChanges := fileChanges c;
     fileChangeSummary := fileChangeSummary c;
     console := console c ++ [ui.PrintError (msg ++ ": " ++ strerror e)] |}.

Section WithUmask.

Variable umask : Z.

(** The body of the loop of [syncChangedFiles] for one changed path.
    [src] is the tree at ConfigDir. *)
Definition syncOne (src : node) (relPath : string) (c : changes)
  : changes :=
  let sourcePath := filepath.segments relPath in
  let targetPath := filepath.segments relPath in
  match Stat sourcePath src with
  | Fail ENOENT =>
      (* file or directory was deleted *)
      match Stat targetPath (tree c) with
      | Ok targetInfo =>
          if IsDir targetInfo then
            match removeDirectory targetPath (tree c) with
            | Fail e =>
                failed ("Failed to remove directory " ++ relPath) e
                       (tree c) c
            | Ok t => record "deleted" ("dir: " ++ relPath) relPath t c
            end
          else
            match Remove targetPath (tree c) with
            | Fail ENOENT => record "deleted" relPath relPath (tree c) c
            | Fail e =>
                failed ("Failed to remove file " ++ relPath) e (tree c) c
            | Ok t => record "deleted" relPath relPath t c
            end
      | Fail _ => c
      end
  | Fail _ => c
  | Ok info =>
      if IsDir info then
        (* make sure the directory exists in the repo *)
        match MkdirAll umask targetPath (Mode info) (tree c) with
        | Fail e =>
            failed ("Failed to create directory " ++ relPath) e (tree c) c
        | Ok t =>
            (* check if this is a new directory *)
            if IsNotExist (Stat targetPath t)
            then record "added" ("dir: " ++ relPath) relPath t c
            else {| tree := t; fileChanges := fileChanges c;
                    fileChangeSummary := fileChangeSummary c;
                    console := console c |}
        end
      else
        match MkdirAll umask (filepath.Dir targetPath) 493 (tree c) with
        | Fail e =>
            failed ("Failed to create directory "
                    ++ filepath.render
                         (filepath.Dir (filepath.segments relPath)))
                   e (tree c) c
        | Ok t1 =>
            let fileOperation :=
              if IsNotExist (Stat targetPath t1) then "added"
              else "modified" in
            match copyFile umask info targetPath t1 with
            | (t2, Some e) =>
                failed ("Failed to copy file " ++ relPath) e t2 c
            | (t2, None) => record fileOperation relPath relPath t2 c
            end
        end
  end.

(** The loop over the batch, in the order the range visits it. *)
Definition syncLoop (src : node) (changedFiles : list string)
  (t : node) : changes :=
  fold_left (fun c relPath => syncOne src relPath c) changedFiles
    {| tree := t; fileChanges := ∅; fileChangeSummary := ∅;
       console := [] |}.

End WithUmask.

(** *** The commit message *)

(** One turn of the loop of [buildCommitMessage]. *)
Definition messagePart (changeType files : string) : list string :=
  if String.eqb files "" then []
  else
    let files := Strings.TrimSuffix files ", " in
    let fileList := Strings.Split files ", " in
    let files :=
      if (3 <? Z.of_nat (length fileList)) then
        Strings.Join (firstn 3 fileList) ", "
        ++ " and " ++ Strings.itoa (Z.of_nat (length fileList) - 3)
        ++ " more"
      else files in
    [changeType ++ ": " ++ files].

(** [buildCommitMessage(changes, totalChanges)]; [changes] are the
    entries of the map in the order the range visits them. *)
Definition buildCommitMessage (changes : list (string * string))
  (totalChanges : Z) : string :=
  let parts :=
    flat_map (fun '(changeType, files) => messagePart changeType files)
             changes in
  if (0 <? Z.of_nat (length parts)) then
    "Configuration update: " ++ Strings.Join parts "; "
  else
    "Updated configuration files: " ++ Strings.itoa totalChanges
    ++ " files changed".

(** *** What [syncChangedFiles] shows and sends after the loop *)

(** The first five paths of an operation, then one line for the rest. *)
Definition showChanges (title operation : string) (files : list string)
  : list ui.output :=
  if (0 <? Z.of_nat (length files)) then
    ui.PrintInfo title
    :: map (ui.PrintFileOperation operation) (firstn 5 files)
    ++ (if (5 <? Z.of_nat (length files))
        then [ui.PrintInfo ("... and "
                            ++ Strings.itoa (Z.of_nat (length files) - 5)
                            ++ " more " ++ operation ++ " files")]
        else [])%list
  else [].

Definition countText (label : string) (files : list string) : string :=
  if (0 <? Z.of_nat (length files)) then
    label ++ ": " ++ Strings.itoa (Z.of_nat (length files)) ++ " files, "
  else "".

(** [Manager.syncChangedFiles]: the loop, the display, the notification,
    the commit message and the sync with the remote.  [visit] gives the
    entries of [fileChangeSummary] in the order the range of
    [buildCommitMessage] visits them, which the language leaves open.
    [SyncWithRemote] takes the commit message and the repo tree the loop
    has left (RepoDir is the working tree of the repository) and gives
    the tree it leaves and [None] or an error; what it prints is not part
    of [console].  The result is the repo tree, the change summary and
    everything printed or notified. *)
Definition syncChangedFiles (umask : Z) (m : Manager)
  (visit : gmap string string -> list (string * string))
  (SyncWithRemote : string -> node -> node * option string)
  (src : node) (changedFiles : list string) (t : node) : changes :=
  let c := syncLoop umask src changedFiles t in
  let files op := default [] (fileChanges c !! op) in
  let total := Z.of_nat (length changedFiles) in
  let shown :=
    (ui.PrintSection "Changes Detected"
     :: showChanges "Added files:" "added" (files "added")
     ++ showChanges "Modified files:" "modified" (files "modified")
     ++ showChanges "Deleted files:" "deleted" (files "deleted"))%list in
  let notified :=
    if NotifyManager m then
      [ui.Notify "FileChangesDetected"
         (Strings.TrimSuffix
            (countText "Added" (files "added")
             ++ countText "Modified" (files "modified")
             ++ countText "Deleted" (files "deleted")) ", ")]
    else [] in
  let commitMsg := buildCommitMessage (visit (fileChangeSummary c)) total in
  let remote := SyncWithRemote commitMsg (tree c) in
  let synced :=
    (ui.PrintInfo "Syncing changes with remote repository..."
     :: match remote.2 with
        | Some err =>
            ui.PrintError ("Failed to sync with remote: " ++ err)
            :: (if NotifyManager m
                then [ui.Notify "SyncError"
                        ("Failed to sync with remote: " ++ err)]
                else [])
        | None =>
            ui.PrintSuccess ("Successfully synchronized "
                             ++ Strings.itoa total ++ " changed files")
            :: (if NotifyManager m
                then [ui.Notify "SyncSuccess"
                        ("Successfully synchronized "
                         ++ Strings.itoa total ++ " files")]
                else [])
        end ++ [ui.PrintSeparator])%list in
  {| tree := remote.1;
     fileChanges := fileChanges c;
     fileChangeSummary := fileChangeSummary c;
     console := (console c ++ shown ++ notified ++ synced)%list |}.

(** *** The watcher loop *)

(** The operations of an [fsnotify] event, as bits. *)
Module fsnotify.
Definition Create : Z := 1.
Definition Write : Z := 2.
Definition Remove : Z := 4.
Definition Rename : Z := 8.
Definition Chmod : Z := 16.
End fsnotify.

(** [1*time.Second] *)
Definition Second : Z := 1000000000.

(** What one turn of the [select] of [watcherLoop] receives.  An event
    comes with what the turn reads from its surroundings: the time
    ([time.Now()]) and whether [os.Stat] finds a directory at the name. *)
Inductive received : Type :=
| Event (name : string) (op : Z) (now : Z) (isDir : bool)
| EventsClosed
| WatchError (err : string)
| ErrorsClosed
| Tick (now : Z).

Section Watcher.

(** [filepath.Rel(base, target)]; [None] is its error. *)
Variable Rel : string -> string -> option string.

(** The state the batches are applied to, and [syncChangedFiles] on
    it. *)
Context {World : Type}.
Variable sync : gmap string bool -> World -> World.

Record loopState : Type := {
  debounceEvents : gmap string Z;   (* the pending change set *)
  watching : list string;           (* directories added to the watcher *)
  printed : list ui.output;
  world : World
}.

(** Whether a pending entry is due at a tick: older than one second. *)
Definition due (now eventTime : Z) : bool := Second <? now - eventTime.

(** The relative paths of the events that are due at [now]:
    [filesToSync] after the range over [debounceEvents]. *)
Definition filesToSync (m : Manager) (now : Z) (pending : gmap string Z)
  : gmap string bool :=
  list_to_map
    (omap (fun '(eventPath, eventTime) =>
             if due now eventTime then
               match Rel (ConfigDir m) eventPath with
               | Some relPath => Some (relPath, true)
               | None => None
               end
             else None)
          (map_to_list pending)).

(** [debounceEvents] after the range: the due entries are deleted. *)
Definition stillPending (now : Z) (pending : gmap string Z)
  : gmap string Z :=
  filter (fun kv => due now kv.2 = false) pending.

(** One turn of the loop; [None] when the loop returns. *)
Definition turn (m : Manager) (st : loopState) (r : received)
  : option loopState :=
  match r with
  | EventsClosed | ErrorsClosed => None
  | WatchError err =>
      Some {| debounceEvents := debounceEvents st;
              watching := watching st;
              printed := printed st
                         ++ [ui.PrintError ("Watcher error: " ++ err)];
              world := world st |}
  | Event name op now isDir =>
      match Rel (ConfigDir m) name with
      | None => Some st
      | Some relPath =>
          if negb (shouldInclude m relPath) then Some st
          else if negb (Z.land op (Z.lor fsnotify.Write
                                    (Z.lor fsnotify.Create
                                      (Z.lor fsnotify.Remove
                                             fsnotify.Rename))) =? 0)
          then
            let newDir :=
              negb (Z.land op fsnotify.Create =? 0) && isDir in
            Some {| debounceEvents := <[name := now]> (debounceEvents st);
                    watching := if newDir
                                then (watching st ++ [name])%list
                                else watching st;
                    printed := if newDir && Verbose m
                               then (printed st ++
                                     [ui.PrintInfo
                                        ("Added new directory to watch: "
                                         ++ relPath)])%list
                               else printed st;
                    world := world st |}
          else Some st
      end
  | Tick now =>
      let batch := filesToSync m now (debounceEvents st) in
      Some {| debounceEvents := stillPending now (debounceEvents st);
              watching := watching st;
              printed := printed st;
              world := if (0 <? Z.of_nat (size batch))
                       then sync batch (world st)
                       else world st |}
  end.

(** [watcherLoop], on what its turns receive one after the other,
    starting from [st] (the code starts from an empty pending set).
    The loop goes on for as long as something is received. *)
Fixpoint loopFrom (m : Manager) (st : loopState) (rs : list received)
  : loopState :=
  match rs with
  | [] => st
  | r :: rs' =>
      match turn m st r with
      | None => st
      | Some st' => loopFrom m st' rs'
      end
  end.

Definition watcherLoop (m : Manager) (w : World) (rs : list received)
  : loopState :=
  loopFrom m {| debounceEvents := ∅; watching := []; printed := [];
                world := w |} rs.

End Watcher.

End config.

(** ** Package [git]: conflict resolution *)

Module git.

Import os.

(** [type ResolutionStrategy string] and its three constants.  A switch
    over a strategy has no default: any other string selects nothing. *)
Definition ResolutionStrategy : Type := string.
Definition KeepLocal : ResolutionStrategy := "local".
Definition KeepRemote : ResolutionStrategy := "remote".
Definition Merge : ResolutionStrategy := "merge".

Record ConflictFile : Type := {
  Path : string;
  LocalSHA : string;
  RemoteSHA : string
}.

(** The header [ResolveConflict] writes before the conflicted content. *)
Definition mergedHeader : string :=
  String.concat ""
    ["# MERGED FILE"; String "010" "";
     "# Contains both versions due to conflict"; String "010" "";
     String "010" ""].

Section Resolver.

Variable umask : Z.

(** The git index, and the two calls that go to the version control
    backend: [Worktree.Add(path)], which stages a path, and
    [git checkout <option> -- <path>] as run by [execGitCheckout],
    which rewrites the working tree.  Either can fail with a
    message. *)
Context {Index : Type}.
Variable worktreeAdd : string -> node -> Index -> Index + string.
Variable gitCheckout : string -> string -> node -> Index -> node + string.

Record repo : Type := {
  hasWorktree : bool;     (* [Repository.Worktree()] succeeds *)
  files : node;           (* the working tree, at [Repo.Path] *)
  index : Index;
  printed : list ui.output
}.

Definition print (line : ui.output) (r : repo) : repo :=
  {| hasWorktree := hasWorktree r; files := files r; index := index r;
     printed := printed r ++ [line] |}.

Definition setFiles (t : node) (r : repo) : repo :=
  {| hasWorktree := hasWorktree r; files := t; index := index r;
     printed := printed r |}.

(** [w.Add(path)] and the error check that follows it. *)
Definition markResolved (path : string) (r : repo)
  : repo * option string :=
  match worktreeAdd path (files r) (index r) with
  | inl i =>
      ({| hasWorktree := hasWorktree r; files := files r; index := i;
          printed := printed r |}, None)
  | inr err => (r, Some (Errorf "failed to mark as resolved" err))
  end.

(** [execGitCheckout(path, option)].  The script it writes to the
    directory for temporary files, and the lines [ui.ExecuteCommand]
    prints when it runs the script (the command, and its failure), are
    outside the repository and are left out: [printed] holds the lines
    [ResolveConflict] prints itself. *)
Definition execGitCheckout (path opt : string) (r : repo)
  : repo * option string :=
  match gitCheckout opt path (files r) (index r) with
  | inl t => (setFiles t r, None)
  | inr err => (r, Some ("checkout failed: " ++ err))
  end.

(** [ConflictResolver.ResolveConflict(path, strategy)]: the repository
    afterwards and the error returned. *)
Definition ResolveConflict (path : string) (strategy : ResolutionStrategy)
  (r : repo) : repo * option string :=
  if negb (hasWorktree r) then
    (r, Some (Errorf "failed to get worktree"
                     "worktree not available in a bare repository"))
  else
    let fullPath := filepath.segments path in
    if String.eqb strategy KeepLocal then
      let r := print (ui.PrintInfo ("Keeping local version of " ++ path))
                     r in
      match execGitCheckout path "--ours" r with
      | (r, Some err) =>
          (r, Some (Errorf "failed to checkout local version" err))
      | (r, None) => markResolved path r
      end
    else if String.eqb strategy KeepRemote then
      let r := print (ui.PrintInfo ("Keeping remote version of " ++ path))
                     r in
      match execGitCheckout path "--theirs" r with
      | (r, Some err) =>
          (r, Some (Errorf "failed to checkout remote version" err))
      | (r, None) => markResolved path r
      end
    else if String.eqb strategy Merge then
      let r := print (ui.PrintInfo ("Creating merged version of " ++ path))
                     r in
      match ReadFile fullPath (files r) with
      | Fail e =>
          (r, Some (Errorf "failed to read conflict file" (strerror e)))
      | Ok content =>
          let mergedContent := mergedHeader ++ content in
          match writeFile umask fullPath mergedContent 420 (files r) with
          | Fail e =>
              (r, Some (Errorf "failed to write merged file"
                               (strerror e)))
          | Ok t => markResolved path (setFiles t r)
          end
      end
    else (r, None).

(** [ConflictResolver.ResolveAllConflicts(strategy)], over the
    conflicts the resolver holds. *)
Fixpoint ResolveAllConflicts (conflicts : list ConflictFile)
  (strategy : ResolutionStrategy) (r : repo) : repo * option string :=
  match conflicts with
  | [] => (r, None)
  | conflict :: rest =>
      match ResolveConflict (Path conflict) strategy r with
      | (r', Some err) =>
          (r', Some (Errorf ("failed to resolve conflict for "
                             ++ Path conflict) err))
      | (r', None) => ResolveAllConflicts rest strategy r'
      end
  end.

End Resolver.

Arguments repo : clear implicits.
Arguments hasWorktree {Index} r.
Arguments files {Index} r.
Arguments index {Index} r.
Arguments printed {Index} r.

End git.

(** ** Definitions used to state the properties *)

Local Open Scope list_scope.

Module statements.

Import os config.

(** *** Tree updates *)

(** The functions [writeFile] and [Chmod] apply at the end of a path. *)
Definition writer (umask : Z) (data : string) (perm : Z)
  (o : option node) : result (option node) :=
  match o with
  | None => Ok (Some (File (Z.ldiff perm umask) data))
  | Some (File m _) => Ok (Some (File m data))
  | Some (Dir _ _) => Fail EISDIR
  end.

Definition chmodder (mode : Z) (o : option node) : result (option node) :=
  match o with
  | None => Fail ENOENT
  | Some (File _ data) => Ok (Some (File mode data))
  | Some (Dir _ es) => Ok (Some (Dir mode es))
  end.

(** A function that keeps what kind of entry is there, keeps the entries
    of a directory, and creates nothing but files. *)
Definition gentle (f : option node -> result (option node)) : Prop :=
  (forall m d r, f (Some (File m d)) = Ok r ->
                 exists m' d', r = Some (File m' d'))
  /\ (forall m es r, f (Some (Dir m es)) = Ok r ->
                     exists m', r = Some (Dir m' es))
  /\ (forall r, f None = Ok r -> exists m' d', r = Some (File m' d')).

(** *** The path filter *)

(** Whether a pattern compiled with the separators matches. *)
Definition globMatch (pattern : string) (separators : list ascii)
  (s : string) : option bool :=
  match Glob.Compile pattern separators with
  | Some g => Some (Glob.Match g s)
  | None => None
  end.

(** The manager of the scenarios: patterns as in the sample
    configuration. *)
Definition sampleManager (includePatterns excludePatterns : list string)
  : Manager :=
  NewManager "/home/username/.config" "/home/username/.config_sync_repo"
    includePatterns excludePatterns (5 * Second) false false.

(** A path has a version-control metadata segment when one of its
    slash-separated names is [.git]; this is how the specification words
    the first rejection of the filter. *)
Definition spec_hasVcsSegment (relPath : string) : bool :=
  existsb (String.eqb ".git") (Strings.Split relPath "/").

(** *** Conflict resolution *)

(** The end of a line. *)
Definition lineFeed : string := String "010" "".

(** [c] occurs in [s] as a contiguous run of characters. *)
Definition occursIn (c s : string) : Prop :=
  exists before after, s = (before ++ c ++ after)%string.

(** What the specification describes for a batch of conflicts: every
    path is attempted, whatever became of the ones before it, and the
    errors are collected path by path. *)
Fixpoint spec_resolveEach {Index : Type} (umask : Z)
  (worktreeAdd : string -> node -> Index -> Index + string)
  (gitCheckout : string -> string -> node -> Index -> node + string)
  (conflicts : list git.ConflictFile) (strategy : git.ResolutionStrategy)
  (r : git.repo Index) : git.repo Index * list (string * string) :=
  match conflicts with
  | [] => (r, [])
  | conflict :: rest =>
      let '(r1, e) :=
        git.ResolveConflict umask worktreeAdd gitCheckout
          (git.Path conflict) strategy r in
      let '(r2, errs) :=
        spec_resolveEach umask worktreeAdd gitCheckout rest strategy r1 in
      (r2, match e with
           | Some err => (git.Path conflict, err) :: errs
           | None => errs
           end)
  end.

(** A backend for the examples: the index is the list of staged paths,
    staging always works, and there is no [git] to run a checkout. *)
Definition stagePath (path : string) (t : node) (i : list string)
  : list string + string := inl (i ++ [path]).

Definition noCheckout (opt path : string) (t : node) (i : list string)
  : node + string := inr "exit status 127".

Definition conflict (path : string) : git.ConflictFile :=
  {| git.Path := path; git.LocalSHA := ""; git.RemoteSHA := "" |}.

(** A working tree with an executable script and a plain file, both left
    with conflict markers by a pull. *)
Definition conflictedRepo : git.repo (list string) :=
  {| git.hasWorktree := true;
     git.files :=
       Dir 493 [("bspwmrc", File 493 "<<<<<<< ours");
                ("picom.conf", File 420 "<<<<<<< theirs")];
     git.index := [];
     git.printed := [] |}.

(** *** Reconciliation *)

(** A source tree in which the directory [polybar] has just appeared,
    and a repo tree that does not have it yet. *)
Definition sourceWithNewDir : node :=
  Dir 493 [("i3", Dir 493 [("config", File 420 "bar {}")]);
           ("polybar", Dir 493 [])].

Definition repoBeforeNewDir : node :=
  Dir 493 [("i3", Dir 493 [("config", File 420 "bar {}")])].

(** A source tree with three new files, two of them with a comma and a
    space in their names. *)
Definition sourceWithCommaNames : node :=
  Dir 493 [("a, b", File 420 "1"); ("c", File 420 "2");
           ("d, e", File 420 "3")].

(** *** The watcher loop *)

(** A world that keeps the batches handed to [syncChangedFiles], oldest
    first. *)
Definition keepBatch (batch : gmap string bool)
  (emitted : list (gmap string bool)) : list (gmap string bool) :=
  emitted ++ [batch].

(** An event qualifies when it is a write, create, remove or rename. *)
Definition qualifies (op : Z) : bool :=
  negb (Z.land op (Z.lor fsnotify.Write
                    (Z.lor fsnotify.Create
                      (Z.lor fsnotify.Remove fsnotify.Rename))) =? 0).

(** The quiet window: one second, in nanoseconds. *)
Definition quietWindow : Z := 1000000000.

(** The time of the last qualifying event on [name] once [rs] has been
    received; [t] is that time before [rs]. *)
Fixpoint lastEvent (name : string) (t : Z) (rs : list received) : Z :=
  match rs with
  | [] => t
  | Event n op now _ :: rs' =>
      lastEvent name
        (if String.eqb n name && qualifies op then now else t) rs'
  | _ :: rs' => lastEvent name t rs'
  end.

(** What is received after a qualifying event on [name] at time [t]
    arrives within the quiet window: every tick comes no later than one
    second after the last qualifying event on [name] before it, and
    neither channel of the watcher is closed. *)
Fixpoint withinQuietWindow (name : string) (t : Z) (rs : list received)
  : Prop :=
  match rs with
  | [] => True
  | Event n op now _ :: rs' =>
      withinQuietWindow name
        (if String.eqb n name && qualifies op then now else t) rs'
  | Tick now :: rs' => now - t <= quietWindow /\ withinQuietWindow name t rs'
  | WatchError _ :: rs' => withinQuietWindow name t rs'
  | EventsClosed :: _ | ErrorsClosed :: _ => False
  end.

(** A prefix-stripping [filepath.Rel] for the examples. *)
Definition relUnder (base target : string) : option string :=
  Glob.stripPrefix (base ++ "/") target.

(** *** The initial sync *)

(** A property of every entry of a directory. *)
Definition allEntries (P : node -> Prop) : list (string * node) -> Prop :=
  fix all (es : list (string * node)) : Prop :=
    match es with
    | [] => True
    | (_, c) :: es' => P c /\ all es'
    end.


(** The entries the walk mirrors, in the order it reaches them: those in
    scope that are not below a directory out of scope. *)
Definition inScopeBelow (inScope : path -> node -> list (path * node))
  (rel : path) : list (string * node) -> list (path * node) :=
  fix below (es : list (string * node)) : list (path * node) :=
    match es with
    | [] => []
    | (name, c) :: es' => inScope (rel ++ [name]) c ++ below es'
    end.

Fixpoint inScope (m : Manager) (rel : path) (info : node)
  : list (path * node) :=
  let relPath := filepath.render rel in
  match info with
  | File _ _ =>
      if String.eqb relPath "." then []
      else if negb (shouldInclude m relPath) then []
      else [(rel, info)]
  | Dir _ es =>
      if String.eqb relPath "." then inScopeBelow (inScope m) rel es
      else if negb (shouldInclude m relPath) then []
      else (rel, info) :: inScopeBelow (inScope m) rel es
  end.

(** A directory the walk skips. *)
Definition skipped (m : Manager) (rel : path) (info : node) : bool :=
  IsDir info && negb (String.eqb (filepath.render rel) ".")
  && negb (shouldInclude m (filepath.render rel)).

(** [mirrorEntry] on a list of entries, up to the first error. *)
Fixpoint mirrorAll (umask : Z) (m : Manager) (entries : list (path * node))
  (st : syncState) : syncState * option string :=
  match entries with
  | [] => (st, None)
  | (rel, info) :: rest =>
      match mirrorEntry umask m rel info st with
      | (st', None) => mirrorAll umask m rest st'
      | (st', Some err) => (st', Some err)
      end
  end.

(** The repo tree [t] has the entry: a file with the content and the
    permission bits of the source; for a directory, something at its path
    (or in the way of it). *)
Definition settled (t : node) (e : path * node) : Prop :=
  match e.2 with
  | File mode data => Stat e.1 t = Ok (File mode data)
  | Dir _ _ => IsNotExist (Stat e.1 t) = false
  end.

(** The relative paths of the files among some entries. *)
Fixpoint filesOf (entries : list (path * node)) : list string :=
  match entries with
  | [] => []
  | (rel, File _ _) :: rest => filepath.render rel :: filesOf rest
  | (_, Dir _ _) :: rest => filesOf rest
  end.

(** The files in scope of a source tree. *)
Definition inScopeFiles (m : Manager) (src : node) : list string :=
  filesOf (inScope m [] src).

(** What [InitialSync] prints for copied files, [n] files having been
    copied before: a line each up to the tenth (all, in verbose mode),
    and one line for the rest. *)
Fixpoint fileLines (verbose : bool) (n : Z) (relPaths : list string)
  : list ui.output :=
  match relPaths with
  | [] => []
  | relPath :: rest =>
      (if (n + 1 <=? 10) || verbose
       then [ui.PrintFileOperation "added" relPath]
       else if (n + 1 =? 11) && negb verbose
       then [ui.PrintInfo "... and more files"]
       else [])
      ++ fileLines verbose (n + 1) rest
  end.

(** The file operations among printed lines: what a run reports as
    added, modified or deleted. *)
Definition reportedChanges (lines : list ui.output) : list ui.output :=
  List.filter (fun line =>
                 match line with
                 | ui.PrintFileOperation _ _ => true
                 | _ => false
                 end) lines.

(** A source tree for the examples. *)
Definition sampleSource : node :=
  Dir 493 [("cache", Dir 493 [("tmp.log", File 420 "x")]);
           ("i3", Dir 448 [("config", File 420 "bar {}")]);
           ("zsh", Dir 493 [(".zshrc", File 384 "alias ll=ls")])].

(** What the walk returns, from what mirroring the entries returns. *)
Definition walked (skip : bool) (r : syncState * option string)
  : syncState * option Walk.walkErr :=
  match r with
  | (st', Some err) => (st', Some (Walk.Err err))
  | (st', None) => (st', if skip then Some Walk.SkipDir else None)
  end.

(** *** The commit message *)

(** What [syncChangedFiles] accumulates in [fileChangeSummary] for the
    paths of one operation: each path followed by a comma and a space. *)
Fixpoint summaryOf (paths : list string) : string :=
  match paths with
  | [] => ""
  | relPath :: rest => relPath ++ ", " ++ summaryOf rest
  end.

(** The commit message as the specification words it: for each operation
    with paths, the operation and up to three paths, " and N more" when
    there are more than three; the groups joined with "; "; the count of
    changes when there is no group. *)
Definition spec_group (operation : string) (paths : list string) : string :=
  operation ++ ": "
  ++ (if (3 <? Z.of_nat (length paths)) then
        Strings.Join (firstn 3 paths) ", "
        ++ " and " ++ Strings.itoa (Z.of_nat (length paths) - 3) ++ " more"
      else Strings.Join paths ", ").

Definition spec_commitMessage (summary : list (string * list string))
  (totalChanges : Z) : string :=
  let groups :=
    flat_map (fun '(operation, paths) =>
                match paths with
                | [] => []
                | _ => [spec_group operation paths]
                end) summary in
  match groups with
  | [] => "Updated configuration files: " ++ Strings.itoa totalChanges
          ++ " files changed"
  | _ => "Configuration update: " ++ Strings.Join groups "; "
  end.

End statements.

(** ** Package [config]: starting the watcher, removing a directory *)

Module config_rest.

Import os config.

(** *** [StartWatcher] *)

(** What [StartWatcher] leaves behind: the directories added to the
    watcher, by their names from ConfigDir down, what was printed, and
    what went to the log. *)
Record watcherState : Type := {
  watched : list path;
  shown : list ui.output;
  logged : list string
}.

Section StartWatcher.

(** [watcher.Add(path)]: [None], or the error. *)
Variable watcherAdd : path -> option string.

(** What the function [StartWatcher] passes to [filepath.Walk] does with
    an entry in scope. *)
Definition watchEntry (m : Manager) (rel : path) (info : node)
  (st : watcherState) : watcherState :=
  let relPath := filepath.render rel in
  if IsDir info then
    match watcherAdd rel with
    | Some err =>
        {| watched := watched st;
           shown := shown st;
           logged := (logged st
                      ++ [("Error watching directory "
                           ++ filepath.Join (ConfigDir m) relPath
                           ++ ": " ++ err)%string])%list |}
    | None =>
        {| watched := (watched st ++ [rel])%list;
           shown := (shown st
                     ++ (if Verbose m
                         then [ui.PrintInfo
                                 ("Watching directory: " ++ relPath)
                                 %string]
                         else []))%list;
           logged := logged st |}
    end
  else st.

(** The function [StartWatcher] passes to [filepath.Walk]. *)
Definition watchVisit (m : Manager) (rel : path) (info : node)
  (st : watcherState) : watcherState * option Walk.walkErr :=
  let relPath := filepath.render rel in
  if String.eqb relPath "." then (st, None)
  else if negb (shouldInclude m relPath) then
    (st, if IsDir info then Some Walk.SkipDir else None)
  else (watchEntry m rel info st, None).

(** [Manager.StartWatcher], up to the start of the loop.  [newWatcher]
    is the error of [fsnotify.NewWatcher()], if any; [src] is the tree
    at ConfigDir. *)
Definition StartWatcher (m : Manager) (newWatcher : option string)
  (src : node) : watcherState * option string :=
  let st0 := {| watched := []; shown := []; logged := [] |} in
  match newWatcher with
  | Some err => (st0, Some (Errorf "failed to create watcher" err))
  | None =>
      match Walk.Walk (watchVisit m) src st0 with
      | (st, Some err) =>
          (st, Some (Errorf "failed to set up file watching" err))
      | (st, None) => (st, None)
      end
  end.

End StartWatcher.

(** *** [removeDirectory] *)

(** [os.ReadDir(p)]: the entries of the directory at [p], as listed. *)
Definition ReadDir (p : path) (t : node) : result (list (string * node)) :=
  bind (Stat p t) (fun n =>
    match n with
    | Dir _ es => Ok es
    | File _ _ => Fail ENOTDIR
    end).

(** The loop of [removeDirectory(p)] over the entries read, and the
    removal of [p] after it.  [removeDir] is the recursive call; [None]
    is a call that does not return. *)
Definition removeEntries
  (removeDir : path -> node -> option (result node)) (p : path)
  : list (string * node) -> node -> option (result node) :=
  fix loop (entries : list (string * node)) (t : node)
    : option (result node) :=
    match entries with
    | [] => Some (Remove p t)
    | (name, entry) :: rest =>
        let entryPath := (p ++ [name])%list in
        match (if IsDir entry then removeDir entryPath t
               else Some (Remove entryPath t)) with
        | None => None
        | Some (Fail e) => Some (Fail e)
        | Some (Ok t') => loop rest t'
        end
    end.

(** [removeDirectory(p)] on the tree [t]; [fuel] bounds the depth of
    the recursion, and [None] is returned when it does not suffice. *)
Fixpoint removeDirectory (fuel : nat) (p : path) (t : node)
  : option (result node) :=
  match fuel with
  | O => None
  | S fuel' =>
      match ReadDir p t with
      | Fail e => Some (Fail e)
      | Ok entries => removeEntries (removeDirectory fuel') p entries t
      end
  end.

End config_rest.

(** ** Package [strings], further *)

Module strings_more.

(** [strings.TrimSpace] removes the leading and the trailing characters
    that [unicode.IsSpace] accepts.  A string is the bytes of its UTF-8
    encoding, and a character is decoded from the bytes at the start,
    or at the end, of what is left; bytes that encode no character
    count as a character that is no white space. *)

(** The white space among the ASCII characters: tab, line feed, vertical
    tab, form feed, carriage return, space. *)
Definition isSpace (c : ascii) : bool :=
  let n := nat_of_ascii c in
  ((9 <=? n) && (n <=? 13) || (n =? 32))%nat.

(** The white space encoded in two bytes: U+0085 (C2 85) and U+00A0
    (C2 A0). *)
Definition isSpace2 (a b : ascii) : bool :=
  let '(a, b) := (nat_of_ascii a, nat_of_ascii b) in
  ((a =? 194) && ((b =? 133) || (b =? 160)))%nat.

(** The white space encoded in three bytes: U+1680 (E1 9A 80), U+2000
    to U+200A (E2 80 80 to E2 80 8A), U+2028, U+2029 and U+202F
    (E2 80 A8, A9, AF), U+205F (E2 81 9F) and U+3000 (E3 80 80). *)
Definition isSpace3 (a b c : ascii) : bool :=
  let '(a, b, c) := (nat_of_ascii a, nat_of_ascii b, nat_of_ascii c) in
  ((a =? 225) && (b =? 154) && (c =? 128)
   || (a =? 226) && (b =? 128)
      && ((128 <=? c) && (c <=? 138) || (c =? 168) || (c =? 169)
          || (c =? 175))
   || (a =? 226) && (b =? 129) && (c =? 159)
   || (a =? 227) && (b =? 128) && (c =? 128))%nat.

(** The bytes of a string from the last to the first. *)
Fixpoint reversed (s acc : string) : string :=
  match s with
  | EmptyString => acc
  | String c s' => reversed s' (String c acc)
  end.

(** Passing over the white space at the start of [s].  With [fromEnd]
    the bytes of [s] are those of a string from its last byte to its
    first, so the bytes of a character come in the opposite order. *)
Fixpoint skipSpace (fromEnd : bool) (s : string) : string :=
  match s with
  | EmptyString => EmptyString
  | String c1 s1 =>
      if isSpace c1 then skipSpace fromEnd s1
      else
        match s1 with
        | EmptyString => s
        | String c2 s2 =>
            if (if fromEnd then isSpace2 c2 c1 else isSpace2 c1 c2)
            then skipSpace fromEnd s2
            else
              match s2 with
              | EmptyString => s
              | String c3 s3 =>
                  if (if fromEnd then isSpace3 c3 c2 c1
                      else isSpace3 c1 c2 c3)
                  then skipSpace fromEnd s3
                  else s
              end
        end
  end.

Definition TrimLeft (s : string) : string := skipSpace false s.

Definition TrimRight (s : string) : string :=
  reversed (skipSpace true (reversed s "")) "".

(** [strings.TrimSpace s] *)
Definition TrimSpace (s : string) : string := TrimRight (TrimLeft s).

Definition lower (c : ascii) : ascii :=
  let n := nat_of_ascii c in
  if ((65 <=? n) && (n <=? 90))%nat then ascii_of_nat (n + 32) else c.

(** [strings.ToLower s] *)
Fixpoint ToLower (s : string) : string :=
  match s with
  | EmptyString => EmptyString
  | String c s' => String (lower c) (ToLower s')
  end.

End strings_more.

(** ** The Bubble Tea programs of package [ui] *)

Module tea.

(** A message: a key press, with its type ([msg.Type]) and its name
    ([msg.String()]), or anything else. *)
Inductive KeyType : Type := KeyEnter | KeyCtrlC | KeyOther.

Inductive Msg : Type :=
| KeyMsg (type : KeyType) (name : string)
| OtherMsg.

(** [tea.NewProgram(p).Run()] without error: the model after the
    messages the program has handed to [Update], one after the other.
    [Update] returns the model and whether its command is [tea.Quit]. *)
Definition Run {M : Type} (Update : M -> Msg -> M * bool) (m : M)
  (msgs : list Msg) : M :=
  fold_left (fun m msg => fst (Update m msg)) msgs m.

End tea.

Module ui_prompts.

(** How a prompt went: the program ran and processed these messages, or
    it failed and the prompt fell back to the console, where
    [fmt.Scanln] read this value. *)
Inductive session (A : Type) : Type :=
| Tui (processed : list tea.Msg)
| Console (scanned : A).
Arguments Tui {A} processed.
Arguments Console {A} scanned.

Module YesNoPromptModel.

Record model : Type := {
  question : string;
  defaultValue : bool;
  response : bool;
  quitting : bool
}.

Definition answer (m : model) (r : bool) : model * bool :=
  ({| question := question m; defaultValue := defaultValue m;
      response := r; quitting := true |}, true).

Definition Update (m : model) (msg : tea.Msg) : model * bool :=
  match msg with
  | tea.KeyMsg _ name =>
      if String.eqb name "y" || String.eqb name "Y" then answer m true
      else if String.eqb name "n" || String.eqb name "N" then
        answer m false
      else if String.eqb name "enter" then answer m (defaultValue m)
      else if String.eqb name "ctrl+c" || String.eqb name "q" then
        answer m (defaultValue m)
      else (m, false)
  | tea.OtherMsg => (m, false)
  end.

End YesNoPromptModel.

(** [PromptYesNo(prompt, defaultValue)] *)
Definition PromptYesNo (prompt : string) (defaultValue : bool)
  (s : session string) : bool :=
  match s with
  | Tui msgs =>
      YesNoPromptModel.response
        (tea.Run YesNoPromptModel.Update
           {| YesNoPromptModel.question := prompt;
              YesNoPromptModel.defaultValue := defaultValue;
              YesNoPromptModel.response := false;
              YesNoPromptModel.quitting := false |} msgs)
  | Console input =>
      let input := strings_more.TrimSpace (strings_more.ToLower input) in
      if String.eqb input "" then defaultValue
      else String.eqb input "y" || String.eqb input "yes"
  end.

Module TextInputModel.

Section TextInput.

(** The text input of package [textinput]: its state, the state
    [textinput.New()] gives after the settings of [NewTextInputModel],
    [Value()] and [Update(msg)]. *)
Context {Input : Type}.
Variable newInput : string -> Input.
Variable Value : Input -> string.
Variable updateInput : Input -> tea.Msg -> Input.

Record model : Type := {
  textInput : Input;
  question : string;
  defaultValue : string;
  response : string;
  quitting : bool
}.

Definition NewTextInputModel (question defaultValue : string) : model :=
  {| textInput := newInput defaultValue;
     question := question;
     defaultValue := defaultValue;
     response := "";
     quitting := false |}.

Definition answer (m : model) (r : string) : model * bool :=
  ({| textInput := textInput m; question := question m;
      defaultValue := defaultValue m; response := r;
      quitting := true |}, true).

Definition Update (m : model) (msg : tea.Msg) : model * bool :=
  match msg with
  | tea.KeyMsg tea.KeyEnter _ =>
      let value := Value (textInput m) in
      if String.eqb value "" && negb (String.eqb (defaultValue m) "")
      then answer m (defaultValue m)
      else answer m value
  | tea.KeyMsg tea.KeyCtrlC _ => answer m (defaultValue m)
  | _ =>
      ({| textInput := updateInput (textInput m) msg;
          question := question m; defaultValue := defaultValue m;
          response := response m; quitting := quitting m |}, false)
  end.

(** [PromptInput(prompt, defaultValue)] *)
Definition PromptInput (prompt defaultValue : string)
  (s : session string) : string :=
  match s with
  | Tui msgs =>
      response (tea.Run Update (NewTextInputModel prompt defaultValue) msgs)
  | Console input =>
      let input := strings_more.TrimSpace input in
      if String.eqb input "" && negb (String.eqb defaultValue "")
      then defaultValue
      else input
  end.

End TextInput.

End TextInputModel.

Module SelectModel.

Record model : Type := {
  choices : list string;
  cursor : Z;
  selected : Z;
  question : string;
  quitting : bool
}.

Definition len (m : model) : Z := Z.of_nat (length (choices m)).

Definition setCursor (m : model) (c : Z) : model :=
  {| choices := choices m; cursor := c; selected := selected m;
     question := question m; quitting := quitting m |}.

Definition Update (m : model) (msg : tea.Msg) : model * bool :=
  match msg with
  | tea.KeyMsg _ name =>
      if String.eqb name "up" || String.eqb name "k" then
        (if 0 <? cursor m then setCursor m (cursor m - 1) else m, false)
      else if String.eqb name "down" || String.eqb name "j" then
        (if cursor m <? len m - 1 then setCursor m (cursor m + 1) else m,
         false)
      else if String.eqb name "enter" then
        ({| choices := choices m; cursor := cursor m;
            selected := cursor m; question := question m;
            quitting := true |}, true)
      else if String.eqb name "ctrl+c" || String.eqb name "q" then
        ({| choices := choices m; cursor := cursor m;
            selected := selected m; question := question m;
            quitting := true |}, true)
      else (m, false)
  | tea.OtherMsg => (m, false)
  end.

End SelectModel.

(** [choices[i]]; [None] is the panic of an index out of range. *)
Definition nthChoice (choices : list string) (i : Z) : option string :=
  if i <? 0 then None else nth_error choices (Z.to_nat i).

(** [PromptSelect(prompt, choices, defaultIndex)]; [None] is a
    panic. *)
Definition PromptSelect (prompt : string) (choices : list string)
  (defaultIndex : Z) (s : session Z) : option string :=
  let n := Z.of_nat (length choices) in
  let defaultIndex :=
    if (defaultIndex <? 0) || (n <=? defaultIndex) then 0
    else defaultIndex in
  match s with
  | Tui msgs =>
      let model :=
        tea.Run SelectModel.Update
          {| SelectModel.choices := choices;
             SelectModel.cursor := defaultIndex;
             SelectModel.selected := defaultIndex;
             SelectModel.question := prompt;
             SelectModel.quitting := false |} msgs in
      if (0 <=? SelectModel.selected model)
         && (SelectModel.selected model <? n)
      then nthChoice choices (SelectModel.selected model)
      else nthChoice choices defaultIndex
  | Console input =>
      if (0 <? input) && (input <=? n) then nthChoice choices (input - 1)
      else nthChoice choices defaultIndex
  end.

End ui_prompts.

(** ** Package [env] *)

Module env.

Import os.

Definition GithubURLKey : string := "GITHUB_REPO_URL".
Definition GithubUsernameKey : string := "GITHUB_USERNAME".
Definition GithubTokenKey : string := "GITHUB_TOKEN".

Record Config : Type := {
  GithubRepoURL : string;
  GithubUsername : string;
  GithubToken : string;
  EnvFilePath : string
}.

Definition newline : string := String "010" "".

(** The content [SaveConfig] writes. *)
Definition content (c : Config) : string :=
  GithubURLKey ++ "=" ++ GithubRepoURL c ++ newline
  ++ GithubUsernameKey ++ "=" ++ GithubUsername c ++ newline
  ++ GithubTokenKey ++ "=" ++ GithubToken c ++ newline.

(** [Config.SaveConfig]; [t] is the tree the path of the file is
    relative to. *)
Definition SaveConfig (umask : Z) (c : Config) (t : node)
  : node * option string :=
  let file := filepath.segments (EnvFilePath c) in
  let dir := filepath.Dir file in
  let made :=
    if IsNotExist (Stat dir t) then MkdirAll umask dir 493 t else Ok t in
  match made with
  | Fail e =>
      (t, Some (Errorf "failed to create directory for .env file"
                       (strerror e)))
  | Ok t1 =>
      match writeFile umask file (content c) 384 t1 with
      | Fail e =>
          (t1, Some (Errorf "failed to write .env file" (strerror e)))
      | Ok t2 => (t2, None)
      end
  end.

(** [Config.IsConfigComplete] *)
Definition IsConfigComplete (c : Config) : bool :=
  negb (String.eqb (GithubRepoURL c) "")
  && negb (String.eqb (GithubUsername c) "")
  && negb (String.eqb (GithubToken c) "").

(** [Config.UpdateFromUserInput] *)
Definition UpdateFromUserInput (c : Config) (repoURL username token : string)
  : Config :=
  let given (input old : string) :=
    if negb (String.eqb (strings_more.TrimSpace input) "")
    then strings_more.TrimSpace input else old in
  {| GithubRepoURL := given repoURL (GithubRepoURL c);
     GithubUsername := given username (GithubUsername c);
     GithubToken := given token (GithubToken c);
     EnvFilePath := EnvFilePath c |}.

End env.

(** ** Package [git]: prompting for a strategy, syncing with the remote *)

Module git_rest.

Import os git ui_prompts.

(** [type GitRepo]: the remote URL and whether [Auth] is set. *)
Record GitRepo : Type := {
  RemoteURL : string;
  Auth : option (string * string)
}.

(** [GitRepo.SetCredentials] *)
Definition SetCredentials (g : GitRepo) (username token : string)
  : GitRepo :=
  {| RemoteURL := RemoteURL g; Auth := Some (username, token) |}.

(** What a call of the backend returns: no error, the error
    [git.NoErrAlreadyUpToDate], or another error. *)
Inductive outcome : Type :=
| Done
| AlreadyUpToDate
| Failed (err : string).

(** The calls [Pull], [Add], [Commit] and [Push] make to the backend. *)
Inductive call : Type :=
| CallPull
| CallAdd (path : string)
| CallCommit (message : string)
| CallPush.

(** An entry of the index and the status of a file. *)
Record IndexEntry : Type := {
  Name : string;
  Stage : Z;
  Hash : string
}.

Record FileStatus : Type := {
  Staging : ascii;
  Worktree : ascii
}.

Definition Unmerged : ascii := "U"%char.
Definition Unmodified : ascii := " "%char.

(** [Status.IsClean()] *)
Definition IsClean (status : list (string * FileStatus)) : bool :=
  forallb (fun '(_, s) =>
             Ascii.eqb (Worktree s) Unmodified
             && Ascii.eqb (Staging s) Unmodified) status.

Definition bare : string := "worktree not available in a bare repository".

Definition invalidChoice : ui.output :=
  ui.PrintWarning "Invalid choice. Please enter 1, 2, or 3.".

(** What [promptForResolutionStrategy] prints before it asks. *)
Definition strategyMenu : list ui.output :=
  [ui.PrintInfo "How would you like to resolve these conflicts?";
   ui.PrintInfo "1. Keep local changes (your version)";
   ui.PrintInfo "2. Keep remote changes (remote version)";
   ui.PrintInfo "3. Create merged files (with both versions)"].

Section Sync.

Variable umask : Z.

(** What the repository keeps besides the working tree (the [Index] of
    the resolver), and the calls that go to the backend.  [wPull] and
    [wCommit] return the repository after the call also when they
    fail. *)
Context {Store : Type}.
Variable worktreeAdd : string -> node -> Store -> Store + string.
Variable gitCheckout : string -> string -> node -> Store -> node + string.
Variable wPull : node -> Store -> node * Store * outcome.
Variable wStatus : node -> Store -> list (string * FileStatus) + string.
Variable storerIndex : Store -> list IndexEntry + string.
Variable wCommit : string -> node -> Store -> Store * option string.
Variable rPush : node -> Store -> outcome.

(** The text input of the prompts. *)
Context {Input : Type}.
Variable newInput : string -> Input.
Variable Value : Input -> string.
Variable updateInput : Input -> tea.Msg -> Input.

(** The loop of [promptForResolutionStrategy] over the prompts that
    follow: the strategy and the prompts left, or [None] while it waits
    for another answer; and what was printed. *)
Fixpoint promptLoop (inputs : list (session string))
  (out : list ui.output)
  : option (ResolutionStrategy * list (session string)) * list ui.output :=
  match inputs with
  | [] => (None, out)
  | s :: rest =>
      let choice :=
        TextInputModel.PromptInput newInput Value updateInput
          "Enter choice (1-3)" "3" s in
      if String.eqb choice "1" then (Some (KeepLocal, rest), out)
      else if String.eqb choice "2" then (Some (KeepRemote, rest), out)
      else if String.eqb choice "3" then (Some (Merge, rest), out)
      else promptLoop rest (out ++ [invalidChoice])%list
  end.

Definition promptForResolutionStrategy (inputs : list (session string))
  : option (ResolutionStrategy * list (session string)) * list ui.output :=
  promptLoop inputs strategyMenu.

(** The repository, the calls made so far and the prompts to come. *)
Record state : Type := {
  work : repo Store;
  calls : list call;
  inputs : list (session string)
}.

Definition setWork (r : repo Store) (st : state) : state :=
  {| work := r; calls := calls st; inputs := inputs st |}.

Definition say (line : ui.output) (st : state) : state :=
  setWork (print line (work st)) st.

Definition sayAll (lines : list ui.output) (st : state) : state :=
  fold_left (fun st line => say line st) lines st.

Definition called (c : call) (st : state) : state :=
  {| work := work st; calls := (calls st ++ [c])%list;
     inputs := inputs st |}.

Definition setStore (i : Store) (st : state) : state :=
  setWork {| hasWorktree := hasWorktree (work st);
             files := files (work st); index := i;
             printed := printed (work st) |} st.

(** [GitRepo.Add(paths...)] *)
Definition Add (paths : list string) (st : state) : state * option string :=
  if negb (hasWorktree (work st)) then
    (st, Some (Errorf "failed to get worktree" bare))
  else
    (fix loop (paths : list string) (st : state) : state * option string :=
       match paths with
       | [] => (st, None)
       | path :: rest =>
           let st := called (CallAdd path) st in
           match worktreeAdd path (files (work st)) (index (work st)) with
           | inr err =>
               (st, Some (Errorf ("failed to add file " ++ path) err))
           | inl i => loop rest (setStore i st)
           end
       end) paths st.

(** [GitRepo.Commit(message)]; the styling of the message printed is
    left out, as in all output. *)
Definition Commit (message : string) (st : state) : state * option string :=
  if negb (hasWorktree (work st)) then
    (st, Some (Errorf "failed to get worktree" bare))
  else
    match wStatus (files (work st)) (index (work st)) with
    | inr err => (st, Some (Errorf "failed to get status" err))
    | inl status =>
        if IsClean status then (st, Some "no changes to commit")
        else
          let st := say (ui.PrintInfo ("Committing changes: " ++ message))
                        st in
          let st := called (CallCommit message) st in
          match wCommit message (files (work st)) (index (work st)) with
          | (i, Some err) =>
              (setStore i st, Some (Errorf "failed to commit" err))
          | (i, None) => (setStore i st, None)
          end
    end.

(** [GitRepo.Push()] *)
Definition Push (g : GitRepo) (st : state) : state * option string :=
  if String.eqb (RemoteURL g) "" then (st, Some "remote URL not set")
  else
    match Auth g with
    | None => (st, Some "authentication credentials not set")
    | Some _ =>
        let st :=
          say (ui.PrintInfo "Pushing changes to remote repository...") st in
        let st := called CallPush st in
        match rPush (files (work st)) (index (work st)) with
        | Failed err => (st, Some (Errorf "failed to push" err))
        | _ => (st, None)
        end
    end.

(** [GitRepo.Pull()] *)
Definition Pull (g : GitRepo) (st : state) : state * option string :=
  if String.eqb (RemoteURL g) "" then (st, Some "remote URL not set")
  else if negb (hasWorktree (work st)) then
    (st, Some (Errorf "failed to get worktree" bare))
  else
    let st :=
      say (ui.PrintInfo "Pulling latest changes from remote repository...")
          st in
    let st := called CallPull st in
    match wPull (files (work st)) (index (work st)) with
    | (t, i, o) =>
        let st :=
          setWork {| hasWorktree := hasWorktree (work st); files := t;
                     index := i; printed := printed (work st) |} st in
        match o with
        | Failed err => (st, Some (Errorf "failed to pull" err))
        | _ => (st, None)
        end
    end.

(** The loop of [DetectConflicts] over the index entries, for one
    path. *)
Definition withSHAs (entries : list IndexEntry) (c : ConflictFile)
  : ConflictFile :=
  fold_left (fun c entry =>
               if String.eqb (Name entry) (Path c) then
                 if Stage entry =? 2 then
                   {| Path := Path c; LocalSHA := Hash entry;
                      RemoteSHA := RemoteSHA c |}
                 else if Stage entry =? 3 then
                   {| Path := Path c; LocalSHA := LocalSHA c;
                      RemoteSHA := Hash entry |}
                 else c
               else c) entries c.

(** [ConflictResolver.DetectConflicts()]: the conflicts the resolver
    holds afterwards, and what is returned.  The status lists the files
    in the order the range visits them. *)
Definition DetectConflicts (r : repo Store)
  : list ConflictFile * (bool * option string) :=
  if negb (hasWorktree r) then
    ([], (false, Some (Errorf "failed to get worktree" bare)))
  else
    match wStatus (files r) (index r) with
    | inr err => ([], (false, Some (Errorf "failed to get status" err)))
    | inl status =>
        let conflicts :=
          flat_map (fun '(path, fileStatus) =>
                      if Ascii.eqb (Staging fileStatus) Unmerged
                         || Ascii.eqb (Worktree fileStatus) Unmerged
                      then
                        let conflict :=
                          {| Path := path; LocalSHA := "";
                             RemoteSHA := "" |} in
                        [match storerIndex (index r) with
                         | inl entries => withSHAs entries conflict
                         | inr _ => conflict
                         end]
                      else []) status in
        (conflicts, (0 <? Z.of_nat (length conflicts), None))
    end.

(** The numbered list of conflicts [SyncWithRemote] prints. *)
Fixpoint conflictLines (i : Z) (conflicts : list ConflictFile)
  : list ui.output :=
  match conflicts with
  | [] => []
  | conflict :: rest =>
      ui.PrintInfo (Strings.itoa (i + 1) ++ ". " ++ Path conflict)
      :: conflictLines (i + 1) rest
  end.

(** The loop of [SyncWithRemote] that asks for a strategy for each
    conflict; the outer [None] is a prompt that waits. *)
Fixpoint resolveEach (conflicts : list ConflictFile) (st : state)
  : state * option (option string) :=
  match conflicts with
  | [] => (st, Some None)
  | conflict :: rest =>
      let st := say (ui.PrintInfo ("Resolving conflict for: "
                                   ++ Path conflict)) st in
      match promptForResolutionStrategy (inputs st) with
      | (None, out) =>
          (sayAll out {| work := work st; calls := calls st;
                         inputs := [] |}, None)
      | (Some (strategy, remaining), out) =>
          let st := sayAll out {| work := work st; calls := calls st;
                                  inputs := remaining |} in
          match ResolveConflict umask worktreeAdd gitCheckout
                  (Path conflict) strategy (work st) with
          | (r, Some err) =>
              (setWork r st,
               Some (Some (Errorf ("failed to resolve conflict for "
                                   ++ Path conflict) err)))
          | (r, None) => resolveEach rest (setWork r st)
          end
      end
  end.

(** [SyncWithRemote] from "Add all changes" on. *)
Definition stageCommitPush (g : GitRepo) (message : string) (st : state)
  : state * option string :=
  match Add ["."] st with
  | (st, Some err) => (st, Some (Errorf "failed to add changes" err))
  | (st, None) =>
      match Commit message st with
      | (st, Some err) =>
          if String.eqb err "no changes to commit" then
            (say (ui.PrintInfo "No changes to commit") st, None)
          else (st, Some (Errorf "failed to commit changes" err))
      | (st, None) =>
          match Push g st with
          | (st, Some err) =>
              (st, Some (Errorf "failed to push changes" err))
          | (st, None) =>
              (say (ui.PrintSuccess
                      "Changes pushed to remote repository successfully")
                   st, None)
          end
      end
  end.

Definition returned (r : state * option string)
  : state * option (option string) :=
  (r.1, Some r.2).

(** [GitRepo.SyncWithRemote(message)]: the state afterwards and what is
    returned; the outer [None] is a prompt that waits for an answer. *)
Definition SyncWithRemote (g : GitRepo) (message : string) (st : state)
  : state * option (option string) :=
  match Pull g st with
  | (st, None) => returned (stageCommitPush g message st)
  | (st, Some err) =>
      let st := say (ui.PrintWarning ("Pull warning: " ++ err)) st in
      if Strings.Contains err "conflict" then
        let st :=
          say (ui.PrintInfo
                 "Detected potential merge conflicts. Attempting to resolve...")
              st in
        match DetectConflicts (work st) with
        | (_, (_, Some err)) =>
            (st, Some (Some (Errorf "failed to detect conflicts" err)))
        | (conflicts, (false, None)) =>
            returned (stageCommitPush g message st)
        | (conflicts, (true, None)) =>
            let st :=
              sayAll
                (ui.PrintWarning
                   ("Found "
                    ++ Strings.itoa (Z.of_nat (length conflicts))
                    ++ " file(s) with conflicts:")
                 :: conflictLines 0 conflicts
                 ++ [ui.PrintInfo
                       "Do you want to use the same strategy for all conflicts?"])%list
                st in
            match inputs st with
            | [] => (st, None)
            | s :: remaining =>
                let useSameStrategy :=
                  PromptYesNo "Use same strategy for all files?" true s in
                let st := {| work := work st; calls := calls st;
                             inputs := remaining |} in
                let resolved :=
                  if useSameStrategy then
                    match promptForResolutionStrategy (inputs st) with
                    | (None, out) =>
                        (sayAll out {| work := work st; calls := calls st;
                                       inputs := [] |}, None)
                    | (Some (strategy, remaining), out) =>
                        let st :=
                          sayAll out {| work := work st; calls := calls st;
                                        inputs := remaining |} in
                        match ResolveAllConflicts umask worktreeAdd
                                gitCheckout conflicts strategy (work st)
                        with
                        | (r, Some err) =>
                            (setWork r st,
                             Some (Some (Errorf
                                           "failed to resolve conflicts"
                                           err)))
                        | (r, None) => (setWork r st, Some None)
                        end
                    end
                  else resolveEach conflicts st in
                match resolved with
                | (st, Some None) =>
                    returned
                      (stageCommitPush g message
                         (say (ui.PrintSuccess
                                 "All conflicts resolved successfully") st))
                | (st, other) => (st, other)
                end
            end
        end
      else
        (st, Some (Some (Errorf "failed to pull from remote" err)))
  end.

End Sync.

End git_rest.

(** ** Package [main] *)

Module main.

Import os config.

(** [cli.AppConfig] *)
Record AppConfig : Type := {
  ConfigDir : string;
  RepoDir : string;
  ConfigFile : string;
  SyncInterval : Z;
  IncludePatterns : list string;
  ExcludePatterns : list string;
  RunOnce : bool;
  SyncOnly : bool;
  Verbose : bool
}.

(** [getOperationMode] *)
Definition getOperationMode (c : AppConfig) : string :=
  if RunOnce c then "Run Once (sync and exit)"
  else if SyncOnly c then "Sync Only (no monitoring)"
  else "Normal (sync and monitor)".

(** What [main] shows: the lines of package [ui], the logo, the title
    and the progress indicator. *)
Inductive shown : Type :=
| Ui (line : ui.output)
| PrintLogo
| PrintTitle (title : string)
| PrintProgress (message : string) (duration : Z).

(** How [main] ends: [os.Exit(code)], a panic, or the [select] that
    blocks for ever while the watcher runs. *)
Inductive ending : Type :=
| Exit (code : Z)
| Panic
| Monitoring.

(** What [main] has set up when it reaches the initial sync. *)
Record ready : Type := {
  gitRepo : git_rest.GitRepo;
  envConfig : env.Config;
  notifying : bool;          (* the notification manager is not nil *)
  workDir : node;            (* the tree at the working directory *)
  repoTree : node            (* the tree at RepoDir *)
}.

Section Main.

Variable umask : Z.

(** The calls that leave the program: [notification.NewManager],
    [env.LoadConfig] (the configuration, or the error that comes with a
    nil configuration), [git.PlainInit] and [git.PlainOpen] on the tree
    at RepoDir, the three calls of [SetRemote] on the repository,
    [cli.SaveConfig], [Duration.String], [GitRepo.SyncWithRemote],
    [fsnotify.NewWatcher] and [watcher.Add]. *)
Variable notifyError : option string.
Variable loaded : env.Config + string.
Variable plainInit : node -> node + string.
Variable plainOpen : node -> option string.
Variable remoteExists : bool.
Variable deleteRemote : option string.
Variable createRemote : string -> option string.
Variable saveAppConfig : AppConfig -> option string.
Variable durationString : Z -> string.
Variable SyncWithRemote : string -> os.node -> os.node * option string.
Variable newWatcher : option string.
Variable watcherAdd : path -> option string.

(** The text input of the prompts. *)
Context {Input : Type}.
Variable newInput : string -> Input.
Variable Value : Input -> string.
Variable updateInput : Input -> tea.Msg -> Input.

Local Abbreviation PromptInput :=
  (ui_prompts.TextInputModel.PromptInput newInput Value updateInput).

Definition info (message : string) : shown := Ui (ui.PrintInfo message).
Definition success (message : string) : shown :=
  Ui (ui.PrintSuccess message).
Definition warning (message : string) : shown :=
  Ui (ui.PrintWarning message).
Definition error (message : string) : shown := Ui (ui.PrintError message).

(** [git.InitOrOpenRepo(path)]; [repo] is the tree at [path], if there
    is one.  A directory that is missing can be created. *)
Definition InitOrOpenRepo (path : string) (repo : option node)
  : (node * list shown) + (list shown * string) :=
  match repo with
  | None =>
      let t := Dir (Z.ldiff 493 umask) [] in
      let out := [info ("Creating new Git repository at " ++ path)] in
      match plainInit t with
      | inr err =>
          inr (out, Errorf "failed to initialize repository" err)
      | inl t' => inl (t', out)
      end
  | Some t =>
      let out := [info ("Opening existing Git repository at " ++ path)] in
      match plainOpen t with
      | Some err => inr (out, Errorf "failed to open repository" err)
      | None => inl (t, out)
      end
  end.

(** [GitRepo.SetRemote(remoteURL)] *)
Definition SetRemote (g : git_rest.GitRepo) (remoteURL : string)
  : git_rest.GitRepo * list shown * option string :=
  let create (out : list shown) :=
    match createRemote remoteURL with
    | Some err => (g, out, Some (Errorf "failed to create remote" err))
    | None =>
        ({| git_rest.RemoteURL := remoteURL;
            git_rest.Auth := git_rest.Auth g |}, out, None)
    end in
  if remoteExists then
    let out := [info "Updating existing remote URL"] in
    match deleteRemote with
    | Some err =>
        (g, out, Some (Errorf "failed to delete existing remote" err))
    | None => create out
    end
  else create [info "Setting up new remote URL"].

(** One of the three questions of [main] for a credential that is
    empty: the prompt, and the update with the answer.  [answers] tells
    how the prompt for a question goes. *)
Definition ask (answers : string -> ui_prompts.session string)
  (empty : bool) (question : string)
  (update : env.Config -> string -> env.Config)
  (st : env.Config * bool) : env.Config * bool :=
  if empty then
    (update st.1 (PromptInput question "" (answers question)), true)
  else st.

(** The part of [main] that completes the credentials: the
    configuration and the tree at the working directory afterwards, and
    what was shown. *)
Definition askCredentials (answers : string -> ui_prompts.session string)
  (c0 : env.Config) (cwd : node) : env.Config * node * list shown :=
  if negb (env.IsConfigComplete c0) then
    let st := (c0, false) in
    let st :=
      ask answers (String.eqb (env.GithubRepoURL st.1) "")
        "GitHub repository URL (e.g., https://github.com/username/repo.git)"
        (fun c answer => env.UpdateFromUserInput c answer "" "") st in
    let st :=
      ask answers (String.eqb (env.GithubUsername st.1) "")
        "GitHub username"
        (fun c answer => env.UpdateFromUserInput c "" answer "") st in
    let st :=
      ask answers (String.eqb (env.GithubToken st.1) "")
        "GitHub personal access token"
        (fun c answer => env.UpdateFromUserInput c "" "" answer) st in
    let c := st.1 in
    let changed := st.2 in
    let saved :=
      if changed then env.SaveConfig umask c cwd else (cwd, None) in
    (c, saved.1,
     ([Ui (ui.PrintSection "GitHub Configuration");
       info "Please provide your GitHub credentials"]
      ++ (if changed then
            [info "Saving credentials...";
             match saved.2 with
             | Some err => warning ("Could not save credentials: " ++ err)
             | None => success "Credentials saved successfully"
             end]
          else []))%list)
  else (c0, cwd, [success "Loaded GitHub credentials from .env file"]).

(** The part of [main] that applies the configuration to the
    repository: the repository and what was shown, or what was shown
    before [os.Exit(1)]. *)
Definition applyCredentials (c : env.Config)
  : (git_rest.GitRepo * list shown) + list shown :=
  let g0 := {| git_rest.RemoteURL := ""; git_rest.Auth := None |} in
  if String.eqb (env.GithubRepoURL c) "" then
    inr [error "GitHub repository URL is required for synchronization"]
  else
    match SetRemote g0 (env.GithubRepoURL c) with
    | (_, lines, Some err) =>
        inr ([info "Setting up GitHub remote..."] ++ lines
             ++ [error ("Failed to set remote URL: " ++ err)])%list
    | (g1, lines, None) =>
        let seen := ([info "Setting up GitHub remote..."] ++ lines)%list in
        if negb (String.eqb (env.GithubUsername c) "")
           && negb (String.eqb (env.GithubToken c) "")
        then
          inl (git_rest.SetCredentials g1 (env.GithubUsername c)
                 (env.GithubToken c),
               (seen ++ [success
                           "GitHub credentials configured successfully"])%list)
        else
          inr (seen ++ [error
                          "GitHub credentials are required for synchronization"])%list
    end.

(** The part of [main] that saves the application configuration and
    shows it in verbose mode. *)
Definition showConfiguration (appConfig : AppConfig) : list shown :=
  ([info "Saving application configuration...";
    match saveAppConfig appConfig with
    | Some err =>
        warning ("Could not save application configuration: " ++ err)
    | None => success "Application configuration saved successfully"
    end]
   ++ (if Verbose appConfig then
         [Ui (ui.PrintSection "Effective Configuration");
          info ("Configuration Directory: " ++ ConfigDir appConfig);
          info ("Repository Directory: " ++ RepoDir appConfig);
          info ("Sync Interval: "
                ++ durationString (SyncInterval appConfig))]
         ++ (if (0 <? Z.of_nat (length (IncludePatterns appConfig)))
             then [info ("Include Patterns: "
                         ++ Strings.Join (IncludePatterns appConfig) ", ")]
             else [])
         ++ (if (0 <? Z.of_nat (length (ExcludePatterns appConfig)))
             then [info ("Exclude Patterns: "
                         ++ Strings.Join (ExcludePatterns appConfig) ", ")]
             else [])
         ++ [info ("Operation Mode: " ++ getOperationMode appConfig)]
       else []))%list.

(** [main] up to "Setup config manager": what it has shown, and how it
    ended or what it has set up.  [parsed] is what [cli.ParseFlags]
    returns, [answers] how the prompts go, [cwd] and [repo] the trees at
    the working directory and at RepoDir. *)
Definition setup (parsed : AppConfig + string)
  (answers : string -> ui_prompts.session string) (cwd : node)
  (repo : option node) : list shown * (ending + AppConfig * ready) :=
  match parsed with
  | inr err =>
      ([error ("Failed to parse command-line arguments: " ++ err)],
       inl (Exit 1))
  | inl appConfig =>
      let seen :=
        ([PrintLogo; PrintTitle "Linux Configuration Manager";
          info "Initializing notification system...";
          match notifyError with
          | Some err =>
              warning ("Could not initialize notification system: " ++ err)
          | None => success "Notification system initialized"
          end;
          Ui (ui.PrintSection "Loading Credentials")]
         ++ match loaded with
            | inr err => [warning ("Could not load credentials: " ++ err)]
            | inl _ => []
            end
         ++ [info "Initializing local repository..."])%list in
      match InitOrOpenRepo (RepoDir appConfig) repo with
      | inr (lines, err) =>
          ((seen ++ lines
                 ++ [error ("Failed to initialize repository: " ++ err)])%list,
           inl (Exit 1))
      | inl (t, lines) =>
          let seen :=
            (seen ++ lines
                  ++ [success "Repository initialized successfully"])%list in
          match loaded with
          | inr _ => (seen, inl Panic)
          | inl c0 =>
              match askCredentials answers c0 cwd with
              | (c, cwd', lines) =>
                  let seen := (seen ++ lines)%list in
                  match applyCredentials c with
                  | inr lines => ((seen ++ lines)%list, inl (Exit 1))
                  | inl (g, lines) =>
                      ((seen ++ lines ++ showConfiguration appConfig)%list,
                       inr (appConfig,
                            {| gitRepo := g; envConfig := c;
                               notifying :=
                                 match notifyError with
                                 | Some _ => false
                                 | None => true
                                 end;
                               workDir := cwd'; repoTree := t |}))
                  end
              end
          end
      end
  end.

(** [main] from "Setup config manager" on: what it shows, how it ends,
    the tree at RepoDir and what the watcher was given.  [src] is the
    tree at ConfigDir. *)
Definition run (appConfig : AppConfig) (r : ready) (src : node)
  : list shown * ending * node * option config_rest.watcherState :=
  let configManager :=
    NewManager (ConfigDir appConfig) (RepoDir appConfig)
      (IncludePatterns appConfig) (ExcludePatterns appConfig)
      (SyncInterval appConfig) (Verbose appConfig) (notifying r) in
  let seen :=
    [Ui (ui.PrintSection "Initial Synchronization");
     PrintProgress "Performing initial sync of configuration files" 3] in
  match InitialSync umask configManager SyncWithRemote src
          (Some (repoTree r)) with
  | (st, Some err) =>
      ((seen ++ map Ui (out st)
            ++ [error ("Failed during initial sync: " ++ err)])%list,
       Exit 1, mirror st, None)
  | (st, None) =>
      let seen :=
        (seen ++ map Ui (out st)
             ++ [success "Initial sync completed successfully!"])%list in
      if RunOnce appConfig then
        ((seen ++ [info "Run-once flag set. Exiting after initial sync."])%list,
         Exit 0, mirror st, None)
      else if SyncOnly appConfig then
        ((seen ++ [info "Sync-only flag set. Exiting after initial sync."])%list,
         Exit 0, mirror st, None)
      else
        let seen :=
          (seen ++ [Ui (ui.PrintSection "File Monitoring");
                   info "Starting file watcher for configuration changes..."])%list in
        match config_rest.StartWatcher watcherAdd configManager newWatcher
                src with
        | (w, Some err) =>
            ((seen ++ map Ui (config_rest.shown w)
                  ++ [error ("Failed to start file watcher: " ++ err)])%list,
             Exit 1, mirror st, Some w)
        | (w, None) =>
            ((seen ++ map Ui (config_rest.shown w)
                  ++ [success "File watcher started successfully";
                      Ui ui.PrintSeparator;
                      info
                        "Now monitoring for configuration changes. Press Ctrl+C to exit."])%list,
             Monitoring, mirror st, Some w)
        end
  end.

End Main.

End main.

(** ** Definitions used to state the further properties *)

Module more_statements.

Import os config statements.




(** A source tree and a repo tree that differ in one file, one deleted
    directory and the permission bits of a directory. *)
Definition editedSource : node :=
  Dir 493 [("i3", Dir 448 [("config", File 420 "bar { position top }")]);
           ("zsh", Dir 493 [(".zshenv", File 384 "export EDITOR=vi")])].

Definition repoBeforeEdit : node :=
  Dir 493 [("i3", Dir 493 [("config", File 420 "bar {}")]);
           ("nvim", Dir 493 [("init.vim", File 420 "set nu");
                             ("lua", Dir 493 [("a.lua", File 420 "")])])].

Definition noChanges (t : node) : changes :=
  {| tree := t; fileChanges := ∅; fileChangeSummary := ∅; console := [] |}.
(** *** The watcher loop *)

(** Among what the loop received there is a qualifying event on [name],
    which lies at [relPath] below ConfigDir and is in scope. *)
Definition changeSeen (Rel : string -> string -> option string)
  (m : Manager) (rs : list received) (name relPath : string) : Prop :=
  Rel (ConfigDir m) name = Some relPath
  /\ shouldInclude m relPath = true
  /\ exists op now isDir,
       Event name op now isDir ∈ rs /\ qualifies op = true.

(** What holds of the pending set and of the batches handed over so far,
    when [all] is what the loop receives. *)
Definition tidy (Rel : string -> string -> option string) (m : Manager)
  (all : list received) (st : @loopState (list (gmap string bool)))
  : Prop :=
  (forall name t,
     debounceEvents st !! name = Some t ->
     exists relPath, changeSeen Rel m all name relPath)
  /\ (forall batch,
        batch ∈ world st ->
        batch <> ∅
        /\ forall relPath v,
             batch !! relPath = Some v ->
             v = true /\ exists name, changeSeen Rel m all name relPath).

(** *** Starting the watcher *)




(** *** Removing a directory *)


(** *** Prompts *)


(** A text input that holds what was typed: the names of the keys that
    are neither Enter nor Ctrl+C, one after the other. *)
Definition typedInput (value : string) (msg : tea.Msg) : string :=
  match msg with
  | tea.KeyMsg tea.KeyOther name => value ++ name
  | _ => value
  end.

Definition key (name : string) : tea.Msg := tea.KeyMsg tea.KeyOther name.

(** *** The credentials file *)

(** Credentials as [LoadConfig] returns them when there is no file. *)
Definition noCredentials : env.Config :=
  {| env.GithubRepoURL := ""; env.GithubUsername := "";
     env.GithubToken := ""; env.EnvFilePath := ".env" |}.

(** A working directory with a credentials file that everyone can
    read. *)
Definition workDir : node :=
  Dir 493 [(".env", File 420 "GITHUB_TOKEN=old");
           ("config.yml", File 420 "verbose: true")].

(** *** The change summary *)

(** Every entry of the change summary is the summary of a non-empty
    list of paths of the batch. *)
Definition tracked (batch : list string) (c : changes) : Prop :=
  forall op s,
    fileChangeSummary c !! op = Some s ->
    exists paths,
      paths <> [] /\ s = summaryOf paths
      /\ forall p, p ∈ paths -> p ∈ batch.

(** The change summary, decoded: the paths recorded under each
    operation. *)
Definition decodes (summary : list (string * list string))
  (encoded : list (string * string)) : Prop :=
  encoded = map (fun '(op, paths) => (op, summaryOf paths)) summary.



(** *** Syncing with the remote *)

(** No file of the status is unmerged. *)
Definition noneUnmerged (status : list (string * git_rest.FileStatus))
  : Prop :=
  Forall (fun '(_, s) =>
            Ascii.eqb (git_rest.Staging s) git_rest.Unmerged = false
            /\ Ascii.eqb (git_rest.Worktree s) git_rest.Unmerged = false)
         status.

(** A backend whose pull is rejected, with one file modified in the
    working tree and nothing unmerged. *)
Definition rejectedPull (t : node) (i : list string)
  : node * list string * git_rest.outcome :=
  (t, i, git_rest.Failed "merge conflict: non-fast-forward update").

Definition modifiedStatus (t : node) (i : list string)
  : list (string * git_rest.FileStatus) + string :=
  inl [("i3/config",
        {| git_rest.Staging := git_rest.Unmodified;
           git_rest.Worktree := "M"%char |})].

Definition noIndex (i : list string)
  : list git_rest.IndexEntry + string := inl [].

Definition commits (message : string) (t : node) (i : list string)
  : list string * option string := (i ++ [message], None).

Definition pushes (t : node) (i : list string) : git_rest.outcome :=
  git_rest.Done.

Definition origin : git_rest.GitRepo :=
  {| git_rest.RemoteURL := "https://github.com/username/repo.git";
     git_rest.Auth := Some ("username", "token") |}.

Definition atRest : @git_rest.state (list string) :=
  {| git_rest.work := conflictedRepo; git_rest.calls := [];
     git_rest.inputs := [] |}.

(** *** The main program *)

(** A run of [main] with default flags, no credentials file to start
    from, and the same answer to every prompt. *)
Definition defaultFlags : main.AppConfig :=
  {| main.ConfigDir := "/home/username/.config";
     main.RepoDir := "/home/username/.config_sync_repo";
     main.ConfigFile := "config.yml";
     main.SyncInterval := 5 * Second;
     main.IncludePatterns := [];
     main.ExcludePatterns := [];
     main.RunOnce := false;
     main.SyncOnly := false;
     main.Verbose := false |}.

Definition sameAnswer (question : string) : ui_prompts.session string :=
  ui_prompts.Console " username ".

Definition answered : env.Config :=
  {| env.GithubRepoURL := "username"; env.GithubUsername := "username";
     env.GithubToken := "username"; env.EnvFilePath := ".env" |}.

Definition answeredRepo : git_rest.GitRepo :=
  {| git_rest.RemoteURL := "username";
     git_rest.Auth := Some ("username", "username") |}.

End more_statements.

(** * The library models on small inputs *)

Module examples.

Import os statements config.

(** [strings]: splitting, trimming, searching, printing a number. *)
Example strings_on_inputs :
  Strings.Split "a, b,, c" ", " = ["a"; "b,"; "c"]
  /\ Strings.Split "" ", " = [""]
  /\ Strings.Split "i3/config" "/" = ["i3"; "config"]
  /\ Strings.TrimSuffix "a, b, " ", " = "a, b"
  /\ Strings.TrimSuffix "a, b" ", " = "a, b"
  /\ Strings.Join ["a"; "b"; "c"] "; " = "a; b; c"
  /\ Strings.Contains "my.github/x" ".git" = true
  /\ Strings.Contains "gi.t" ".git" = false
  /\ Strings.itoa 12 = "12" /\ Strings.itoa 0 = "0".
Proof. vm_compute. repeat split; reflexivity. Qed.

(** [glob]: the examples of the library's documentation. *)
Example glob_on_documented_inputs :
  globMatch "*.github.com" [] "api.github.com" = Some true
  /\ globMatch "api.*.com" ["."%char] "api.github.com" = Some true
  /\ globMatch "api.*.com" ["."%char] "api.gi.hub.com" = Some false
  /\ globMatch "api.**.com" ["."%char] "api.github.com" = Some true
  /\ globMatch "api.**.com" ["."%char] "api.gi.hub.com" = Some true
  /\ globMatch "?at" [] "cat" = Some true
  /\ globMatch "?at" [] "fat" = Some true
  /\ globMatch "?at" [] "at" = Some false
  /\ globMatch "?at" ["f"%char] "cat" = Some true
  /\ globMatch "?at" ["f"%char] "fat" = Some false
  /\ globMatch "[abc]at" [] "cat" = Some true
  /\ globMatch "[abc]at" [] "fat" = Some false
  /\ globMatch "[!abc]at" [] "cat" = Some false
  /\ globMatch "[!abc]at" [] "fat" = Some true
  /\ globMatch "[a-c]at" [] "bat" = Some true
  /\ globMatch "[!a-c]at" [] "bat" = Some false
  /\ globMatch "{cat,bat,[fr]at}" [] "rat" = Some true
  /\ globMatch "{cat,bat,[fr]at}" [] "zat" = Some false.
Proof. vm_compute. repeat split; reflexivity. Qed.

(** [os]: directories are created with the permission bits less the
    umask, a new file likewise, a file that exists keeps its bits. *)
Example os_on_inputs :
  let t := Dir 493 [("a", File 384 "x")] in
  MkdirAll 18 ["d"; "e"] 511 t
  = Ok (Dir 493 [("a", File 384 "x"); ("d", Dir 493 [("e", Dir 493 [])])])
  /\ MkdirAll 18 ["a"; "e"] 511 t = Fail ENOTDIR
  /\ writeFile 18 ["b"] "y" 420 t
     = Ok (Dir 493 [("a", File 384 "x"); ("b", File 420 "y")])
  /\ writeFile 18 ["a"] "y" 420 t = Ok (Dir 493 [("a", File 384 "y")])
  /\ writeFile 18 ["c"; "b"] "y" 420 t = Fail ENOENT
  /\ Stat ["a"; "b"] t = Fail ENOTDIR
  /\ Stat ["b"] t = Fail ENOENT
  /\ Remove ["a"] t = Ok (Dir 493 []).
Proof. vm_compute. repeat split; reflexivity. Qed.

End examples.

(** * Properties *)

(** ** Strings *)

Module string_facts.

(** Appending to a string that starts with a character. *)
Lemma append_cons (a : ascii) (s t : string) :
  (String a s ++ t)%string = String a (s ++ t)%string.
Proof. reflexivity. Qed.

Lemma append_empty_l (s : string) : ("" ++ s)%string = s.
Proof. reflexivity. Qed.

Lemma append_empty_r (s : string) : (s ++ "")%string = s.
Proof.
  induction s as [|a s IH]; [reflexivity|]. now rewrite append_cons, IH.
Qed.

Lemma append_assoc (a b c : string) :
  ((a ++ b) ++ c)%string = (a ++ (b ++ c))%string.
Proof.
  induction a as [|x a IH]; [reflexivity|].
  now rewrite !append_cons, IH.
Qed.

Lemma length_append (a b : string) :
  String.length (a ++ b)%string = (String.length a + String.length b)%nat.
Proof.
  induction a as [|x a IH]; [reflexivity|].
  rewrite append_cons. simpl. now rewrite IH.
Qed.

End string_facts.

(** ** The directory tree *)

Module os_facts.

Import os statements.

Lemma eqb_refl_string (s : string) : String.eqb s s = true.
Proof. apply String.eqb_refl. Qed.

Lemma find_replace_eq name n es v :
  find name es = Some v -> find name (replace name n es) = Some n.
Proof.
  induction es as [|[k w] es IH]; simpl; [discriminate|].
  destruct (String.eqb name k) eqn:E; simpl; rewrite E; auto.
Qed.

Lemma find_add_eq name n es :
  find name es = None -> find name (add name n es) = Some n.
Proof.
  induction es as [|[k w] es IH]; simpl.
  - now rewrite eqb_refl_string.
  - destruct (String.eqb name k) eqn:E; [discriminate|]. intros H.
    destruct (String.ltb name k); simpl.
    + now rewrite eqb_refl_string.
    + rewrite E. auto.
Qed.

Lemma find_put_eq name n es : find name (put name n es) = Some n.
Proof.
  unfold put. destruct (find name es) eqn:E.
  - eapply find_replace_eq; eauto.
  - now apply find_add_eq.
Qed.

Lemma find_replace_ne name name' n es :
  name' <> name -> find name' (replace name n es) = find name' es.
Proof.
  intros Hne. induction es as [|[k w] es IH]; simpl; [reflexivity|].
  destruct (String.eqb name k) eqn:E; simpl.
  - apply String.eqb_eq in E. subst k.
    destruct (String.eqb name' name) eqn:E'; [|reflexivity].
    apply String.eqb_eq in E'. contradiction.
  - now rewrite IH.
Qed.

Lemma find_add_ne name name' n es :
  name' <> name -> find name' (add name n es) = find name' es.
Proof.
  intros Hne. induction es as [|[k w] es IH]; simpl.
  - destruct (String.eqb name' name) eqn:E'; [|reflexivity].
    apply String.eqb_eq in E'. contradiction.
  - destruct (String.ltb name k); simpl.
    + destruct (String.eqb name' name) eqn:E'; [|reflexivity].
      apply String.eqb_eq in E'. contradiction.
    + now rewrite IH.
Qed.

Lemma find_put_ne name name' n es :
  name' <> name -> find name' (put name n es) = find name' es.
Proof.
  intros Hne. unfold put. destruct (find name es).
  - now apply find_replace_ne.
  - now apply find_add_ne.
Qed.

Lemma find_put name name' n es :
  find name' (put name n es)
  = if String.eqb name' name then Some n else find name' es.
Proof.
  destruct (String.eqb name' name) eqn:E.
  - apply String.eqb_eq in E. subst. apply find_put_eq.
  - apply String.eqb_neq in E. now apply find_put_ne.
Qed.

(** Putting back what is there changes nothing. *)
Lemma put_same name n es : find name es = Some n -> put name n es = es.
Proof.
  intros H. unfold put. rewrite H. revert H.
  induction es as [|[k w] es IH]; simpl; [reflexivity|].
  destruct (String.eqb name k) eqn:E.
  - intros [= ->]. reflexivity.
  - intros H. now rewrite IH.
Qed.

(** *** [Stat] along a path *)

Lemma Stat_app p1 p2 t :
  Stat (p1 ++ p2) t = bind (Stat p1 t) (Stat p2).
Proof.
  revert t. induction p1 as [|s p1 IH]; intros t; simpl; [reflexivity|].
  destruct t as [m d|m es]; [reflexivity|].
  destruct (find s es); [apply IH|reflexivity].
Qed.

(** What is found below a path is found below a directory. *)
Lemma Stat_parent_dir p s t n :
  Stat (p ++ [s]) t = Ok n -> exists m es, Stat p t = Ok (Dir m es).
Proof.
  rewrite Stat_app. destruct (Stat p t) as [[m d|m es]|e]; simpl;
    try discriminate. eauto.
Qed.

Lemma removelast_snoc (p : path) :
  p <> [] -> exists s, p = (removelast p ++ [s])%list.
Proof.
  intros H. exists (List.last p ""). now apply app_removelast_last.
Qed.

(** *** [update] *)

(** Updating an entry that exists, when the function keeps it. *)
Lemma update_found p f t n n' :
  Stat p t = Ok n -> f (Some n) = Ok (Some n') ->
  exists t', update p f t = Ok t' /\ Stat p t' = Ok n'.
Proof.
  revert t. induction p as [|s p IH]; intros t HS Hf; simpl in *.
  - injection HS as ->. rewrite Hf. eauto.
  - destruct t as [m d|m es]; [discriminate|].
    destruct (find s es) as [c|] eqn:Hc; [|discriminate].
    destruct p as [|s' p'].
    + simpl in HS. injection HS as ->. rewrite Hf. simpl.
      eexists; split; [reflexivity|]. simpl. now rewrite find_put_eq.
    + destruct (IH c HS Hf) as (c' & Hu & HS').
      rewrite Hu. simpl. eexists; split; [reflexivity|].
      simpl. now rewrite find_put_eq.
Qed.

(** Updating an entry to what it is changes nothing. *)
Lemma update_same p f t n :
  Stat p t = Ok n -> f (Some n) = Ok (Some n) -> update p f t = Ok t.
Proof.
  revert t. induction p as [|s p IH]; intros t HS Hf; simpl in *.
  - injection HS as ->. now rewrite Hf.
  - destruct t as [m d|m es]; [discriminate|].
    destruct (find s es) as [c|] eqn:Hc; [|discriminate].
    destruct p as [|s' p'].
    + simpl in HS. injection HS as ->. rewrite Hf. simpl.
      now rewrite put_same.
    + rewrite (IH c HS Hf). simpl. now rewrite put_same.
Qed.


Lemma Stat_nonempty_File s p m d : Stat (s :: p) (File m d) = Fail ENOTDIR.
Proof. reflexivity. Qed.

(** A gentle update leaves every other file as it is. *)
Lemma update_other_file q f t t' p m d :
  gentle f -> update q f t = Ok t' -> p <> q ->
  Stat p t = Ok (File m d) -> Stat p t' = Ok (File m d).
Proof.
  intros (G1 & G2 & G3). revert t t' p.
  induction q as [|s q IH]; intros t t' p Hu Hne HS.
  - simpl in Hu. destruct p as [|s' p']; [contradiction|].
    destruct t as [m0 d0|m0 es]; [discriminate|].
    destruct (f (Some (Dir m0 es))) as [r|] eqn:Hf; [|discriminate].
    destruct (G2 _ _ _ Hf) as (m' & ->). injection Hu as <-. exact HS.
  - simpl in Hu. destruct t as [m0 d0|m0 es]; [discriminate|].
    destruct p as [|s' p']; [discriminate|]. simpl in HS.
    destruct (String.eqb s' s) eqn:Es.
    + apply String.eqb_eq in Es. subst s'.
      destruct (find s es) as [c|] eqn:Hc; [|discriminate].
      destruct q as [|s2 q2].
      * destruct (f (Some c)) as [r|] eqn:Hf; [|discriminate].
        simpl in Hu. destruct p' as [|s3 p3]; [contradiction|].
        destruct c as [mc dc|mc ec]; [discriminate|].
        destruct (G2 _ _ _ Hf) as (m' & ->). injection Hu as <-.
        simpl. rewrite find_put_eq. exact HS.
      * destruct (update (s2 :: q2) f c) as [c'|] eqn:Hu'; [|discriminate].
        simpl in Hu. injection Hu as <-. simpl. rewrite find_put_eq.
        apply (IH c c' p' Hu'); [congruence|exact HS].
    + assert (Hf : forall c', Stat (s' :: p') (Dir m0 (put s c' es))
                              = Ok (File m d)).
      { intros c'. simpl. rewrite find_put, Es. exact HS. }
      destruct (find s es) as [c|] eqn:Hc; destruct q as [|s2 q2];
        try discriminate.
      * destruct (f (Some c)) as [r|] eqn:Hfc; [|discriminate].
        destruct c as [mc dc|mc ec].
        -- destruct (G1 _ _ _ Hfc) as (m' & d' & ->).
           injection Hu as <-. apply Hf.
        -- destruct (G2 _ _ _ Hfc) as (m' & ->).
           injection Hu as <-. apply Hf.
      * destruct (update (s2 :: q2) f c) as [c'|]; [|discriminate].
        injection Hu as <-. apply Hf.
      * destruct (f None) as [r|] eqn:Hfc; [|discriminate].
        destruct (G3 _ eq_refl) as (m' & d' & ->).
        injection Hu as <-. apply Hf.
Qed.


(** *** [MkdirAll] *)

Lemma Stat_newDirs umask p perm :
  Stat p (newDirs umask p perm) = Ok (Dir (Z.ldiff perm umask) []).
Proof.
  induction p as [|s p IH]; simpl; [reflexivity|].
  now rewrite eqb_refl_string.
Qed.

(** After a successful [MkdirAll] the path is a directory. *)
Lemma MkdirAll_Stat umask q perm t t' :
  MkdirAll umask q perm t = Ok t' ->
  exists m es, Stat q t' = Ok (Dir m es).
Proof.
  revert t t'. induction q as [|s q IH]; intros t t' H;
    destruct t as [m0 d0|m0 es]; simpl in H; try discriminate.
  - injection H as <-. simpl. eauto.
  - destruct (find s es) as [c|] eqn:Hc.
    + destruct (MkdirAll umask q perm c) as [c'|] eqn:Hm; [|discriminate].
      injection H as <-. simpl. rewrite find_put_eq. eauto.
    + injection H as <-. simpl. rewrite find_put_eq, Stat_newDirs. eauto.
Qed.

(** [MkdirAll] of a directory that exists changes nothing. *)
Lemma MkdirAll_same umask q perm t m es :
  Stat q t = Ok (Dir m es) -> MkdirAll umask q perm t = Ok t.
Proof.
  revert t. induction q as [|s q IH]; intros t H;
    destruct t as [m0 d0|m0 es0]; simpl in *; try discriminate.
  - reflexivity.
  - destruct (find s es0) as [c|] eqn:Hc; [|discriminate].
    rewrite (IH c H). simpl. now rewrite put_same.
Qed.



(** *** [writeFile], [Chmod] and [ReadFile] *)

Lemma writeFile_unfold umask p data perm t :
  writeFile umask p data perm t = update p (writer umask data perm) t.
Proof. reflexivity. Qed.

Lemma Chmod_unfold p mode t : Chmod p mode t = update p (chmodder mode) t.
Proof. reflexivity. Qed.

Lemma gentle_writer umask data perm : gentle (writer umask data perm).
Proof.
  repeat split.
  - intros m d r [= <-]. eauto.
  - intros m es r H. discriminate.
  - intros r [= <-]. eauto.
Qed.


Lemma ReadFile_Ok p t data :
  ReadFile p t = Ok data <-> exists m, Stat p t = Ok (File m data).
Proof.
  unfold ReadFile. destruct (Stat p t) as [[m d|m es]|e]; simpl; split;
    try discriminate; try (intros [m' H]; discriminate).
  - intros [= ->]. eauto.
  - intros [m' [= _ ->]]. reflexivity.
Qed.

(** Writing a file that exists keeps its permission bits, whatever
    [perm] is. *)
Lemma writeFile_existing umask p data perm t m d :
  Stat p t = Ok (File m d) ->
  exists t', writeFile umask p data perm t = Ok t'
             /\ Stat p t' = Ok (File m data).
Proof.
  intros H. rewrite writeFile_unfold.
  apply (update_found p _ t (File m d) (File m data) H). reflexivity.
Qed.

(** After an update that deletes nothing, the path holds what the
    function returned. *)
Lemma update_Stat p f t t' :
  (forall o, f o <> Ok None) -> update p f t = Ok t' ->
  exists o n', f o = Ok (Some n') /\ Stat p t' = Ok n'.
Proof.
  intros Hf. revert t t'. induction p as [|s p IH]; intros t t' Hu;
    simpl in Hu.
  - destruct (f (Some t)) as [[n'|]|e] eqn:E; try discriminate.
    + injection Hu as <-. eauto.
    + now apply Hf in E.
  - destruct t as [m d|m es]; [discriminate|].
    destruct p as [|s' p'].
    + assert (Hu' : bind (f (find s es)) (fun r =>
                match r with
                | Some c' => Ok (Dir m (put s c' es))
                | None => Ok (Dir m (remove s es))
                end) = Ok t') by (destruct (find s es); exact Hu).
      destruct (f (find s es)) as [[c'|]|e] eqn:E; try discriminate.
      * injection Hu' as <-. exists (find s es), c'. split; [exact E|].
        simpl. now rewrite find_put_eq.
      * now apply Hf in E.
    + destruct (find s es) as [c|] eqn:Hc; [|discriminate].
      destruct (update (s' :: p') f c) as [c'|] eqn:Hu'; [|discriminate].
      injection Hu as <-. destruct (IH c c' Hu') as (o & n' & Ho & HS).
      exists o, n'. split; [exact Ho|]. simpl. rewrite find_put_eq.
      exact HS.
Qed.

(** After [writeFile] the path is a file with the content written. *)
Lemma writeFile_Stat umask p data perm t t' :
  writeFile umask p data perm t = Ok t' ->
  exists mode, Stat p t' = Ok (File mode data).
Proof.
  intros H. rewrite writeFile_unfold in H.
  apply update_Stat in H.
  - destruct H as (o & n' & Ho & HS).
    destruct o as [[mo d0|mo es]|]; simpl in Ho; try discriminate;
      injection Ho as <-; eauto.
  - intros [[mo d0|mo es]|]; discriminate.
Qed.

(** After [Chmod] a file has the permission bits given. *)
Lemma Chmod_Stat p mode t t' m d :
  Stat p t = Ok (File m d) -> Chmod p mode t = Ok t' ->
  Stat p t' = Ok (File mode d).
Proof.
  intros HS H. rewrite Chmod_unfold in H.
  destruct (update_found p (chmodder mode) t (File m d) (File mode d) HS
              eq_refl) as (t2 & Hu & HS').
  rewrite H in Hu. now injection Hu as ->.
Qed.

(** Writing to a file what it holds, and setting the permission bits it
    has, change nothing. *)
Lemma writeFile_same umask p data perm t m :
  Stat p t = Ok (File m data) -> writeFile umask p data perm t = Ok t.
Proof.
  intros H. rewrite writeFile_unfold.
  now apply (update_same p _ t (File m data)).
Qed.

Lemma Chmod_same p t m data :
  Stat p t = Ok (File m data) -> Chmod p m t = Ok t.
Proof.
  intros H. rewrite Chmod_unfold.
  now apply (update_same p _ t (File m data)).
Qed.

End os_facts.

(** ** The path filter *)

Module filter_facts.

Import config.

Lemma anyMatch_true (globs : list Glob.Glob) (relPath : string) :
  anyMatch globs relPath = true
  <-> exists g, In g globs /\ Glob.Match g relPath = true.
Proof.
  induction globs as [|g globs IH]; simpl.
  - split; [discriminate|]. intros (g & [] & _).
  - destruct (Glob.Match g relPath) eqn:E.
    + split; [|reflexivity]. intros _. exists g. auto.
    + rewrite IH. split.
      * intros (g' & Hin & Hm). exists g'. auto.
      * intros (g' & [<-|Hin] & Hm); [congruence|]. exists g'. auto.
Qed.

(** The three tests of [shouldInclude], in one equation. *)
Lemma shouldInclude_eq (m : Manager) (relPath : string) :
  shouldInclude m relPath
  = negb (Strings.Contains relPath ".git")
    && negb (anyMatch (ExcludeGlobs m) relPath)
    && (match IncludeGlobs m with
        | [] => true
        | _ => anyMatch (IncludeGlobs m) relPath
        end).
Proof.
  unfold shouldInclude.
  destruct (Strings.Contains relPath ".git"); [reflexivity|].
  destruct (anyMatch (ExcludeGlobs m) relPath); [reflexivity|].
  destruct (IncludeGlobs m) as [|g gs]; [reflexivity|].
  change (0 <? Z.of_nat (length (g :: gs))) with true. cbv iota.
  now destruct (anyMatch (g :: gs) relPath).
Qed.

End filter_facts.

Import config statements filter_facts.

(** C1. For every manager, whatever its compiled include and exclude
    globs, and every relative path: a path that matches at least one
    include pattern and at least one exclude pattern is rejected by
    [shouldInclude]. *)
Theorem shouldInclude_exclude_wins (m : Manager) (relPath : string) :
  (exists g, In g (IncludeGlobs m) /\ Glob.Match g relPath = true) ->
  (exists g, In g (ExcludeGlobs m) /\ Glob.Match g relPath = true) ->
  shouldInclude m relPath = false.
Proof.
  intros _ Hex. apply anyMatch_true in Hex.
  rewrite shouldInclude_eq, Hex.
  now destruct (Strings.Contains relPath ".git").
Qed.

(** The path [i3/session.log] matches the include pattern [i3/**] and the
    exclude pattern [**/*.log], and is rejected. *)
Lemma shouldInclude_exclude_wins_witness :
  shouldInclude (sampleManager ["i3/**"] ["**/*.log"]) "i3/session.log"
  = false.
Proof.
  apply (shouldInclude_exclude_wins
           (sampleManager ["i3/**"] ["**/*.log"]) "i3/session.log").
  - eexists. split; [left; reflexivity|]. vm_compute. reflexivity.
  - eexists. split; [left; reflexivity|]. vm_compute. reflexivity.
Defined.

(** C4 (evaluation). With no include pattern and the single exclude
    pattern [**/*.tmp], the pattern compiles, [notes.txt] is included, and
    so is [scratch.tmp]: the pattern asks for a slash before the file name,
    so it excludes [cache/scratch.tmp] but not a file at the top of the
    tree. *)
Theorem shouldInclude_tmp_scenario :
  let m := sampleManager [] ["**/*.tmp"] in
  length (IncludeGlobs m) = 0%nat
  /\ length (ExcludeGlobs m) = 1%nat
  /\ Glob.parsePattern "**/*.tmp"
     = Some [Glob.Super; Glob.Text "/"; Glob.Any; Glob.Text ".tmp"]
  /\ shouldInclude m "notes.txt" = true
  /\ shouldInclude m "scratch.tmp" = true
  /\ shouldInclude m "cache/scratch.tmp" = false.
Proof. vm_compute. repeat split; reflexivity. Qed.

(** C9 (evaluation). With no include and no exclude pattern, the paths
    [.gitignore] and [my.github/x] match no exclude pattern and none of
    their segments is [.git], so the filter is to accept them; it rejects
    both, as it rejects [.git/config].  The test commented "Skip git
    metadata" looks for the characters [.git] anywhere in the path, not
    for a segment of that name.  A path without these characters, like
    [i3/config], is accepted. *)
Theorem shouldInclude_git_substring :
  let m := sampleManager [] [] in
  IncludeGlobs m = [] /\ ExcludeGlobs m = []
  /\ spec_hasVcsSegment ".gitignore" = false
  /\ shouldInclude m ".gitignore" = false
  /\ spec_hasVcsSegment "my.github/x" = false
  /\ shouldInclude m "my.github/x" = false
  /\ spec_hasVcsSegment ".git/config" = true
  /\ shouldInclude m ".git/config" = false
  /\ spec_hasVcsSegment "i3/config" = false
  /\ shouldInclude m "i3/config" = true.
Proof. vm_compute. repeat split; reflexivity. Qed.

(** ** Conflict resolution *)

Module git_facts.

Import os os_facts statements git.

Section Resolver.

Variable umask : Z.
Context {Index : Type}.
Variable worktreeAdd : string -> node -> Index -> Index + string.
Variable gitCheckout : string -> string -> node -> Index -> node + string.

Local Abbreviation ResolveConflict :=
  (ResolveConflict umask worktreeAdd gitCheckout).
Local Abbreviation ResolveAllConflicts :=
  (ResolveAllConflicts umask worktreeAdd gitCheckout).

(** The [Merge] case of the switch. *)
Lemma ResolveConflict_Merge path (r : repo Index) :
  hasWorktree r = true ->
  ResolveConflict path Merge r
  = let r1 := print (ui.PrintInfo
                       ("Creating merged version of " ++ path)%string) r in
    match ReadFile (filepath.segments path) (files r1) with
    | Fail e =>
        (r1, Some (Errorf "failed to read conflict file" (strerror e)))
    | Ok content =>
        match writeFile umask (filepath.segments path)
                (mergedHeader ++ content)%string 420 (files r1) with
        | Fail e =>
            (r1, Some (Errorf "failed to write merged file" (strerror e)))
        | Ok t => markResolved worktreeAdd path (setFiles t r1)
        end
    end.
Proof. intros H. unfold git.ResolveConflict. rewrite H. reflexivity. Qed.

Lemma markResolved_files path (r : repo Index) :
  files (fst (markResolved worktreeAdd path r)) = files r.
Proof.
  unfold markResolved.
  destruct (worktreeAdd path (files r) (index r)); reflexivity.
Qed.

(** A successful merge-both resolution found a file at the path and
    left there the header followed by what the file held, under the
    permission bits the file had. *)
Lemma ResolveConflict_Merge_inv path (r r' : repo Index) :
  ResolveConflict path Merge r = (r', None) ->
  exists mode c,
    Stat (filepath.segments path) (files r) = Ok (File mode c)
    /\ Stat (filepath.segments path) (files r')
       = Ok (File mode (mergedHeader ++ c)%string).
Proof.
  intros H. destruct (hasWorktree r) eqn:Hw.
  2:{ unfold git.ResolveConflict in H. rewrite Hw in H. discriminate. }
  rewrite (ResolveConflict_Merge path r Hw) in H. cbv zeta in H.
  change (files (print _ r)) with (files r) in H.
  destruct (ReadFile (filepath.segments path) (files r)) as [c|e] eqn:HR;
    [|discriminate].
  apply ReadFile_Ok in HR. destruct HR as [mode HS].
  destruct (writeFile_existing umask _ (mergedHeader ++ c)%string 420
              _ _ _ HS) as (t & Hw' & HS').
  rewrite Hw' in H. exists mode, c. split; [exact HS|].
  pose proof (markResolved_files path (setFiles t (print
    (ui.PrintInfo ("Creating merged version of " ++ path)%string) r)))
    as Hf.
  rewrite H in Hf. simpl in Hf. now rewrite Hf.
Qed.

(** A successful merge-both resolution has staged the path, on the
    working tree it leaves. *)
Lemma ResolveConflict_Merge_staged path (r r' : repo Index) :
  ResolveConflict path Merge r = (r', None) ->
  worktreeAdd path (files r') (index r) = inl (index r').
Proof.
  intros H. destruct (hasWorktree r) eqn:Hw.
  2:{ unfold git.ResolveConflict in H. rewrite Hw in H. discriminate. }
  rewrite (ResolveConflict_Merge path r Hw) in H. cbv zeta in H.
  destruct (ReadFile _ _) as [c|e]; [|discriminate].
  destruct (writeFile _ _ _ _ _) as [t|e]; [|discriminate].
  unfold markResolved in H. cbn [files index setFiles print] in H.
  destruct (worktreeAdd path t (index r)) as [i|err] eqn:Ha;
    [|discriminate].
  injection H as <-. exact Ha.
Qed.

End Resolver.

End git_facts.

Import os statements git git_facts.

(** C6. For every conflicted file content [c]: a resolution of the file
    with the merge-both strategy that returns no error leaves at its
    path a file whose content is the two comment lines of the header
    and an empty line, followed by [c]; so [c], conflict markers
    included, occurs unchanged in the resolved content.  The path has
    then been staged, on the working tree with the resolved content. *)
Theorem merge_both_is_lossless (umask : Z) (Index : Type)
  (worktreeAdd : string -> node -> Index -> Index + string)
  (gitCheckout : string -> string -> node -> Index -> node + string)
  (r r' : repo Index) (path : string) (mode : Z) (c : string) :
  Stat (filepath.segments path) (files r) = Ok (File mode c) ->
  ResolveConflict umask worktreeAdd gitCheckout path Merge r = (r', None) ->
  let resolved :=
    ("# MERGED FILE" ++ lineFeed
     ++ "# Contains both versions due to conflict" ++ lineFeed
     ++ lineFeed ++ c)%string in
  Stat (filepath.segments path) (files r') = Ok (File mode resolved)
  /\ occursIn c resolved
  /\ worktreeAdd path (files r') (index r) = inl (index r').
Proof.
  intros HS H resolved.
  destruct (ResolveConflict_Merge_inv umask worktreeAdd gitCheckout path
              r r' H) as (mode' & c' & HS0 & HS1).
  rewrite HS in HS0. injection HS0 as <- <-.
  split; [exact HS1|]. split.
  - exists ("# MERGED FILE" ++ lineFeed
            ++ "# Contains both versions due to conflict" ++ lineFeed
            ++ lineFeed)%string, ""%string.
    now rewrite string_facts.append_empty_r.
  - exact (ResolveConflict_Merge_staged umask worktreeAdd gitCheckout path
             r r' H).
Qed.

Lemma merge_both_is_lossless_witness :
  let r' := fst (ResolveConflict 18 stagePath noCheckout "picom.conf" Merge
                   conflictedRepo) in
  let resolved :=
    ("# MERGED FILE" ++ lineFeed
     ++ "# Contains both versions due to conflict" ++ lineFeed
     ++ lineFeed ++ "<<<<<<< theirs")%string in
  Stat (filepath.segments "picom.conf") (files r') = Ok (File 420 resolved)
  /\ occursIn "<<<<<<< theirs" resolved
  /\ stagePath "picom.conf" (files r') (index conflictedRepo)
     = inl (index r').
Proof.
  apply (merge_both_is_lossless 18 (list string) stagePath noCheckout
           conflictedRepo _ "picom.conf" 420 "<<<<<<< theirs");
    reflexivity.
Defined.

(** C10 (as stated, refuted). The script [bspwmrc] has permission bits
    0755 before a successful merge-both resolution and still has them
    afterwards: it is not left with 0644. *)
Lemma merge_both_mode_counterexample :
  ~ (forall (umask : Z) (Index : Type)
       (worktreeAdd : string -> node -> Index -> Index + string)
       (gitCheckout : string -> string -> node -> Index -> node + string)
       (r r' : repo Index) (path : string),
        ResolveConflict umask worktreeAdd gitCheckout path Merge r
        = (r', None) ->
        exists data,
          Stat (filepath.segments path) (files r') = Ok (File 420 data)).
Proof.
  intros H.
  destruct (H 18 (list string) stagePath noCheckout conflictedRepo _
              "bspwmrc" eq_refl) as [data Hd].
  vm_compute in Hd. discriminate.
Qed.

(** C10 (amended). Whenever [ResolveConflict] is invoked with the
    merge-both strategy and succeeds, the conflicted file existed and the
    replacement content is written into it under the permission bits it
    had before; the 0644 passed to [os.WriteFile] applies only to a file
    that has to be created, which a file just read never is. *)
Theorem merge_both_keeps_mode (umask : Z) (Index : Type)
  (worktreeAdd : string -> node -> Index -> Index + string)
  (gitCheckout : string -> string -> node -> Index -> node + string)
  (r r' : repo Index) (path : string) :
  ResolveConflict umask worktreeAdd gitCheckout path Merge r = (r', None) ->
  exists mode c,
    Stat (filepath.segments path) (files r) = Ok (File mode c)
    /\ Stat (filepath.segments path) (files r')
       = Ok (File mode (mergedHeader ++ c)%string).
Proof. apply ResolveConflict_Merge_inv. Qed.

Lemma merge_both_keeps_mode_witness :
  exists mode c,
    Stat (filepath.segments "bspwmrc") (files conflictedRepo)
    = Ok (File mode c)
    /\ Stat (filepath.segments "bspwmrc")
         (files (fst (ResolveConflict 18 stagePath noCheckout "bspwmrc"
                        Merge conflictedRepo)))
       = Ok (File mode (mergedHeader ++ c)%string).
Proof.
  apply (merge_both_keeps_mode 18 (list string) stagePath noCheckout
           conflictedRepo _ "bspwmrc").
  reflexivity.
Defined.

(** C7 (as stated, refuted). Two conflicts, the first on a path that is
    not in the working tree.  [ResolveAllConflicts] returns the error of
    the first and leaves [picom.conf] as it was, while attempting every
    path would have merged it. *)
Lemma ResolveAllConflicts_counterexample :
  ~ (forall (umask : Z) (Index : Type)
       (worktreeAdd : string -> node -> Index -> Index + string)
       (gitCheckout : string -> string -> node -> Index -> node + string)
       (conflicts : list ConflictFile) (strategy : ResolutionStrategy)
       (r : repo Index),
        files (fst (ResolveAllConflicts umask worktreeAdd gitCheckout
                      conflicts strategy r))
        = files (fst (spec_resolveEach umask worktreeAdd gitCheckout
                        conflicts strategy r))).
Proof.
  intros H.
  specialize (H 18 (list string) stagePath noCheckout
                [conflict "sxhkdrc"; conflict "picom.conf"] Merge
                conflictedRepo).
  vm_compute in H. discriminate.
Qed.

(** C7 (amended). For every list of conflicts and every strategy: when
    the paths before one resolve and that one fails, [ResolveAllConflicts]
    stops there.  It returns that one error, wrapped with the path, and
    the repository as the failing call left it; the paths after it are
    not attempted, whatever they are. *)
Theorem ResolveAllConflicts_stops_at_first_failure (umask : Z) (Index : Type)
  (worktreeAdd : string -> node -> Index -> Index + string)
  (gitCheckout : string -> string -> node -> Index -> node + string)
  (before after : list ConflictFile) (failing : ConflictFile)
  (strategy : ResolutionStrategy) (r r1 r2 : repo Index) (err : string) :
  ResolveAllConflicts umask worktreeAdd gitCheckout before strategy r
  = (r1, None) ->
  ResolveConflict umask worktreeAdd gitCheckout (Path failing) strategy r1
  = (r2, Some err) ->
  ResolveAllConflicts umask worktreeAdd gitCheckout
    (before ++ failing :: after) strategy r
  = (r2, Some (Errorf ("failed to resolve conflict for " ++ Path failing)
                      err)).
Proof.
  revert r. induction before as [|c before IH]; intros r Hb Hf; simpl in *.
  - injection Hb as ->. now rewrite Hf.
  - destruct (ResolveConflict umask worktreeAdd gitCheckout (Path c)
                strategy r) as [r0 [e|]]; [discriminate|].
    now apply IH.
Qed.

Lemma ResolveAllConflicts_stops_at_first_failure_witness :
  ResolveAllConflicts 18 stagePath noCheckout
    ([conflict "bspwmrc"] ++ conflict "sxhkdrc" :: [conflict "picom.conf"])
    Merge conflictedRepo
  = (print (ui.PrintInfo "Creating merged version of sxhkdrc")
       (fst (ResolveConflict 18 stagePath noCheckout "bspwmrc" Merge
               conflictedRepo)),
     Some (Errorf ("failed to resolve conflict for "
                   ++ Path (conflict "sxhkdrc"))
                  "failed to read conflict file: no such file or directory")).
Proof.
  apply (ResolveAllConflicts_stops_at_first_failure 18 (list string)
           stagePath noCheckout [conflict "bspwmrc"] [conflict "picom.conf"]
           (conflict "sxhkdrc") Merge conflictedRepo
           (fst (ResolveConflict 18 stagePath noCheckout "bspwmrc" Merge
                   conflictedRepo))).
  - reflexivity.
  - reflexivity.
Defined.

(** ** Reconciling a batch *)

Module sync_facts.

Import os os_facts statements config.

(** A changed path that is a directory in the source tree is never
    classified: when [MkdirAll] succeeds the directory exists, so the
    test that follows it never finds it missing. *)
Lemma syncOne_directory_unclassified umask src relPath c info :
  Stat (filepath.segments relPath) src = Ok info ->
  IsDir info = true ->
  fileChanges (syncOne umask src relPath c) = fileChanges c
  /\ fileChangeSummary (syncOne umask src relPath c) = fileChangeSummary c.
Proof.
  intros HS Hd. unfold syncOne. rewrite HS, Hd.
  destruct (MkdirAll umask (filepath.segments relPath) (Mode info) (tree c))
    as [t|e] eqn:Hm; [|split; reflexivity].
  destruct (MkdirAll_Stat _ _ _ _ _ Hm) as (m' & es & Hst).
  rewrite Hst. split; reflexivity.
Qed.

End sync_facts.

Import os statements config.

(** C3 (evaluation). The directory [polybar] is new in the source tree and
    missing from the repo tree.  [syncChangedFiles] on the batch holding
    it creates the directory in the repo with the permission bits of the
    source, and classifies nothing: no path is recorded as added, and the
    commit message is the one for a batch without classified paths. *)
Theorem syncChangedFiles_new_directory :
  let m := sampleManager [] [] in
  let c := syncChangedFiles 18 m map_to_list (fun _ t => (t, None))
             sourceWithNewDir ["polybar"] repoBeforeNewDir in
  Stat ["polybar"] repoBeforeNewDir = Fail ENOENT
  /\ Stat ["polybar"] (tree c) = Ok (Dir 493 [])
  /\ fileChanges c !! "added" = None
  /\ fileChanges c = ∅
  /\ buildCommitMessage (map_to_list (fileChangeSummary c)) 1
     = "Updated configuration files: 1 files changed".
Proof. vm_compute. repeat split; reflexivity. Qed.

(** C8 (evaluation). Three files are added, [a, b], [c] and [d, e].  The
    change summary holds the three paths under "added", but the commit
    message counts five: the paths are joined with a comma and a space
    and split again at every comma and space, so it lists [a], [b] and
    [c] and adds " and 2 more". *)
Theorem buildCommitMessage_comma_in_path :
  let c := syncLoop 18 sourceWithCommaNames ["a, b"; "c"; "d, e"]
             (Dir 493 []) in
  fileChanges c !! "added" = Some ["a, b"; "c"; "d, e"]
  /\ map_to_list (fileChangeSummary c) = [("added", "a, b, c, d, e, ")]
  /\ buildCommitMessage (map_to_list (fileChangeSummary c)) 3
     = "Configuration update: added: a, b, c and 2 more".
Proof. vm_compute. repeat split; reflexivity. Qed.

(** ** The watcher loop *)

Module watcher_facts.

Import statements config.

Section Watcher.

Variable Rel : string -> string -> option string.
Context {World : Type}.
Variable sync : gmap string bool -> World -> World.
Variable m : Manager.

(** The path the burst is on: in scope, at [relPath] below ConfigDir. *)
Variables name relPath : string.
Hypothesis Hrel : Rel (ConfigDir m) name = Some relPath.
Hypothesis Hscope : shouldInclude m relPath = true.

(** An entry of a map is listed once. *)
Lemma listed_once {A : Type} (pending : gmap string A) (k : string) (v : A) :
  pending !! k = Some v ->
  count_occ string_dec (map_to_list pending).*1 k = 1%nat.
Proof.
  intros H.
  apply (proj1 (NoDup_count_occ' string_dec _)).
  - apply NoDup_ListNoDup, NoDup_fst_map_to_list.
  - apply list_elem_of_In, list_elem_of_fmap. exists (k, v).
    split; [reflexivity|]. now apply elem_of_map_to_list.
Qed.

(** One turn on an event: the pending entry of [name] is the time of the
    event when it is a qualifying event on [name], and what it was
    otherwise. *)
Lemma turn_event (st : loopState) n op now isDir :
  exists st',
    turn Rel sync m st (Event n op now isDir) = Some st'
    /\ debounceEvents st' !! name
       = if String.eqb n name && qualifies op then Some now
         else debounceEvents st !! name.
Proof.
  unfold turn. destruct (String.eqb n name) eqn:En.
  - apply String.eqb_eq in En. subst n. rewrite Hrel, Hscope. simpl negb.
    cbv iota. fold (qualifies op). destruct (qualifies op); simpl.
    + eexists. split; [reflexivity|]. simpl. apply lookup_insert_eq.
    + eexists. split; reflexivity.
  - apply String.eqb_neq in En. simpl.
    destruct (Rel (ConfigDir m) n) as [r|]; [|eexists; split; reflexivity].
    destruct (negb (shouldInclude m r)); [eexists; split; reflexivity|].
    fold (qualifies op). destruct (qualifies op).
    + eexists. split; [reflexivity|]. simpl. now apply lookup_insert_ne.
    + eexists. split; reflexivity.
Qed.

(** A turn on an event hands over no batch. *)
Lemma turn_event_world (st st' : loopState) n op now isDir :
  turn Rel sync m st (Event n op now isDir) = Some st' ->
  world st' = world st.
Proof.
  unfold turn. destruct (Rel (ConfigDir m) n) as [r|]; [|now intros [= <-]].
  destruct (negb (shouldInclude m r)); [now intros [= <-]|].
  destruct (negb _); now intros [= <-].
Qed.

(** The test of the tick, in numbers: an entry is due when it is older
    than the quiet window. *)
Lemma due_spec now t : due now t = true <-> quietWindow < now - t.
Proof. unfold due, Second, quietWindow. apply Z.ltb_lt. Qed.

Lemma not_due_spec now t : due now t = false <-> now - t <= quietWindow.
Proof. unfold due, Second, quietWindow. apply Z.ltb_ge. Qed.

(** A tick that finds the entry of [name] not yet due keeps it. *)
Lemma turn_tick_keeps (st : loopState) now t :
  debounceEvents st !! name = Some t -> due now t = false ->
  exists st',
    turn Rel sync m st (Tick now) = Some st'
    /\ debounceEvents st' !! name = Some t.
Proof.
  intros Hp Hd. eexists. split; [reflexivity|]. simpl.
  unfold stillPending. apply map_lookup_filter_Some. split; assumption.
Qed.

Lemma loopFrom_cons (st : loopState) r rs :
  loopFrom Rel sync m st (r :: rs)
  = match turn Rel sync m st r with
    | None => st
    | Some st' => loopFrom Rel sync m st' rs
    end.
Proof. reflexivity. Qed.

(** The batch of a tick holds [relPath] only for a pending entry that is
    due and lies at [relPath]. *)
Lemma filesToSync_without (pending : gmap string Z) now :
  (forall other t, pending !! other = Some t -> due now t = true ->
                   Rel (ConfigDir m) other <> Some relPath) ->
  filesToSync Rel m now pending !! relPath = None.
Proof.
  intros H. unfold filesToSync. apply not_elem_of_list_to_map_1.
  intros Hin. apply list_elem_of_fmap in Hin.
  destruct Hin as ([r v] & Hr & Hin). simpl in Hr. subst r.
  apply list_elem_of_omap in Hin. destruct Hin as ([k t] & Hk & Hf).
  apply elem_of_map_to_list in Hk.
  destruct (due now t) eqn:Hd; [|discriminate].
  destruct (Rel (ConfigDir m) k) as [r|] eqn:Hr; [|discriminate].
  injection Hf as -> _. exact (H k t Hk Hd Hr).
Qed.

(** The batch of a tick that finds the entry of [name] due holds
    [relPath]. *)
Lemma filesToSync_due (pending : gmap string Z) now t :
  pending !! name = Some t -> due now t = true ->
  filesToSync Rel m now pending !! relPath = Some true.
Proof.
  intros Hp Hd. unfold filesToSync.
  apply elem_of_list_to_map_1'.
  - intros y Hy. apply list_elem_of_omap in Hy.
    destruct Hy as ([k v] & _ & Hf).
    destruct (due now v); [|discriminate].
    destruct (Rel (ConfigDir m) k); [|discriminate].
    now injection Hf as _ <-.
  - apply list_elem_of_omap. exists (name, t). split.
    + now apply elem_of_map_to_list.
    + now rewrite Hd, Hrel.
Qed.

End Watcher.

(** *** A burst, with the batches kept *)

Section Burst.

Variable Rel : string -> string -> option string.
Variable m : Manager.
Variables name relPath : string.
Hypothesis Hrel : Rel (ConfigDir m) name = Some relPath.
Hypothesis Honly :
  forall other, Rel (ConfigDir m) other = Some relPath -> other = name.
Hypothesis Hscope : shouldInclude m relPath = true.

(** Through what arrives within the quiet window after a qualifying
    event on [name], the pending entry of [name] is the time of the last
    qualifying event on it, and no batch that is handed over holds
    [relPath]. *)
Lemma burst_quiet (rs : list received) :
  forall (st : loopState) (t : Z),
    debounceEvents st !! name = Some t ->
    withinQuietWindow name t rs ->
    debounceEvents (loopFrom Rel keepBatch m st rs) !! name
    = Some (lastEvent name t rs)
    /\ exists during,
         world (loopFrom Rel keepBatch m st rs) = world st ++ during
         /\ Forall (fun batch : gmap string bool =>
                      batch !! relPath = None) during.
Proof.
  induction rs as [|r rs IH]; intros st t Hp Hq.
  - split; [exact Hp|]. exists []. split; [now rewrite app_nil_r|constructor].
  - destruct r as [n op now isDir| |err| |now]; simpl in Hq;
      try contradiction.
    + destruct (turn_event Rel keepBatch m name relPath Hrel Hscope st n op
                  now isDir) as (st' & Hturn & Hp').
      rewrite loopFrom_cons, Hturn.
      rewrite <- (turn_event_world Rel keepBatch m st st' _ _ _ _ Hturn).
      apply IH; [|exact Hq]. rewrite Hp'.
      now destruct (String.eqb n name && qualifies op).
    + rewrite loopFrom_cons. cbn [turn].
      exact (IH {| debounceEvents := debounceEvents st;
                   watching := watching st;
                   printed := printed st
                              ++ [ui.PrintError ("Watcher error: " ++ err)];
                   world := world st |} t Hp Hq).
    + destruct Hq as [Hd Hq]. apply not_due_spec in Hd.
      destruct (turn_tick_keeps Rel keepBatch m name st now t Hp Hd)
        as (st' & Hturn & Hp').
      rewrite loopFrom_cons, Hturn.
      destruct (IH st' t Hp' Hq) as (Hlast & during & Hw & Hall).
      split; [exact Hlast|].
      injection Hturn as <-. cbn [world] in Hw.
      assert (Hb : filesToSync Rel m now (debounceEvents st) !! relPath
                   = None).
      { apply filesToSync_without. intros other t' Ho Hd' Hr.
        apply Honly in Hr. subst other. congruence. }
      destruct (0 <? Z.of_nat (size (filesToSync Rel m now
                                       (debounceEvents st)))).
      * exists (filesToSync Rel m now (debounceEvents st) :: during).
        split; [|now constructor].
        rewrite Hw. unfold keepBatch. now rewrite <- app_assoc.
      * exists during. split; assumption.
Qed.

End Burst.

(** [relUnder] gives a relative path to one name only. *)
Lemma prefix_drop (p : string) :
  forall s, String.prefix p s = true ->
            s = (p ++ Strings.drop (String.length p) s)%string.
Proof.
  induction p as [|a p IH]; intros s H; [reflexivity|].
  destruct s as [|b s]; [discriminate|]. simpl in H.
  destruct (ascii_dec a b) as [<-|]; [|discriminate].
  rewrite string_facts.append_cons. cbn [String.length Strings.drop].
  f_equal. now apply IH.
Qed.

Lemma relUnder_only (base name other relPath : string) :
  relUnder base name = Some relPath ->
  relUnder base other = Some relPath -> other = name.
Proof.
  unfold relUnder, Glob.stripPrefix.
  destruct (String.prefix (base ++ "/") name) eqn:H1; [|discriminate].
  destruct (String.prefix (base ++ "/") other) eqn:H2; [|discriminate].
  intros [= E1] [= E2].
  rewrite (prefix_drop _ _ H1), (prefix_drop _ _ H2). congruence.
Qed.

End watcher_facts.

Import statements config watcher_facts.

(** C5. For every burst of qualifying raw events (write, create, remove,
    rename) on the same in-scope path, the only name at its relative
    path, whatever else the loop receives meanwhile and whatever state it
    was in before: when every tick of the burst comes no later than one
    second after the last event on the path before it, no batch handed
    over during the burst holds the path, and at its end the pending
    change set holds exactly one entry for the path, with the time of the
    last event.  The tick that then finds this entry more than one second
    old hands over a batch that holds exactly one entry for the path, and
    clears the pending entry. *)
Theorem debounce_coalesces_burst (Rel : string -> string -> option string)
  (m : Manager) (name relPath : string)
  (st0 : @loopState (list (gmap string bool)))
  (op0 t0 : Z) (isDir0 : bool) (rs : list received) (now : Z) :
  Rel (ConfigDir m) name = Some relPath ->
  (forall other, Rel (ConfigDir m) other = Some relPath -> other = name) ->
  shouldInclude m relPath = true ->
  qualifies op0 = true ->
  withinQuietWindow name t0 rs ->
  let t := lastEvent name t0 rs in
  1000000000 < now - t ->
  let st := loopFrom Rel keepBatch m st0 (Event name op0 t0 isDir0 :: rs) in
  (exists during,
     world st = world st0 ++ during
     /\ Forall (fun batch : gmap string bool => batch !! relPath = None)
               during)
  /\ debounceEvents st !! name = Some t
  /\ count_occ string_dec (map_to_list (debounceEvents st)).*1 name = 1%nat
  /\ exists st' batch,
       turn Rel keepBatch m st (Tick now) = Some st'
       /\ world st' = world st ++ [batch]
       /\ batch !! relPath = Some true
       /\ count_occ string_dec (map_to_list batch).*1 relPath = 1%nat
       /\ debounceEvents st' !! name = None.
Proof.
  intros Hrel Honly Hscope Hop Hq t Hold st.
  destruct (turn_event Rel keepBatch m name relPath Hrel Hscope st0 name
              op0 t0 isDir0) as (st1 & Hturn & Hp1).
  rewrite String.eqb_refl, Hop in Hp1. simpl in Hp1.
  pose proof (turn_event_world Rel keepBatch m st0 st1 _ _ _ _ Hturn) as Hw1.
  assert (Hst : st = loopFrom Rel keepBatch m st1 rs).
  { unfold st. now rewrite loopFrom_cons, Hturn. }
  destruct (burst_quiet Rel m name relPath Hrel Honly Hscope rs st1 t0 Hp1
              Hq) as (Hp & during & Hw & Hall).
  rewrite <- Hst, Hw1 in Hw. rewrite <- Hst in Hp. fold t in Hp.
  assert (Hdue : due now t = true) by now apply due_spec.
  pose (batch := filesToSync Rel m now (debounceEvents st)).
  assert (Hb : batch !! relPath = Some true).
  { now apply (filesToSync_due Rel m name relPath Hrel _ now t). }
  split; [now exists during|].
  split; [exact Hp|]. split; [now apply (listed_once _ name t)|].
  eexists. exists batch. split; [reflexivity|]. cbn [world debounceEvents].
  split; [|split; [exact Hb|split; [now apply (listed_once _ relPath true)|]]].
  - fold batch. destruct (0 <? Z.of_nat (size batch)) eqn:Hsz; [reflexivity|].
    exfalso. apply Z.ltb_ge in Hsz.
    assert (size batch = 0%nat) as Hz by lia.
    apply map_size_empty_iff in Hz. rewrite Hz in Hb.
    now rewrite lookup_empty in Hb.
  - unfold stillPending. apply map_lookup_filter_None. right.
    intros t' Ht'. rewrite Hp in Ht'. injection Ht' as <-. simpl.
    now rewrite Hdue.
Qed.

(** Two writes to [polybar/config.ini] 200 ms apart, a write to another
    file and a tick between them, and a tick one second and a half after
    the second: the tick in between hands over nothing for the path, one
    entry is pending, and the later tick hands over one entry. *)
Lemma debounce_coalesces_burst_witness :
  let m := sampleManager [] [] in
  let name := "/home/username/.config/polybar/config.ini" in
  let rs := [Event "/home/username/.config/i3/config" fsnotify.Write
               3000000000 false;
             Tick 5100000000;
             Event name fsnotify.Write 5200000000 false] in
  let st0 := {| debounceEvents := ∅; watching := []; printed := [];
                world := [] |} in
  let st := loopFrom relUnder keepBatch m st0
              (Event name fsnotify.Write 5000000000 false :: rs) in
  (exists during,
     world st = world st0 ++ during
     /\ Forall (fun batch : gmap string bool =>
                  batch !! "polybar/config.ini" = None) during)
  /\ debounceEvents st !! name = Some 5200000000
  /\ count_occ string_dec (map_to_list (debounceEvents st)).*1 name = 1%nat
  /\ exists st' batch,
       turn relUnder keepBatch m st (Tick 6700000000) = Some st'
       /\ world st' = world st ++ [batch]
       /\ batch !! "polybar/config.ini" = Some true
       /\ count_occ string_dec (map_to_list batch).*1 "polybar/config.ini"
          = 1%nat
       /\ debounceEvents st' !! name = None.
Proof.
  apply (debounce_coalesces_burst relUnder (sampleManager [] [])
           "/home/username/.config/polybar/config.ini" "polybar/config.ini"
           {| debounceEvents := ∅; watching := []; printed := [];
              world := [] |}
           fsnotify.Write 5000000000 false
           [Event "/home/username/.config/i3/config" fsnotify.Write
              3000000000 false;
            Tick 5100000000;
            Event "/home/username/.config/polybar/config.ini"
              fsnotify.Write 5200000000 false]
           6700000000).
  - reflexivity.
  - intros other. now apply relUnder_only.
  - reflexivity.
  - reflexivity.
  - vm_compute. split; [discriminate|exact I].
  - vm_compute. reflexivity.
Defined.

(** ** The initial sync *)

Module initial_facts.

Import os os_facts statements config.

(** Induction on a tree, with the hypothesis on every entry of a
    directory. *)
Lemma node_induction (P : node -> Prop) :
  (forall m d, P (File m d)) ->
  (forall m es, allEntries P es -> P (Dir m es)) ->
  forall t, P t.
Proof.
  intros HF HD. fix IH 1. intros [m d|m es].
  - apply HF.
  - apply HD. induction es as [|[name c] es IHes]; simpl.
    + exact I.
    + split; [apply IH|exact IHes].
Qed.

Section Run.

Variable umask : Z.
Variable m : Manager.

Lemma mirrorAll_app es1 es2 st :
  mirrorAll umask m (es1 ++ es2) st
  = match mirrorAll umask m es1 st with
    | (st', None) => mirrorAll umask m es2 st'
    | (st', Some err) => (st', Some err)
    end.
Proof.
  revert st. induction es1 as [|[rel info] es1 IH]; intros st; simpl.
  - reflexivity.
  - destruct (mirrorEntry umask m rel info st) as [st' [err|]];
      [reflexivity|apply IH].
Qed.

(** The walk mirrors the entries in scope, one after the other. *)
Lemma walk_mirrorAll (info : node) :
  forall rel st,
    Walk.walk (initialVisit umask m) rel info st
    = walked (skipped m rel info)
        (mirrorAll umask m (inScope m rel info) st).
Proof.
  induction info as [mode data|mode es IH] using node_induction;
    intros rel st.
  - simpl. unfold initialVisit, skipped. simpl.
    destruct (String.eqb (filepath.render rel) "."); [reflexivity|].
    destruct (shouldInclude m (filepath.render rel)); [|reflexivity].
    simpl. destruct (mirrorEntry umask m rel (File mode data) st)
      as [st' [err|]]; reflexivity.
  - assert (Hnames : forall st,
      Walk.walkNames (Walk.walk (initialVisit umask m)) rel es st
      = walked false
          (mirrorAll umask m (inScopeBelow (inScope m) rel es) st)).
    { clear st. induction es as [|[name c] es IHes]; intros st.
      - reflexivity.
      - destruct IH as [IHc IH]. specialize (IHes IH).
        simpl. rewrite IHc, mirrorAll_app.
        destruct (mirrorAll umask m (inScope m (rel ++ [name]) c) st)
          as [st' [err|]]; simpl.
        + now rewrite andb_false_r.
        + unfold skipped. destruct (IsDir c); simpl; [|apply IHes].
          destruct (negb _ && negb _); apply IHes. }
    simpl. unfold initialVisit, skipped. simpl.
    destruct (String.eqb (filepath.render rel) "."); simpl.
    + rewrite Hnames. now destruct (mirrorAll _ _ _ _) as [st' [err|]].
    + destruct (shouldInclude m (filepath.render rel)); simpl;
        [|reflexivity].
      destruct (mirrorEntry umask m rel (Dir mode es) st) as [st' [err|]];
        [reflexivity|].
      rewrite Hnames. now destruct (mirrorAll _ _ _ _) as [st'' [err|]].
Qed.

(** [filepath.Walk] from the root of the source tree. *)
Lemma Walk_mirrorAll (src : node) st :
  Walk.Walk (initialVisit umask m) src st
  = mirrorAll umask m (inScope m [] src) st.
Proof.
  unfold Walk.Walk. rewrite walk_mirrorAll.
  assert (skipped m [] src = false) as ->.
  { unfold skipped. simpl. now rewrite andb_false_r. }
  now destruct (mirrorAll _ _ _ _) as [st' [err|]].
Qed.

(** *** The entries in scope *)

(** The entries in scope below a directory are below one of its
    entries. *)
Lemma inScopeBelow_elem (f : path -> node -> list (path * node)) rel es e :
  e ∈ inScopeBelow f rel es ->
  exists name c, (name, c) ∈ es /\ e ∈ f (rel ++ [name]) c.
Proof.
  induction es as [|[name c] es IH]; simpl.
  - intros H. now apply elem_of_nil in H.
  - intros H. apply elem_of_app in H. destruct H as [H|H].
    + exists name, c. split; [apply list_elem_of_here|exact H].
    + destruct (IH H) as (name' & c' & Hin & He).
      exists name', c'. split; [now apply list_elem_of_further|exact He].
Qed.

Lemma allEntries_elem (P : node -> Prop) es name c :
  allEntries P es -> (name, c) ∈ es -> P c.
Proof.
  induction es as [|[name' c'] es IH]; simpl; intros Hall Hin.
  - now apply elem_of_nil in Hin.
  - apply elem_of_cons in Hin. destruct Hall as [Hc Hall].
    destruct Hin as [[= -> ->]|Hin]; [exact Hc|now apply IH].
Qed.

(** An entry in scope lies at or below where the walk started, and is
    not the root. *)
Lemma inScope_elem (info : node) :
  forall rel e,
    e ∈ inScope m rel info ->
    (exists q, e.1 = rel ++ q)
    /\ String.eqb (filepath.render e.1) "." = false.
Proof.
  induction info as [mode data|mode es IH] using node_induction;
    intros rel e He.
  - simpl in He.
    destruct (String.eqb (filepath.render rel) ".") eqn:Er;
      [now apply elem_of_nil in He|].
    destruct (negb (shouldInclude m (filepath.render rel)));
      [now apply elem_of_nil in He|].
    apply list_elem_of_singleton in He. subst e. simpl. split; [|exact Er].
    exists []. now rewrite app_nil_r.
  - assert (Hbelow : e ∈ inScopeBelow (inScope m) rel es ->
              (exists q, e.1 = rel ++ q)
              /\ String.eqb (filepath.render e.1) "." = false).
    { intros H. apply inScopeBelow_elem in H.
      destruct H as (name & c & Hin & Hc).
      destruct (allEntries_elem _ _ _ _ IH Hin _ _ Hc) as [[q Hq] Hr].
      split; [|exact Hr]. exists (name :: q).
      now rewrite Hq, <- app_assoc. }
    simpl in He.
    destruct (String.eqb (filepath.render rel) ".") eqn:Er; [auto|].
    destruct (negb (shouldInclude m (filepath.render rel)));
      [now apply elem_of_nil in He|].
    apply elem_of_cons in He. destruct He as [->|He]; [|auto].
    simpl. split; [|exact Er]. exists []. now rewrite app_nil_r.
Qed.

Lemma inScope_not_root info rel e : e ∈ inScope m rel info -> e.1 <> [].
Proof.
  intros H. apply inScope_elem in H. destruct H as [_ H].
  intros Heq. rewrite Heq in H. discriminate.
Qed.


(** *** Mirroring one entry *)

(** [copyFile] without error leaves the file with the content and the
    permission bits of the source. *)
Lemma copyFile_Stat info rel t t' :
  copyFile umask info rel t = (t', None) ->
  exists mode data, info = File mode data
                    /\ Stat rel t' = Ok (File mode data).
Proof.
  unfold copyFile. destruct info as [mode data|mode es]; [|discriminate].
  destruct (writeFile umask rel data 438 t) as [t1|e] eqn:Hw; [|discriminate].
  destruct (Chmod rel mode t1) as [t2|e] eqn:Hc; [|discriminate].
  intros [= <-]. exists mode, data. split; [reflexivity|].
  destruct (writeFile_Stat _ _ _ _ _ _ Hw) as [m0 HS].
  exact (Chmod_Stat _ _ _ _ _ _ HS Hc).
Qed.





(** Mirroring an entry that is settled: a directory is passed over, a
    file is copied again, counted and reported, and the tree stays as it
    is. *)
Lemma mirrorEntry_settled rel info st :
  rel <> [] -> settled (mirror st) (rel, info) ->
  mirrorEntry umask m rel info st
  = ({| mirror := mirror st;
        fileCount := fileCount st
                     + Z.of_nat (length (filesOf [(rel, info)]));
        dirCount := dirCount st;
        out := out st ++ fileLines (Verbose m) (fileCount st)
                           (filesOf [(rel, info)]) |}, None).
Proof.
  intros Hrel. unfold settled, mirrorEntry. simpl.
  destruct info as [mode data|mode es]; simpl; intros H.
  - destruct (removelast_snoc rel Hrel) as [s Hs].
    assert (Hp : exists mo es, Stat (removelast rel) (mirror st)
                               = Ok (Dir mo es)).
    { rewrite Hs in H. now apply Stat_parent_dir in H. }
    destruct Hp as (mo & es & Hp). unfold filepath.Dir.
    rewrite (MkdirAll_same umask _ 493 _ _ _ Hp).
    unfold copyFile.
    rewrite (writeFile_same umask _ _ 438 _ _ H), (Chmod_same _ _ _ _ H).
    now rewrite app_nil_r.
  - rewrite H. destruct st; simpl. now rewrite Z.add_0_r, app_nil_r.
Qed.

(** Mirroring a file without error counts it; a directory is not counted
    as a file. *)
Lemma mirrorEntry_fileCount rel info st st' :
  mirrorEntry umask m rel info st = (st', None) ->
  fileCount st'
  = fileCount st + Z.of_nat (length (filesOf [(rel, info)])).
Proof.
  unfold mirrorEntry. destruct info as [mode data|mode es]; simpl.
  - destruct (MkdirAll umask (filepath.Dir rel) 493 (mirror st))
      as [t1|err]; [|discriminate].
    destruct (writeFile umask rel data 438 t1) as [t2|err]; [|discriminate].
    destruct (Chmod rel mode t2) as [t3|err]; [|discriminate].
    now intros [= <-].
  - destruct (IsNotExist (Stat rel (mirror st))).
    + destruct (MkdirAll umask rel mode (mirror st)) as [t|err];
        [|discriminate].
      intros [= <-]. simpl. lia.
    + intros [= <-]. lia.
Qed.

(** *** Mirroring all entries *)



Lemma filesOf_cons e es : filesOf (e :: es) = filesOf [e] ++ filesOf es.
Proof. destruct e as [rel [mode data|mode es']]; reflexivity. Qed.

Lemma fileLines_app verbose n ps qs :
  fileLines verbose n (ps ++ qs)
  = fileLines verbose n ps
    ++ fileLines verbose (n + Z.of_nat (length ps)) qs.
Proof.
  revert n. induction ps as [|p ps IH]; intros n; simpl fileLines.
  - simpl. now rewrite Z.add_0_r.
  - rewrite IH, <- app_assoc.
    replace (n + Z.of_nat (S (length ps)))
      with (n + 1 + Z.of_nat (length ps)) by lia.
    reflexivity.
Qed.

(** A run over entries that are all settled changes nothing in the tree
    and creates no directory; it copies, counts and reports every
    file. *)
Lemma mirrorAll_settled es :
  forall st,
    (forall e, e ∈ es -> e.1 <> []) ->
    Forall (settled (mirror st)) es ->
    mirrorAll umask m es st
    = ({| mirror := mirror st;
          fileCount := fileCount st + Z.of_nat (length (filesOf es));
          dirCount := dirCount st;
          out := out st ++ fileLines (Verbose m) (fileCount st)
                             (filesOf es) |}, None).
Proof.
  induction es as [|[rel info] es IH]; intros st Hroot Hall.
  - destruct st; simpl. now rewrite Z.add_0_r, app_nil_r.
  - apply Forall_cons in Hall. destruct Hall as [He Hall].
    simpl mirrorAll.
    rewrite (mirrorEntry_settled rel info st); [|
      apply (Hroot (rel, info)), list_elem_of_here|exact He].
    rewrite IH; [|intros e Hin; apply Hroot; now apply list_elem_of_further|
                  exact Hall].
    rewrite (filesOf_cons (rel, info) es), fileLines_app, length_app.
    simpl mirror. simpl fileCount. simpl dirCount. simpl out.
    rewrite <- app_assoc, Nat2Z.inj_add, Z.add_assoc. reflexivity.
Qed.

Lemma mirrorAll_fileCount es :
  forall st st',
    mirrorAll umask m es st = (st', None) ->
    fileCount st' = fileCount st + Z.of_nat (length (filesOf es)).
Proof.
  induction es as [|[rel info] es IH]; intros st st'; simpl mirrorAll.
  - intros [= <-]. simpl. lia.
  - destruct (mirrorEntry umask m rel info st) as [st1 [err|]] eqn:He;
      [discriminate|].
    intros Hall. rewrite (IH _ _ Hall), (mirrorEntry_fileCount _ _ _ _ He).
    rewrite (filesOf_cons (rel, info) es), length_app. lia.
Qed.

End Run.

End initial_facts.

Import os statements config initial_facts.

(** C2 (as stated, refuted). The source tree holds two files in scope.
    The first [InitialSync] succeeds, with a remote that brings nothing
    new; the second, right after it and on the same source tree, reports
    both files as added again. *)
Lemma InitialSync_twice_counterexample :
  ~ (forall (umask : Z) (m : Manager)
       (sync1 sync2 : string -> node -> node * option string) (src : node)
       (repo : option node) (st1 st2 : syncState) (err : option string),
        InitialSync umask m sync1 src repo = (st1, None) ->
        InitialSync umask m sync2 src (Some (mirror st1)) = (st2, err) ->
        reportedChanges (out st2) = []).
Proof.
  intros H.
  pose (m := sampleManager [] ["**/*.log"]).
  pose (upToDate := fun (_ : string) (t : node) => (t, @None string)).
  pose (run1 := InitialSync 18 m upToDate sampleSource None).
  pose (run2 := InitialSync 18 m upToDate sampleSource
                  (Some (mirror (fst run1)))).
  assert (H1 : run1 = (fst run1, None)) by (vm_compute; reflexivity).
  assert (H2 : run2 = (fst run2, snd run2)) by (vm_compute; reflexivity).
  assert (Hr : reportedChanges (out (fst run2)) <> [])
    by (vm_compute; discriminate).
  exact (Hr (H 18 m upToDate upToDate sampleSource None
               (fst run1) (fst run2) (snd run2) H1 H2)).
Qed.

(** C2 (amended). A second [InitialSync] right after a successful first
    one, with no change to the source tree: when the sync of the first
    run with the remote has left in the repo tree what the walk had
    mirrored there, and the second run returns no error, the second run
    creates, counts and reports no directory and hands to the sync with
    the remote the repo tree as it found it; but it copies every file in
    scope again, and counts and reports each of them as added, as the
    first run did (a line for each of the first ten files, and one line
    for the others).  So its summary is empty only when no file is in
    scope. *)
Theorem InitialSync_second_run (umask : Z) (m : Manager)
  (sync1 sync2 : string -> node -> node * option string) (src : node)
  (repo : option node) (st1 st2 : syncState) :
  InitialSync umask m sync1 src repo = (st1, None) ->
  Forall (settled (mirror st1)) (inScope m [] src) ->
  InitialSync umask m sync2 src (Some (mirror st1)) = (st2, None) ->
  let files := inScopeFiles m src in
  fileCount st1 = Z.of_nat (length files)
  /\ fileCount st2 = Z.of_nat (length files)
  /\ dirCount st2 = 0
  /\ out st2
     = fileLines (Verbose m) 0 files
       ++ [ui.PrintInfo
             ("Synchronized " ++ Strings.itoa (Z.of_nat (length files))
              ++ " files and " ++ Strings.itoa 0 ++ " directories");
           ui.PrintInfo "Committing changes to repository..."]
  /\ sync2 "Initial sync of configuration files" (mirror st1)
     = (mirror st2, None).
Proof.
  intros H1 Hall H2 files. unfold InitialSync, initialWalk in H1.
  rewrite Walk_mirrorAll in H1.
  destruct (mirrorAll umask m (inScope m [] src) _) as [stW [err|]] eqn:HW;
    [discriminate|].
  pose proof (mirrorAll_fileCount umask m _ _ _ HW) as Hcount.
  simpl in Hcount. fold (inScopeFiles m src) in Hcount. fold files in Hcount.
  destruct (sync1 "Initial sync of configuration files" (mirror stW))
    as [t1 [err|]]; [discriminate|].
  injection H1 as <-. cbn [mirror fileCount] in *.
  split; [exact Hcount|].
  unfold InitialSync, initialWalk in H2. rewrite Walk_mirrorAll in H2.
  rewrite mirrorAll_settled in H2;
    [|intros e He; now apply inScope_not_root in He|exact Hall].
  cbn [mirror fileCount dirCount out] in H2.
  fold (inScopeFiles m src) in H2. fold files in H2.
  destruct (sync2 "Initial sync of configuration files" t1)
    as [t2 [err|]]; [discriminate|].
  injection H2 as <-. cbn [mirror fileCount dirCount out].
  repeat split; reflexivity.
Qed.

(** The sample tree, under the manager that excludes log files, with a
    remote that brings nothing new: both runs count two files, the
    second run no directory. *)
Lemma InitialSync_second_run_witness :
  let m := sampleManager [] ["**/*.log"] in
  let upToDate := fun (_ : string) (t : node) => (t, @None string) in
  let st1 := fst (InitialSync 18 m upToDate sampleSource None) in
  let st2 := fst (InitialSync 18 m upToDate sampleSource
                    (Some (mirror st1))) in
  let files := inScopeFiles m sampleSource in
  fileCount st1 = Z.of_nat (length files)
  /\ fileCount st2 = Z.of_nat (length files)
  /\ dirCount st2 = 0
  /\ out st2
     = fileLines (Verbose m) 0 files
       ++ [ui.PrintInfo
             ("Synchronized " ++ Strings.itoa (Z.of_nat (length files))
              ++ " files and " ++ Strings.itoa 0 ++ " directories");
           ui.PrintInfo "Committing changes to repository..."]
  /\ upToDate "Initial sync of configuration files" (mirror st1)
     = (mirror st2, None).
Proof.
  apply (InitialSync_second_run 18 (sampleManager [] ["**/*.log"])
           (fun _ t => (t, None)) (fun _ t => (t, None)) sampleSource None).
  - vm_compute. reflexivity.
  - vm_compute. repeat constructor.
  - vm_compute. reflexivity.
Defined.

(** ** The commit message *)

Module message_facts.

Import Strings string_facts statements config.

(** *** Splitting at a comma and a space *)

Lemma prefix_cons a s1 b s2 :
  String.prefix (String a s1) (String b s2)
  = if ascii_dec a b then String.prefix s1 s2 else false.
Proof. reflexivity. Qed.

Lemma prefix_empty s : String.prefix "" s = true.
Proof. now destruct s. Qed.

Lemma HasPrefix_comma_space a s :
  HasPrefix (String a s) ", "
  = Ascii.eqb a ","
    && match s with
       | String b _ => Ascii.eqb b " "
       | EmptyString => false
       end.
Proof.
  unfold HasPrefix.
  assert (Hneq : forall x y : ascii, x <> y -> Ascii.eqb y x = false).
  { intros x y H. apply Ascii.eqb_neq. congruence. }
  rewrite prefix_cons. destruct (ascii_dec "," a) as [e|n].
  - subst a. rewrite Ascii.eqb_refl. destruct s as [|b s]; [reflexivity|].
    rewrite prefix_cons. destruct (ascii_dec " " b) as [e|n].
    + subst b. now rewrite prefix_empty.
    + now rewrite (Hneq _ _ n).
  - now rewrite (Hneq _ _ n).
Qed.

Lemma Contains_cons a s sub :
  Contains (String a s) sub = false ->
  HasPrefix (String a s) sub = false /\ Contains s sub = false.
Proof.
  change (Contains (String a s) sub)
    with (if HasPrefix (String a s) sub then true else Contains s sub).
  destruct (HasPrefix (String a s) sub); [discriminate|]. auto.
Qed.

(** A piece without comma-space, followed by comma-space, is split
    off. *)
Lemma Split_from_piece p :
  forall cur rest,
    Contains p ", " = false ->
    Split_from ", " 0 cur (p ++ ", " ++ rest)
    = (cur ++ p)%string :: Split_from ", " 0 "" rest.
Proof.
  induction p as [|a p IH]; intros cur rest Hc.
  - rewrite append_empty_r.
    change ("" ++ ", " ++ rest)%string with (String "," (String " " rest)).
    change (Split_from ", " 0 cur (String "," (String " " rest)))
      with (if HasPrefix (String "," (String " " rest)) ", "
            then cur :: Split_from ", " 0 "" rest
            else Split_from ", " 0 (cur ++ String "," "")
                   (String " " rest)).
    now rewrite HasPrefix_comma_space.
  - apply Contains_cons in Hc. destruct Hc as [Hp Hc].
    rewrite append_cons.
    change (Split_from ", " 0 cur (String a (p ++ ", " ++ rest)))
      with (if HasPrefix (String a (p ++ ", " ++ rest)) ", "
            then cur :: Split_from ", " (String.length ", " - 1) ""
                          (p ++ ", " ++ rest)
            else Split_from ", " 0 (cur ++ String a "")
                   (p ++ ", " ++ rest)).
    assert (HasPrefix (String a (p ++ ", " ++ rest)) ", " = false) as ->.
    { rewrite HasPrefix_comma_space in *.
      apply andb_false_iff in Hp. apply andb_false_iff.
      destruct Hp as [Hp|Hp]; [now left|]. right.
      destruct p as [|b p]; [reflexivity|]. now rewrite append_cons. }
    rewrite IH by exact Hc. now rewrite append_assoc.
Qed.

(** A piece without comma-space is not split. *)
Lemma Split_from_last p :
  forall cur, Contains p ", " = false ->
              Split_from ", " 0 cur p = [(cur ++ p)%string].
Proof.
  induction p as [|a p IH]; intros cur Hc.
  - now rewrite append_empty_r.
  - apply Contains_cons in Hc. destruct Hc as [Hp Hc].
    change (Split_from ", " 0 cur (String a p))
      with (if HasPrefix (String a p) ", "
            then cur :: Split_from ", " (String.length ", " - 1) "" p
            else Split_from ", " 0 (cur ++ String a "") p).
    rewrite Hp, IH by exact Hc. now rewrite append_assoc.
Qed.

Lemma Join_cons p q ps :
  Join (p :: q :: ps) ", " = (p ++ ", " ++ Join (q :: ps) ", ")%string.
Proof. reflexivity. Qed.

(** Splitting what was joined gives the pieces back, when no piece holds
    a comma followed by a space. *)
Lemma Split_Join ps :
  ps <> [] -> Forall (fun p => Contains p ", " = false) ps ->
  Split (Join ps ", ") ", " = ps.
Proof.
  unfold Split. induction ps as [|p ps IH]; intros Hne Hall; [contradiction|].
  apply Forall_cons in Hall. destruct Hall as [Hp Hall].
  destruct ps as [|q ps].
  - simpl. now rewrite (Split_from_last p "").
  - rewrite Join_cons, (Split_from_piece p "" _ Hp).
    now rewrite IH.
Qed.

(** *** Trimming the last comma and space *)

Lemma drop_length_append a b : drop (String.length a) (a ++ b) = b.
Proof.
  induction a as [|x a IH]; [reflexivity|]. rewrite append_cons. exact IH.
Qed.

Lemma take_length_append a b : take (String.length a) (a ++ b) = a.
Proof.
  induction a as [|x a IH]; [reflexivity|]. rewrite append_cons. simpl.
  now rewrite IH.
Qed.

Lemma TrimSuffix_append a b : TrimSuffix (a ++ b) b = a.
Proof.
  unfold TrimSuffix, HasSuffix. rewrite length_append.
  replace (String.length a + String.length b - String.length b)%nat
    with (String.length a) by lia.
  rewrite drop_length_append, String.eqb_refl, take_length_append.
  assert ((String.length b <=? String.length a + String.length b)%nat = true)
    as -> by (apply Nat.leb_le; lia).
  reflexivity.
Qed.

Lemma summaryOf_Join ps :
  ps <> [] -> summaryOf ps = (Join ps ", " ++ ", ")%string.
Proof.
  induction ps as [|p ps IH]; intros Hne; [contradiction|].
  destruct ps as [|q ps].
  - simpl. now rewrite append_empty_r.
  - change (summaryOf (p :: q :: ps))
      with (p ++ ", " ++ summaryOf (q :: ps))%string.
    rewrite IH by discriminate. rewrite Join_cons.
    now rewrite !append_assoc.
Qed.

Lemma summaryOf_not_empty ps :
  ps <> [] -> String.eqb (summaryOf ps) "" = false.
Proof.
  intros Hne. rewrite (summaryOf_Join ps Hne).
  apply String.eqb_neq. intros H.
  apply (f_equal String.length) in H. rewrite length_append in H.
  simpl in H. lia.
Qed.

(** *** One operation, then the message *)

(** For paths without a comma followed by a space, the part of the
    message for an operation is as the specification words it. *)
Lemma messagePart_spec operation paths :
  paths <> [] -> Forall (fun p => Contains p ", " = false) paths ->
  messagePart operation (summaryOf paths) = [spec_group operation paths].
Proof.
  intros Hne Hall. unfold messagePart, spec_group.
  rewrite (summaryOf_not_empty paths Hne), (summaryOf_Join paths Hne).
  rewrite TrimSuffix_append, (Split_Join paths Hne Hall). reflexivity.
Qed.

(** For paths without a comma followed by a space, the commit message is
    the one the specification describes. *)
Lemma buildCommitMessage_spec (summary : list (string * list string))
  (totalChanges : Z) :
  Forall (fun '(_, paths) =>
            Forall (fun p => Contains p ", " = false) paths) summary ->
  buildCommitMessage
    (map (fun '(operation, paths) => (operation, summaryOf paths)) summary)
    totalChanges
  = spec_commitMessage summary totalChanges.
Proof.
  intros Hall. unfold buildCommitMessage, spec_commitMessage.
  assert (Hparts :
    flat_map (fun '(changeType, files) => messagePart changeType files)
      (map (fun '(operation, paths) => (operation, summaryOf paths)) summary)
    = flat_map (fun '(operation, paths) =>
                  match paths with
                  | [] => []
                  | _ => [spec_group operation paths]
                  end) summary).
  { induction summary as [|[operation paths] summary IH]; [reflexivity|].
    apply Forall_cons in Hall. destruct Hall as [Hp Hall].
    simpl. rewrite (IH Hall). f_equal.
    destruct paths as [|p ps]; [reflexivity|].
    now apply messagePart_spec. }
  rewrite Hparts.
  destruct (flat_map _ summary) as [|g gs]; reflexivity.
Qed.

End message_facts.

(** * Further properties of the code *)

(** ** The manager and the initial sync *)

Module initial_more.

Import os os_facts statements config initial_facts.



Section Run.

Variable umask : Z.
Variable m : Manager.


(** Every directory on the way to an entry in scope is in scope, or
    renders as the root. *)
Lemma inScope_ancestors (info : node) :
  forall rel e,
    e ∈ inScope m rel info ->
    forall above below,
      e.1 = (rel ++ above) ++ below ->
      String.eqb (filepath.render (rel ++ above)) "." = true
      \/ shouldInclude m (filepath.render (rel ++ above)) = true.
Proof.
  induction info as [mode data|mode es IH] using node_induction;
    intros rel e He above below Heq.
  - simpl in He.
    destruct (String.eqb (filepath.render rel) ".") eqn:Er;
      [now apply elem_of_nil in He|].
    destruct (shouldInclude m (filepath.render rel)) eqn:Hs;
      [|now apply elem_of_nil in He].
    apply list_elem_of_singleton in He. subst e. simpl in Heq.
    rewrite <- app_assoc in Heq. rewrite <- (app_nil_r rel) in Heq at 1.
    apply app_inv_head in Heq. symmetry in Heq.
    apply app_eq_nil in Heq. destruct Heq as [-> _].
    rewrite app_nil_r. now right.
  - assert (Hrel : e ∈ inScope m rel (Dir mode es) ->
              String.eqb (filepath.render rel) "." = true
              \/ shouldInclude m (filepath.render rel) = true).
    { simpl. destruct (String.eqb (filepath.render rel) "."); [now left|].
      destruct (shouldInclude m (filepath.render rel)); [now right|].
      intros H. now apply elem_of_nil in H. }
    destruct above as [|s above].
    { rewrite app_nil_r. now apply Hrel. }
    assert (Hbelow : e ∈ inScopeBelow (inScope m) rel es ->
              String.eqb (filepath.render (rel ++ s :: above)) "." = true
              \/ shouldInclude m (filepath.render (rel ++ s :: above))
                 = true).
    { intros H. apply inScopeBelow_elem in H.
      destruct H as (name & c & Hin & Hc).
      pose proof (allEntries_elem _ _ _ _ IH Hin) as IHc.
      destruct (inScope_elem m c _ _ Hc) as [[q Hq] _].
      pose proof (eq_trans (eq_sym Hq) Heq) as Heq'.
      rewrite <- !app_assoc in Heq'. apply app_inv_head in Heq'.
      simpl in Heq'. injection Heq' as -> Hrest.
      replace (rel ++ s :: above) with ((rel ++ [s]) ++ above)
        by now rewrite <- app_assoc.
      apply (IHc _ _ Hc above below).
      now rewrite Heq, <- !app_assoc. }
    simpl in He.
    destruct (String.eqb (filepath.render rel) "."); [auto|].
    destruct (negb (shouldInclude m (filepath.render rel)));
      [now apply elem_of_nil in He|].
    apply elem_of_cons in He. destruct He as [->|He]; [|auto].
    simpl in Heq. rewrite <- app_assoc in Heq.
    rewrite <- (app_nil_r rel) in Heq at 1.
    apply app_inv_head in Heq. discriminate.
Qed.



End Run.

End initial_more.

Import os statements more_statements config initial_facts initial_more.



(** X2. The walk of [InitialSync] mirrors the entries in scope and
    nothing else, and an entry is in scope only with every directory
    above it: below the root, each directory on the way to a mirrored
    entry, and the entry itself, passes [shouldInclude] (a path that
    renders as [.] is taken for the root).  What lies below a directory
    out of scope is never mirrored, whatever the patterns say of it. *)
Theorem InitialSync_walk_prunes (umask : Z) (m : Manager) (src : node)
  (st : syncState) :
  Walk.Walk (initialVisit umask m) src st
  = mirrorAll umask m (inScope m [] src) st
  /\ forall e, e ∈ inScope m [] src ->
       forall above below,
         e.1 = above ++ below ->
         String.eqb (filepath.render above) "." = true
         \/ shouldInclude m (filepath.render above) = true.
Proof.
  split; [apply Walk_mirrorAll|].
  intros e He above below Heq.
  exact (inScope_ancestors m src [] e He above below Heq).
Qed.





(** ** Reconciling a changed path *)

Module sync_more.

Import os os_facts statements more_statements config initial_facts
  initial_more.








(** Creating the parent directories does not change whether the path
    itself is missing. *)
Lemma MkdirAll_parent_IsNotExist umask q s perm t t' :
  MkdirAll umask q perm t = Ok t' ->
  IsNotExist (Stat (q ++ [s]) t') = IsNotExist (Stat (q ++ [s]) t).
Proof.
  revert t t'. induction q as [|x q IH]; intros t t' H;
    destruct t as [m d|m es]; simpl in H; try discriminate.
  - now injection H as <-.
  - destruct (find x es) as [c|] eqn:Hc.
    + destruct (MkdirAll umask q perm c) as [c'|] eqn:Hm; [|discriminate].
      injection H as <-. simpl. rewrite find_put_eq, Hc. now apply IH.
    + injection H as <-. simpl. rewrite find_put_eq, Hc.
      rewrite Stat_app, Stat_newDirs. reflexivity.
Qed.

Lemma app_singleton_neq {A : Type} (l : list A) (x : A) : l ++ [x] <> l.
Proof.
  intros H. apply (f_equal (@length A)) in H. rewrite length_app in H.
  simpl in H. lia.
Qed.

End sync_more.

Import os os_facts statements more_statements config sync_more.

(** X5. A changed path that is a file in the source tree: when
    [syncChangedFiles] reports no failure for it, the repo tree has the
    file at the same relative path with the content and the permission
    bits of the source, and the path is recorded once, as added when
    nothing was at that path in the repo before and as modified
    otherwise. *)
Theorem syncOne_file (umask : Z) (src : node) (relPath : string)
  (c : changes) (mode : Z) (data : string) :
  Stat (filepath.segments relPath) src = Ok (File mode data) ->
  console (syncOne umask src relPath c) = console c ->
  let op := if IsNotExist (Stat (filepath.segments relPath) (tree c))
            then "added" else "modified" in
  Stat (filepath.segments relPath) (tree (syncOne umask src relPath c))
  = Ok (File mode data)
  /\ fileChanges (syncOne umask src relPath c)
     = <[op := default [] (fileChanges c !! op) ++ [relPath]]> (fileChanges c)
  /\ fileChangeSummary (syncOne umask src relPath c)
     = <[op := (default "" (fileChangeSummary c !! op) ++ relPath ++ ", ")
               %string]> (fileChangeSummary c).
Proof.
  intros HS. unfold syncOne. rewrite HS. simpl IsDir. cbv iota.
  destruct (MkdirAll umask (filepath.Dir (filepath.segments relPath)) 493
              (tree c)) as [t1|e] eqn:Hm.
  2:{ simpl. intros H. now apply app_singleton_neq in H. }
  destruct (copyFile umask (File mode data) (filepath.segments relPath) t1)
    as [t2 [e|]] eqn:Hc.
  { simpl. intros H. now apply app_singleton_neq in H. }
  intros _.
  destruct (initial_facts.copyFile_Stat umask _ _ _ _ Hc)
    as (mo & d & Heq & HS2).
  injection Heq as <- <-.
  assert (Hop : IsNotExist (Stat (filepath.segments relPath) t1)
                = IsNotExist (Stat (filepath.segments relPath) (tree c))).
  { destruct (filepath.segments relPath) as [|s0 p0] eqn:Hp.
    - exfalso. simpl in Hm. destruct (tree c) as [m0 d0|m0 es0];
        [discriminate|]. injection Hm as <-. discriminate.
    - destruct (removelast_snoc (s0 :: p0) ltac:(discriminate)) as [s Hs].
      unfold filepath.Dir in Hm. rewrite Hs.
      exact (MkdirAll_parent_IsNotExist umask _ s 493 _ _ Hm). }
  rewrite Hop. simpl. auto.
Qed.

Lemma syncOne_file_witness :
  let c := noChanges repoBeforeEdit in
  let op := if IsNotExist (Stat (filepath.segments "i3/config") (tree c))
            then "added" else "modified" in
  Stat (filepath.segments "i3/config")
    (tree (syncOne 18 editedSource "i3/config" c))
  = Ok (File 420 "bar { position top }")
  /\ fileChanges (syncOne 18 editedSource "i3/config" c)
     = <[op := default [] (fileChanges c !! op) ++ ["i3/config"]]>
         (fileChanges c)
  /\ fileChangeSummary (syncOne 18 editedSource "i3/config" c)
     = <[op := (default "" (fileChangeSummary c !! op) ++ "i3/config" ++ ", ")
               %string]> (fileChangeSummary c).
Proof.
  apply (syncOne_file 18 editedSource "i3/config" (noChanges repoBeforeEdit)
           420 "bar { position top }").
  - vm_compute. reflexivity.
  - vm_compute. reflexivity.
Defined.



(** X7. A changed path that is a directory in the source tree is never
    recorded under any operation; and when the repo tree has a directory
    at the path already, nothing at all changes, also when the
    permission bits of the two directories differ: a change of the
    permission bits of a source directory is not mirrored. *)
Theorem syncOne_directory (umask : Z) (src : node) (relPath : string)
  (c : changes) (info : node) :
  Stat (filepath.segments relPath) src = Ok info ->
  IsDir info = true ->
  fileChanges (syncOne umask src relPath c) = fileChanges c
  /\ fileChangeSummary (syncOne umask src relPath c) = fileChangeSummary c
  /\ (forall mode es,
        Stat (filepath.segments relPath) (tree c) = Ok (Dir mode es) ->
        syncOne umask src relPath c = c).
Proof.
  intros HS Hd.
  destruct (sync_facts.syncOne_directory_unclassified umask src relPath c
              info HS Hd) as [H1 H2].
  split; [exact H1|]. split; [exact H2|].
  intros mode es HT. unfold syncOne. rewrite HS, Hd.
  rewrite (os_facts.MkdirAll_same umask _ (Mode info) _ _ _ HT), HT.
  simpl. now destruct c.
Qed.

Lemma syncOne_directory_witness :
  let c := noChanges repoBeforeEdit in
  fileChanges (syncOne 18 editedSource "i3" c) = fileChanges c
  /\ fileChangeSummary (syncOne 18 editedSource "i3" c) = fileChangeSummary c
  /\ (forall mode es,
        Stat (filepath.segments "i3") (tree c) = Ok (Dir mode es) ->
        syncOne 18 editedSource "i3" c = c).
Proof.
  apply (syncOne_directory 18 editedSource "i3" (noChanges repoBeforeEdit)
           (Dir 448 [("config", File 420 "bar { position top }")])).
  - vm_compute. reflexivity.
  - reflexivity.
Defined.

(** ** The watcher loop, further *)

Module watcher_more.

Import statements more_statements config.

Section Watcher.

Variable Rel : string -> string -> option string.
Variable m : Manager.
Variable all : list received.

Lemma filesToSync_elem now (pending : gmap string Z) relPath v :
  filesToSync Rel m now pending !! relPath = Some v ->
  v = true
  /\ exists name t, pending !! name = Some t
                    /\ Rel (ConfigDir m) name = Some relPath.
Proof.
  unfold filesToSync. intros H. apply elem_of_list_to_map_2 in H.
  apply list_elem_of_omap in H. destruct H as ([k t] & Hin & Hf).
  apply elem_of_map_to_list in Hin.
  destruct (due now t); [|discriminate].
  destruct (Rel (ConfigDir m) k) as [r|] eqn:Hr; [|discriminate].
  injection Hf as <- <-. split; [reflexivity|]. eauto.
Qed.

Lemma turn_tidy st r st' :
  r ∈ all -> tidy Rel m all st -> turn Rel keepBatch m st r = Some st' ->
  tidy Rel m all st'.
Proof.
  intros Hin [Hp Hw] Ht.
  destruct r as [n op now isDir| |err| |now]; simpl in Ht;
    try discriminate.
  - destruct (Rel (ConfigDir m) n) as [relPath|] eqn:Hr;
      [|injection Ht as <-; now split].
    destruct (shouldInclude m relPath) eqn:Hs;
      [|injection Ht as <-; now split].
    simpl in Ht. fold (qualifies op) in Ht.
    destruct (qualifies op) eqn:Hq; [|injection Ht as <-; now split].
    injection Ht as <-. split; simpl; [|exact Hw].
    intros name t Hl. apply lookup_insert_Some in Hl.
    destruct Hl as [[<- _]|[_ Hl]]; [|now apply (Hp name t)].
    exists relPath. repeat split; try assumption. eauto.
  - injection Ht as <-. now split.
  - injection Ht as <-. split; simpl.
    + intros name t Hl. unfold stillPending in Hl.
      apply map_lookup_filter_Some in Hl. now apply (Hp name t).
    + intros batch Hb.
      destruct (0 <? Z.of_nat (size (filesToSync Rel m now
                                       (debounceEvents st)))) eqn:Hsz;
        [|now apply Hw].
      unfold keepBatch in Hb. apply elem_of_app in Hb.
      destruct Hb as [Hb|Hb]; [now apply Hw|].
      apply list_elem_of_singleton in Hb. subst batch. split.
      * intros He. rewrite He, map_size_empty in Hsz. discriminate.
      * intros relPath v Hl. apply filesToSync_elem in Hl.
        destruct Hl as (-> & name & t & Hl & Hr). split; [reflexivity|].
        destruct (Hp name t Hl) as (relPath' & Hr' & Hrest).
        exists name. unfold changeSeen.
        rewrite Hr in Hr'. injection Hr' as <-. now split.
Qed.

Lemma loopFrom_tidy rs :
  forall st, (forall r, r ∈ rs -> r ∈ all) -> tidy Rel m all st ->
             tidy Rel m all (loopFrom Rel keepBatch m st rs).
Proof.
  induction rs as [|r rs IH]; intros st Hall Hst; simpl; [exact Hst|].
  destruct (turn Rel keepBatch m st r) as [st'|] eqn:Ht; [|exact Hst].
  apply IH.
  - intros r' Hr'. apply Hall. now apply list_elem_of_further.
  - apply (turn_tidy st r st'); [|exact Hst|exact Ht].
    apply Hall. apply list_elem_of_here.
Qed.

End Watcher.

End watcher_more.

Import statements more_statements config watcher_more.

(** X8. Whatever the watcher loop receives, starting as the code does
    from an empty pending set: every path it holds as pending, and every
    path of every batch it hands to [syncChangedFiles], is the path of a
    write, create, remove or rename event it received that passes
    [shouldInclude]; and it never hands over an empty batch. *)
Theorem watcherLoop_syncs_only_seen_changes
  (Rel : string -> string -> option string) (m : Manager)
  (rs : list received) :
  let st := watcherLoop Rel keepBatch m [] rs in
  (forall name t,
     debounceEvents st !! name = Some t ->
     exists relPath, changeSeen Rel m rs name relPath)
  /\ (forall batch,
        batch ∈ world st ->
        batch <> ∅
        /\ forall relPath v,
             batch !! relPath = Some v ->
             v = true /\ exists name, changeSeen Rel m rs name relPath).
Proof.
  apply (loopFrom_tidy Rel m rs rs).
  - auto.
  - split.
    + intros name t H. simpl in H. now rewrite lookup_empty in H.
    + intros batch H. simpl in H. now apply elem_of_nil in H.
Qed.

(** ** Conflict resolution, further *)

Module git_more.

Import os os_facts statements git git_facts.

Section Resolver.

Variable umask : Z.
Context {Index : Type}.
Variable worktreeAdd : string -> node -> Index -> Index + string.
Variable gitCheckout : string -> string -> node -> Index -> node + string.

Local Abbreviation ResolveConflict :=
  (ResolveConflict umask worktreeAdd gitCheckout).

Lemma markResolved_hasWorktree path (r : repo Index) :
  hasWorktree (fst (markResolved worktreeAdd path r)) = hasWorktree r.
Proof.
  unfold markResolved.
  destruct (worktreeAdd path (files r) (index r)); reflexivity.
Qed.

(** A strategy that is none of the three constants selects no case of
    the switch. *)
Lemma ResolveConflict_no_case path strategy (r : repo Index) :
  hasWorktree r = true ->
  strategy <> KeepLocal -> strategy <> KeepRemote -> strategy <> Merge ->
  ResolveConflict path strategy r = (r, None).
Proof.
  intros Hw H1 H2 H3. unfold git.ResolveConflict. rewrite Hw. simpl negb.
  cbv iota.
  apply String.eqb_neq in H1, H2, H3. now rewrite H1, H2, H3.
Qed.

(** The working tree after a merge-both resolution, whatever it
    returns. *)
Lemma ResolveConflict_Merge_files path (r : repo Index) :
  files (fst (ResolveConflict path Merge r)) = files r
  \/ exists content,
       ReadFile (filepath.segments path) (files r) = Ok content
       /\ writeFile umask (filepath.segments path)
            (mergedHeader ++ content)%string 420 (files r)
          = Ok (files (fst (ResolveConflict path Merge r))).
Proof.
  destruct (hasWorktree r) eqn:Hw.
  2:{ left. unfold git.ResolveConflict. now rewrite Hw. }
  rewrite (ResolveConflict_Merge umask worktreeAdd gitCheckout path r Hw).
  cbv zeta. change (files (print _ r)) with (files r).
  destruct (ReadFile (filepath.segments path) (files r)) as [c|e] eqn:HR;
    [|now left].
  destruct (writeFile umask (filepath.segments path)
              (mergedHeader ++ c)%string 420 (files r)) as [t|e] eqn:HW;
    [|now left].
  right. exists c. split; [reflexivity|].
  now rewrite markResolved_files.
Qed.

End Resolver.

End git_more.

Import os statements git git_facts git_more.

(** X9. A strategy that is none of "local", "remote" and "merge": in a
    repository with a working tree [ResolveAllConflicts] returns no error
    for any list of conflicts, and has done nothing: the working tree,
    the index and what was printed are as before. *)
Theorem ResolveAllConflicts_unknown_strategy (umask : Z) (Index : Type)
  (worktreeAdd : string -> node -> Index -> Index + string)
  (gitCheckout : string -> string -> node -> Index -> node + string)
  (conflicts : list ConflictFile) (strategy : ResolutionStrategy)
  (r : repo Index) :
  hasWorktree r = true ->
  strategy <> KeepLocal -> strategy <> KeepRemote -> strategy <> Merge ->
  ResolveAllConflicts umask worktreeAdd gitCheckout conflicts strategy r
  = (r, None).
Proof.
  intros Hw H1 H2 H3. induction conflicts as [|c cs IH]; simpl.
  - reflexivity.
  - now rewrite (ResolveConflict_no_case umask worktreeAdd gitCheckout
                   (Path c) strategy r Hw H1 H2 H3).
Qed.

Lemma ResolveAllConflicts_unknown_strategy_witness :
  ResolveAllConflicts 18 stagePath noCheckout
    [conflict "bspwmrc"; conflict "picom.conf"] "ours" conflictedRepo
  = (conflictedRepo, None).
Proof.
  apply (ResolveAllConflicts_unknown_strategy 18 (list string) stagePath
           noCheckout [conflict "bspwmrc"; conflict "picom.conf"] "ours"
           conflictedRepo); [reflexivity|discriminate..].
Defined.



(** X11. A merge-both resolution, whether it succeeds or fails, touches
    no file of the working tree but the one at the conflicted path: every
    other file is there afterwards with the content and the permission
    bits it had. *)
Theorem merge_both_keeps_other_files (umask : Z) (Index : Type)
  (worktreeAdd : string -> node -> Index -> Index + string)
  (gitCheckout : string -> string -> node -> Index -> node + string)
  (r : repo Index) (path : string) (p : os.path) (mode : Z)
  (data : string) :
  p <> filepath.segments path ->
  Stat p (files r) = Ok (File mode data) ->
  Stat p (files (fst (ResolveConflict umask worktreeAdd gitCheckout path
                        Merge r)))
  = Ok (File mode data).
Proof.
  intros Hne HS.
  destruct (ResolveConflict_Merge_files umask worktreeAdd gitCheckout path
              r) as [->|(content & _ & HW)]; [exact HS|].
  rewrite os_facts.writeFile_unfold in HW.
  exact (os_facts.update_other_file _ _ _ _ p mode data
           (os_facts.gentle_writer _ _ _) HW Hne HS).
Qed.

Lemma merge_both_keeps_other_files_witness :
  Stat ["bspwmrc"]
    (files (fst (ResolveConflict 18 stagePath noCheckout "picom.conf" Merge
                   conflictedRepo)))
  = Ok (File 493 "<<<<<<< ours").
Proof.
  apply (merge_both_keeps_other_files 18 (list string) stagePath noCheckout
           conflictedRepo "picom.conf" ["bspwmrc"] 493 "<<<<<<< ours").
  - vm_compute. discriminate.
  - reflexivity.
Defined.

(** ** Starting the watcher *)

Module start_facts.

Import os statements more_statements config config_rest initial_facts.

Section Start.

Variable watcherAdd : path -> option string.
Variable m : Manager.





End Start.

End start_facts.

Import os statements more_statements config config_rest start_facts.



(** ** Removing a directory *)

Module remove_facts.

Import os os_facts statements more_statements config sync_more.

Lemma update_cons s s' p f m es :
  update (s :: s' :: p) f (Dir m es)
  = match find s es with
    | Some c0 =>
        bind (update (s' :: p) f c0) (fun c' => Ok (Dir m (put s c' es)))
    | None => Fail ENOENT
    end.
Proof. simpl. now destruct (find s es). Qed.

Lemma update_single s f m es :
  update [s] f (Dir m es)
  = bind (f (find s es)) (fun r =>
      match r with
      | Some c' => Ok (Dir m (put s c' es))
      | None => Ok (Dir m (remove s es))
      end).
Proof. simpl. now destruct (find s es). Qed.










End remove_facts.

Import os statements more_statements config remove_facts.



(** ** Prompts *)

Module prompt_facts.

Import statements more_statements ui_prompts.

Lemma Run_snoc {M : Type} (Update : M -> tea.Msg -> M * bool) m msgs msg :
  tea.Run Update m (msgs ++ [msg])
  = fst (Update (tea.Run Update m msgs) msg).
Proof. unfold tea.Run. now rewrite fold_left_app. Qed.

Lemma Run_cons {M : Type} (Update : M -> tea.Msg -> M * bool) m msgs msg :
  tea.Run Update m (msg :: msgs) = tea.Run Update (fst (Update m msg)) msgs.
Proof. reflexivity. Qed.

(** *** The select model *)




Lemma Update_selected m msg :
  (forall t, msg <> tea.KeyMsg t "enter") ->
  SelectModel.selected (fst (SelectModel.Update m msg))
  = SelectModel.selected m.
Proof.
  intros Hne. unfold SelectModel.Update.
  destruct msg as [t name|]; [|reflexivity].
  destruct (String.eqb name "up" || String.eqb name "k").
  { simpl. now destruct (0 <? SelectModel.cursor m). }
  destruct (String.eqb name "down" || String.eqb name "j").
  { simpl. now destruct (SelectModel.cursor m <? SelectModel.len m - 1). }
  destruct (String.eqb name "enter") eqn:E.
  { apply String.eqb_eq in E. subst name. now destruct (Hne t). }
  now destruct (String.eqb name "ctrl+c" || String.eqb name "q").
Qed.

Lemma Run_selected msgs :
  forall m,
    (forall t, tea.KeyMsg t "enter" ∉ msgs) ->
    SelectModel.selected (tea.Run SelectModel.Update m msgs)
    = SelectModel.selected m.
Proof.
  induction msgs as [|msg msgs IH]; intros m Hne; [reflexivity|].
  rewrite Run_cons, IH.
  - apply Update_selected. intros t ->. apply (Hne t).
    apply list_elem_of_here.
  - intros t Hin. apply (Hne t). now apply list_elem_of_further.
Qed.

End prompt_facts.

Import statements more_statements ui_prompts prompt_facts.


(** X15. In [PromptSelect], as long as no Enter is among the keys the
    program processes, the answer is the default choice, wherever the
    cursor has been moved: leaving with q or Ctrl+C does not cancel, it
    selects the default. *)
Theorem PromptSelect_without_enter (prompt : string)
  (choices : list string) (defaultIndex : Z) (msgs : list tea.Msg) :
  (forall t, tea.KeyMsg t "enter" ∉ msgs) ->
  PromptSelect prompt choices defaultIndex (Tui msgs)
  = nthChoice choices
      (if (defaultIndex <? 0)
          || (Z.of_nat (length choices) <=? defaultIndex)
       then 0 else defaultIndex).
Proof.
  intros Hne. unfold PromptSelect. rewrite (Run_selected msgs _ Hne).
  simpl. now destruct (_ && _).
Qed.

Lemma PromptSelect_without_enter_witness :
  PromptSelect "Strategy" ["local"; "remote"; "merge"] 2
    (Tui [key "up"; key "k"; key "q"])
  = nthChoice ["local"; "remote"; "merge"]
      (if (2 <? 0)
          || (Z.of_nat (length ["local"; "remote"; "merge"]) <=? 2)
       then 0 else 2).
Proof.
  apply (PromptSelect_without_enter "Strategy" ["local"; "remote"; "merge"]
           2 [key "up"; key "k"; key "q"]).
  intros t H. repeat (apply elem_of_cons in H; destruct H as [H|H];
                      [discriminate|]).
  now apply elem_of_nil in H.
Defined.

(** ** The prompt for a resolution strategy *)

Module strategy_facts.

Import statements more_statements ui_prompts prompt_facts git git_rest.

Section TextInput.

Context {Input : Type}.
Variable newInput : string -> Input.
Variable Value : Input -> string.
Variable updateInput : Input -> tea.Msg -> Input.

Local Abbreviation Update := (TextInputModel.Update Value updateInput).

Lemma Update_defaultValue m msg :
  TextInputModel.defaultValue (fst (Update m msg))
  = TextInputModel.defaultValue m.
Proof.
  unfold TextInputModel.Update.
  destruct msg as [[| |] name|]; try reflexivity.
  now destruct (_ && _).
Qed.

Lemma Run_defaultValue msgs :
  forall m,
    TextInputModel.defaultValue (tea.Run Update m msgs)
    = TextInputModel.defaultValue m.
Proof.
  induction msgs as [|msg msgs IH]; intros m; [reflexivity|].
  now rewrite Run_cons, IH, Update_defaultValue.
Qed.

(** The loop returns one of the three strategies, after a warning for
    each answer before the one it takes. *)
Lemma promptLoop_result inputs :
  forall out strategy rest out',
    promptLoop newInput Value updateInput inputs out
    = (Some (strategy, rest), out') ->
    (strategy = KeepLocal \/ strategy = KeepRemote \/ strategy = Merge)
    /\ exists invalid,
         length inputs = (invalid + 1 + length rest)%nat
         /\ out' = out ++ repeat invalidChoice invalid.
Proof.
  induction inputs as [|s inputs IH]; intros out strategy rest out' H;
    simpl in H; [discriminate|].
  destruct (String.eqb _ "1").
  { injection H as <- <- <-. split; [auto|]. exists 0%nat. simpl.
    now rewrite app_nil_r. }
  destruct (String.eqb _ "2").
  { injection H as <- <- <-. split; [auto|]. exists 0%nat. simpl.
    now rewrite app_nil_r. }
  destruct (String.eqb _ "3").
  { injection H as <- <- <-. split; [auto|]. exists 0%nat. simpl.
    now rewrite app_nil_r. }
  destruct (IH _ _ _ _ H) as (Hs & k & Hlen & Hout).
  split; [exact Hs|]. exists (S k). split.
  - simpl. lia.
  - rewrite Hout, <- app_assoc. reflexivity.
Qed.

End TextInput.

End strategy_facts.

Import statements more_statements ui_prompts prompt_facts git git_rest
  strategy_facts.

(** X16. When [promptForResolutionStrategy] returns, it returns one of
    the three strategies [ResolveConflict] knows, never another string;
    and it has printed its menu followed by one warning for each answer
    that came before the one it took. *)
Theorem promptForResolutionStrategy_valid (Input : Type)
  (newInput : string -> Input) (Value : Input -> string)
  (updateInput : Input -> tea.Msg -> Input)
  (inputs rest : list (session string)) (strategy : ResolutionStrategy)
  (out : list ui.output) :
  promptForResolutionStrategy newInput Value updateInput inputs
  = (Some (strategy, rest), out) ->
  (strategy = KeepLocal \/ strategy = KeepRemote \/ strategy = Merge)
  /\ exists invalid,
       length inputs = (invalid + 1 + length rest)%nat
       /\ out = strategyMenu ++ repeat invalidChoice invalid.
Proof. apply promptLoop_result. Qed.

Lemma promptForResolutionStrategy_valid_witness :
  (KeepRemote = KeepLocal \/ KeepRemote = KeepRemote \/ KeepRemote = Merge)
  /\ exists invalid,
       length [Tui [key "x"; tea.KeyMsg tea.KeyEnter "enter"];
               Console " 2 "; Console "1"]
       = (invalid + 1 + length [Console (A:=string) "1"])%nat
       /\ strategyMenu ++ [invalidChoice]
          = strategyMenu ++ repeat invalidChoice invalid.
Proof.
  apply (promptForResolutionStrategy_valid string (fun _ => "") id
           typedInput
           [Tui [key "x"; tea.KeyMsg tea.KeyEnter "enter"];
            Console " 2 "; Console "1"]
           [Console "1"] KeepRemote (strategyMenu ++ [invalidChoice])).
  vm_compute. reflexivity.
Defined.

(** X17. At the prompt for a strategy, Ctrl+C, or Enter on an empty
    input, does not cancel: whatever was typed or answered before in that
    prompt, [promptForResolutionStrategy] returns the merge strategy at
    once, without a warning. *)
Theorem promptForResolutionStrategy_default (Input : Type)
  (newInput : string -> Input) (Value : Input -> string)
  (updateInput : Input -> tea.Msg -> Input)
  (msgs : list tea.Msg) (last : tea.Msg) (name : string)
  (rest : list (session string)) :
  last = tea.KeyMsg tea.KeyCtrlC name
  \/ (last = tea.KeyMsg tea.KeyEnter name
      /\ Value (TextInputModel.textInput
                  (tea.Run (TextInputModel.Update Value updateInput)
                     (TextInputModel.NewTextInputModel newInput
                        "Enter choice (1-3)" "3") msgs)) = "") ->
  promptForResolutionStrategy newInput Value updateInput
    (Tui (msgs ++ [last]) :: rest)
  = (Some (Merge, rest), strategyMenu).
Proof.
  intros H. unfold promptForResolutionStrategy. cbn [promptLoop].
  assert (TextInputModel.PromptInput newInput Value updateInput
            "Enter choice (1-3)" "3" (Tui (msgs ++ [last])) = "3") as ->;
    [|reflexivity].
  unfold TextInputModel.PromptInput. rewrite Run_snoc.
  pose proof (Run_defaultValue Value updateInput msgs
                (TextInputModel.NewTextInputModel newInput
                   "Enter choice (1-3)" "3")) as Hd.
  simpl in Hd.
  destruct H as [->|[-> Hv]].
  - simpl. exact Hd.
  - cbn [TextInputModel.Update]. rewrite Hv, Hd. reflexivity.
Qed.

Lemma promptForResolutionStrategy_default_witness :
  promptForResolutionStrategy (fun _ => "") id typedInput
    (Tui ([key "1"] ++ [tea.KeyMsg tea.KeyCtrlC "ctrl+c"])
     :: [Console "2"])
  = (Some (Merge, [Console "2"]), strategyMenu).
Proof.
  apply (promptForResolutionStrategy_default string (fun _ => "") id
           typedInput [key "1"] (tea.KeyMsg tea.KeyCtrlC "ctrl+c")
           "ctrl+c" [Console "2"]).
  left. reflexivity.
Defined.

(** ** Credentials *)

Module env_facts.

Import os os_facts statements more_statements remove_facts env.


Lemma given_empty input old :
  (if negb (String.eqb (strings_more.TrimSpace input) "")
   then strings_more.TrimSpace input else old) = ""
  <-> old = "" /\ strings_more.TrimSpace input = "".
Proof.
  destruct (String.eqb (strings_more.TrimSpace input) "") eqn:E; simpl.
  - apply String.eqb_eq in E. tauto.
  - apply String.eqb_neq in E. tauto.
Qed.

End env_facts.

Import os statements more_statements env env_facts.

(** White space beyond ASCII is trimmed as well: a no-break space
    (U+00A0) and a space before the text, an ideographic space (U+3000)
    and a line feed after it; the space inside stays. *)
Example TrimSpace_unicode :
  strings_more.TrimSpace
    (String "194" (String "160" " ")
     ++ "octo cat"
     ++ String "227" (String "128" (String "128" (String "010" ""))))
  = "octo cat"
  /\ strings_more.TrimSpace (String "194" (String "160" "")) = "".
Proof. vm_compute. split; reflexivity. Qed.

(** X18. After [UpdateFromUserInput] a credential is empty exactly when
    it was empty before and the input for it is blank: input of white
    space only never sets or erases a credential.  So a configuration
    that was complete stays complete whatever is entered. *)
Theorem UpdateFromUserInput_empty_fields (c : Config)
  (repoURL username token : string) :
  let c' := UpdateFromUserInput c repoURL username token in
  (GithubRepoURL c' = ""
   <-> GithubRepoURL c = "" /\ strings_more.TrimSpace repoURL = "")
  /\ (GithubUsername c' = ""
      <-> GithubUsername c = "" /\ strings_more.TrimSpace username = "")
  /\ (GithubToken c' = ""
      <-> GithubToken c = "" /\ strings_more.TrimSpace token = "")
  /\ (IsConfigComplete c = true -> IsConfigComplete c' = true).
Proof.
  simpl. split; [apply given_empty|]. split; [apply given_empty|].
  split; [apply given_empty|].
  unfold IsConfigComplete. simpl. intros H.
  apply andb_true_iff in H. destruct H as [H12 H3].
  apply andb_true_iff in H12. destruct H12 as [H1 H2].
  apply negb_true_iff, String.eqb_neq in H1, H2, H3.
  repeat (apply andb_true_iff; split);
    apply negb_true_iff, String.eqb_neq; intros E;
    apply given_empty in E; tauto.
Qed.



(** ** Syncing with the remote *)

Module remote_facts.

Import os statements more_statements ui_prompts git git_rest.

Section Sync.

Variable umask : Z.
Context {Store : Type}.
Variable worktreeAdd : string -> node -> Store -> Store + string.
Variable gitCheckout : string -> string -> node -> Store -> node + string.
Variable wPull : node -> Store -> node * Store * outcome.
Variable wStatus : node -> Store -> list (string * FileStatus) + string.
Variable storerIndex : Store -> list IndexEntry + string.
Variable wCommit : string -> node -> Store -> Store * option string.
Variable rPush : node -> Store -> outcome.
Context {Input : Type}.
Variable newInput : string -> Input.
Variable Value : Input -> string.
Variable updateInput : Input -> tea.Msg -> Input.

Local Abbreviation state := (@state Store).

Lemma sayAll_calls lines :
  forall st : state, calls (sayAll lines st) = calls st.
Proof.
  induction lines as [|l lines IH]; intros st; [reflexivity|].
  unfold sayAll in *. simpl. now rewrite IH.
Qed.

Lemma Add_calls (st : state) :
  exists j,
    calls (Add worktreeAdd ["."] st).1
    = calls st ++ firstn j [CallAdd "."]
    /\ ((Add worktreeAdd ["."] st).2 = None -> j = 1%nat).
Proof.
  unfold Add. destruct (hasWorktree (work st)); simpl.
  - exists 1%nat. destruct (worktreeAdd _ _ _); simpl; auto.
  - exists 0%nat. simpl. rewrite app_nil_r. split; [reflexivity|].
    discriminate.
Qed.

Lemma Commit_calls message (st : state) :
  exists j,
    calls (Commit wStatus wCommit message st).1
    = calls st ++ firstn j [CallCommit message]
    /\ ((Commit wStatus wCommit message st).2 = None -> j = 1%nat)
    /\ (forall err,
          (Commit wStatus wCommit message st).2 = Some err ->
          String.eqb err "no changes to commit" = true -> j = 0%nat).
Proof.
  unfold Commit. destruct (hasWorktree (work st)); simpl.
  2:{ exists 0%nat. simpl. rewrite app_nil_r. repeat split; auto.
      discriminate. }
  destruct (wStatus _ _) as [status|err0].
  2:{ exists 0%nat. simpl. rewrite app_nil_r. repeat split; auto.
      discriminate. }
  destruct (IsClean status).
  { exists 0%nat. simpl. rewrite app_nil_r. repeat split; auto.
    discriminate. }
  exists 1%nat. simpl.
  destruct (wCommit _ _ _) as [i [err0|]]; simpl;
    (split; [reflexivity|]); (split; [auto|]); intros err H;
    [|discriminate].
  injection H as <-. intros E. cbv in E. discriminate.
Qed.

Lemma Push_calls g (st : state) :
  exists j,
    calls (Push rPush g st).1 = calls st ++ firstn j [CallPush]
    /\ ((Push rPush g st).2 = None -> j = 1%nat)
    /\ (Auth g = None -> j = 0%nat).
Proof.
  unfold Push. destruct (String.eqb (RemoteURL g) "").
  { exists 0%nat. simpl. rewrite app_nil_r. repeat split; auto.
    discriminate. }
  destruct (Auth g) as [a|].
  2:{ exists 0%nat. simpl. rewrite app_nil_r. repeat split; auto.
      discriminate. }
  exists 1%nat. simpl. destruct (rPush _ _); simpl; repeat split; auto;
    discriminate.
Qed.

Lemma stageCommitPush_calls g message (st : state) :
  exists j,
    calls (stageCommitPush worktreeAdd wStatus wCommit rPush g message
             st).1
    = calls st ++ firstn j [CallAdd "."; CallCommit message; CallPush]
    /\ ((stageCommitPush worktreeAdd wStatus wCommit rPush g message
           st).2 = None -> j = 1%nat \/ j = 3%nat)
    /\ (Auth g = None -> (j <= 2)%nat).
Proof.
  unfold stageCommitPush.
  destruct (Add_calls st) as (j1 & Hc1 & Hn1).
  destruct (Add worktreeAdd ["."] st) as [st1 [err|]]; simpl in *.
  { exists (Nat.min j1 1). destruct j1 as [|[|j1]]; simpl in *;
      repeat split; auto; try discriminate; lia. }
  rewrite (Hn1 eq_refl) in Hc1. simpl in Hc1.
  destruct (Commit_calls message st1) as (j2 & Hc2 & Hn2 & Hclean).
  destruct (Commit wStatus wCommit message st1) as [st2 [err|]];
    simpl in *.
  { destruct (String.eqb err "no changes to commit") eqn:E; simpl.
    - rewrite (Hclean err eq_refl E) in Hc2. simpl in Hc2.
      rewrite app_nil_r in Hc2. exists 1%nat. simpl.
      rewrite Hc2, Hc1. repeat split; auto.
    - exists (1 + Nat.min j2 1)%nat. rewrite Hc2, Hc1, <- app_assoc.
      destruct j2 as [|[|j2]]; simpl; repeat split; auto;
        try discriminate; lia. }
  rewrite (Hn2 eq_refl) in Hc2. simpl in Hc2.
  destruct (Push_calls g st2) as (j3 & Hc3 & Hn3 & Ha3).
  destruct (Push rPush g st2) as [st3 [err|]]; simpl in *.
  - exists (2 + Nat.min j3 1)%nat. rewrite Hc3, Hc2, Hc1, <- !app_assoc.
    destruct j3 as [|[|j3]]; simpl; repeat split; auto; try discriminate;
      try lia; intros Ha; specialize (Ha3 Ha); lia.
  - rewrite (Hn3 eq_refl) in Hc3. exists 3%nat.
    rewrite Hc3, Hc2, Hc1, <- !app_assoc. simpl. repeat split; auto.
    intros Ha. specialize (Ha3 Ha). specialize (Hn3 eq_refl). lia.
Qed.

Lemma Pull_calls g (st : state) :
  (calls (Pull wPull g st).1 = calls st ++ [CallPull]
   /\ String.eqb (RemoteURL g) "" = false)
  \/ (calls (Pull wPull g st).1 = calls st
      /\ (Pull wPull g st).1 = st
      /\ ((Pull wPull g st).2 = Some "remote URL not set"
          \/ (Pull wPull g st).2
             = Some (Errorf "failed to get worktree" bare))).
Proof.
  unfold Pull. destruct (String.eqb (RemoteURL g) ""); [right; auto|].
  destruct (hasWorktree (work st)); simpl; [|right; auto].
  left. destruct (wPull _ _) as [[t i] [| |err]]; simpl; auto.
Qed.

Lemma resolveEach_calls conflicts :
  forall st : state,
    calls (resolveEach umask worktreeAdd gitCheckout newInput Value
             updateInput conflicts st).1 = calls st.
Proof.
  induction conflicts as [|c cs IH]; intros st; [reflexivity|].
  cbn [resolveEach].
  destruct (promptForResolutionStrategy _ _ _ _) as [[[s rest]|] out].
  - destruct (ResolveConflict _ _ _ _ _ _) as [r [err|]].
    + cbn [fst]. unfold setWork. cbn [calls]. now rewrite sayAll_calls.
    + rewrite IH. unfold setWork. cbn [calls]. now rewrite sayAll_calls.
  - cbn [fst]. now rewrite sayAll_calls.
Qed.

End Sync.

End remote_facts.

Import os statements more_statements ui_prompts git git_rest remote_facts.

(** X20. Whatever the backend and the prompts return, the calls
    [SyncWithRemote] makes through [Pull], [Add], [Commit] and [Push] are
    an initial part of: pull, stage everything, commit with the given
    message, push.  When it returns no error it has pulled and staged,
    and either found nothing to commit or committed and pushed.  Without
    a remote URL it makes no call at all, and without credentials it
    never pushes. *)
Theorem SyncWithRemote_calls (umask : Z) (Store : Type)
  (worktreeAdd : string -> node -> Store -> Store + string)
  (gitCheckout : string -> string -> node -> Store -> node + string)
  (wPull : node -> Store -> node * Store * outcome)
  (wStatus : node -> Store -> list (string * FileStatus) + string)
  (storerIndex : Store -> list IndexEntry + string)
  (wCommit : string -> node -> Store -> Store * option string)
  (rPush : node -> Store -> outcome)
  (Input : Type) (newInput : string -> Input) (Value : Input -> string)
  (updateInput : Input -> tea.Msg -> Input)
  (g : GitRepo) (message : string) (st : state) :
  let res :=
    SyncWithRemote umask worktreeAdd gitCheckout wPull wStatus storerIndex
      wCommit rPush newInput Value updateInput g message st in
  exists k,
    calls res.1
    = calls st
      ++ firstn k [CallPull; CallAdd "."; CallCommit message; CallPush]
    /\ (res.2 = Some None -> k = 2%nat \/ k = 4%nat)
    /\ (RemoteURL g = "" -> k = 0%nat)
    /\ (Auth g = None -> (k <= 3)%nat).
Proof.
  intros res. subst res. unfold SyncWithRemote.
  assert (Hstage : forall st1 : state,
    calls st1 = calls st ++ [CallPull] ->
    String.eqb (RemoteURL g) "" = false ->
    let res := returned (stageCommitPush worktreeAdd wStatus wCommit rPush
                           g message st1) in
    exists k,
      calls res.1
      = calls st
        ++ firstn k [CallPull; CallAdd "."; CallCommit message; CallPush]
      /\ (res.2 = Some None -> k = 2%nat \/ k = 4%nat)
      /\ (RemoteURL g = "" -> k = 0%nat)
      /\ (Auth g = None -> (k <= 3)%nat)).
  { intros st1 Hc Hurl.
    destruct (stageCommitPush_calls worktreeAdd wStatus wCommit rPush g
                message st1) as (j & Hj & Hn & Ha).
    unfold returned. simpl. exists (S j). rewrite Hj, Hc, <- app_assoc.
    split; [reflexivity|]. split; [|split].
    - intros [= Hr]. destruct (Hn Hr); lia.
    - intros E. rewrite E in Hurl. discriminate.
    - intros E. specialize (Ha E). lia. }
  assert (Hstop : forall (st1 : state) (r : option (option string)),
    calls st1 = calls st ++ [CallPull] ->
    String.eqb (RemoteURL g) "" = false ->
    r <> Some None ->
    exists k,
      @calls Store (st1, r).1
      = calls st
        ++ firstn k [CallPull; CallAdd "."; CallCommit message; CallPush]
      /\ ((st1, r).2 = Some None -> k = 2%nat \/ k = 4%nat)
      /\ (RemoteURL g = "" -> k = 0%nat)
      /\ (Auth g = None -> (k <= 3)%nat)).
  { intros st1 r Hc Hurl Hr. exists 1%nat. simpl.
    split; [exact Hc|]. split; [intros E; contradiction|].
    split; [|lia]. intros E. rewrite E in Hurl. discriminate. }
  destruct (Pull_calls wPull g st) as [[Hc Hurl]|(Hc & Hst & Herr)];
    destruct (Pull wPull g st) as [st1 [err|]]; simpl in Hc.
  - (* the pull was made and failed *)
    destruct (Strings.Contains err "conflict").
    2:{ apply Hstop; [exact Hc|exact Hurl|discriminate]. }
    destruct (DetectConflicts wStatus storerIndex _)
      as [conflicts [[|] [e|]]] eqn:HD.
    + apply Hstop; [exact Hc|exact Hurl|discriminate].
    + match goal with
      | |- context [inputs ?s] => destruct (inputs s) as [|s0 rest] eqn:Hin
      end.
      { apply Hstop; [|exact Hurl|discriminate].
        unfold say, setWork. cbn [calls]. rewrite sayAll_calls. exact Hc. }
      match goal with
      | |- context [if ?b then ?x else ?y] =>
          assert (Hres : calls (if b then x else y).1
                         = calls st ++ [CallPull]);
          [|destruct (if b then x else y) as [st2 [[e|]|]]]
      end.
      { destruct (PromptYesNo _ _ _).
        - cbn [inputs work calls].
          destruct (promptForResolutionStrategy _ _ _ _)
            as [[[s rest']|] out].
          + destruct (ResolveAllConflicts _ _ _ _ _ _) as [r [e|]];
              unfold setWork; cbn [fst calls]; rewrite sayAll_calls;
              cbn [calls]; unfold say, setWork; cbn [calls];
              rewrite sayAll_calls; exact Hc.
          + cbn [fst]. rewrite sayAll_calls. cbn [calls].
            unfold say, setWork. cbn [calls]. rewrite sayAll_calls.
            exact Hc.
        - rewrite resolveEach_calls. cbn [calls].
          unfold say, setWork. cbn [calls]. rewrite sayAll_calls.
          exact Hc. }
      * apply Hstop; [exact Hres|exact Hurl|discriminate].
      * apply Hstage; [|exact Hurl]. exact Hres.
      * apply Hstop; [exact Hres|exact Hurl|discriminate].
    + apply Hstop; [exact Hc|exact Hurl|discriminate].
    + apply Hstage; [|exact Hurl]. exact Hc.
  - (* the pull was made *)
    apply Hstage; [exact Hc|exact Hurl].
  - (* no pull was made *)
    simpl in Hst, Herr. subst st1.
    assert (Hno : Strings.Contains err "conflict" = false).
    { destruct Herr as [[= ->]|[= ->]]; vm_compute; reflexivity. }
    rewrite Hno. exists 0%nat. simpl. rewrite app_nil_r.
    repeat split; auto; try discriminate; lia.
  - simpl in Herr. destruct Herr; discriminate.
Qed.

(** ** A batch touches nothing outside it *)

Module batch_facts.

Import os os_facts statements more_statements config sync_more.

Section Frame.

Variable umask : Z.

(** [q] is neither the path [p] nor below it. *)
Local Abbreviation outside q p := (forall below : path, q <> p ++ below).





End Frame.

End batch_facts.

Import os statements more_statements config batch_facts.



(** ** The commit message of a batch *)

Module batch_message_facts.

Import os statements more_statements config string_facts message_facts.

Lemma summaryOf_snoc paths p :
  summaryOf (paths ++ [p]) = (summaryOf paths ++ p ++ ", ")%string.
Proof.
  induction paths as [|q paths IH].
  - simpl. now rewrite append_empty_l, append_empty_r.
  - change (summaryOf ((q :: paths) ++ [p]))
      with (q ++ ", " ++ summaryOf (paths ++ [p]))%string.
    rewrite IH.
    change (summaryOf (q :: paths))
      with (q ++ ", " ++ summaryOf paths)%string.
    now rewrite !append_assoc.
Qed.

Lemma record_tracked batch op shown relPath t c :
  relPath ∈ batch -> tracked batch c ->
  tracked batch (record op shown relPath t c).
Proof.
  intros Hin Hc op' s. unfold record. cbn [fileChangeSummary].
  intros H. apply lookup_insert_Some in H.
  destruct H as [[<- <-]|[_ H]]; [|exact (Hc op' s H)].
  destruct (fileChangeSummary c !! op) as [old|] eqn:Hold.
  - destruct (Hc op old Hold) as (paths & Hne & -> & Hsub).
    exists (paths ++ [relPath]). split; [now destruct paths|].
    split; [now rewrite summaryOf_snoc|].
    intros p Hp. apply elem_of_app in Hp. destruct Hp as [Hp|Hp].
    + now apply Hsub.
    + apply list_elem_of_singleton in Hp. now subst p.
  - exists [relPath]. split; [discriminate|]. split.
    + simpl. now rewrite append_empty_l, append_empty_r.
    + intros p Hp. apply list_elem_of_singleton in Hp. now subst p.
Qed.

Lemma syncOne_tracked umask batch src relPath c :
  relPath ∈ batch -> tracked batch c ->
  tracked batch (syncOne umask src relPath c).
Proof.
  intros Hin Hc. unfold syncOne.
  destruct (Stat (filepath.segments relPath) src) as [info|[| | |]];
    try exact Hc.
  - destruct (IsDir info).
    + destruct (MkdirAll _ _ _ _); [|exact Hc].
      destruct (IsNotExist _); [now apply record_tracked|exact Hc].
    + destruct (MkdirAll _ _ _ _) as [t1|]; [|exact Hc].
      destruct (copyFile _ _ _ _) as [t2 [e|]];
        [exact Hc|now apply record_tracked].
  - destruct (Stat _ (tree c)) as [targetInfo|]; [|exact Hc].
    destruct (IsDir targetInfo).
    + destruct (removeDirectory _ _); [now apply record_tracked|exact Hc].
    + destruct (Remove _ _) as [t1|[| | |]];
        try exact Hc; now apply record_tracked.
Qed.

Lemma syncLoop_tracked umask batch src changedFiles :
  forall c,
    (forall p, p ∈ changedFiles -> p ∈ batch) -> tracked batch c ->
    tracked batch
      (fold_left (fun c relPath => syncOne umask src relPath c)
         changedFiles c).
Proof.
  induction changedFiles as [|relPath rest IH]; intros c Hsub Hc;
    [exact Hc|].
  simpl. apply IH.
  - intros p Hp. apply Hsub. now apply list_elem_of_further.
  - apply syncOne_tracked; [|exact Hc]. apply Hsub. apply list_elem_of_here.
Qed.

Lemma tracked_decodes (batch : list string) (encoded : list (string * string)) :
  Forall (fun '(_, s) =>
            exists paths,
              paths <> [] /\ s = summaryOf paths
              /\ forall p, p ∈ paths -> p ∈ batch) encoded ->
  exists summary,
    decodes summary encoded
    /\ Forall (fun '(_, paths) =>
                 paths <> [] /\ forall p, p ∈ paths -> p ∈ batch) summary.
Proof.
  unfold decodes. induction 1 as [|[op s] l Hx _ IH].
  - exists []. split; [reflexivity|constructor].
  - destruct Hx as (paths & Hne & -> & Hsub).
    destruct IH as (summary & -> & Hall).
    exists ((op, paths) :: summary). split; [reflexivity|].
    constructor; [split; assumption|exact Hall].
Qed.

End batch_message_facts.

Import os statements more_statements config batch_message_facts.

(** X22. When no path of the batch contains a comma followed by a
    space, then in whatever order the range of [buildCommitMessage]
    visits the operations: what [syncChangedFiles] has accumulated for
    the commit message decodes to the paths recorded under each
    operation, all of them paths of the batch, and the message handed to
    the sync with the remote is: for each operation with paths, in the
    order visited, the operation and at most three of its paths, then
    the count of the others; the groups joined by "; "; and the count of
    the batch when nothing was recorded. *)
Theorem syncChangedFiles_commit_message (umask : Z) (m : Manager)
  (visit : gmap string string -> list (string * string))
  (SyncWithRemote : string -> node -> node * option string) (src : node)
  (changedFiles : list string) (t : node) :
  (forall encoded, visit encoded ≡ₚ map_to_list encoded) ->
  Forall (fun p => Strings.Contains p ", " = false) changedFiles ->
  let loop := syncLoop umask src changedFiles t in
  let c := syncChangedFiles umask m visit SyncWithRemote src changedFiles
             t in
  let total := Z.of_nat (length changedFiles) in
  exists summary,
    decodes summary (visit (fileChangeSummary c))
    /\ Forall (fun '(_, paths) =>
                 paths <> [] /\ forall p, p ∈ paths -> p ∈ changedFiles)
              summary
    /\ buildCommitMessage (visit (fileChangeSummary c)) total
       = spec_commitMessage summary total
    /\ tree c
       = (SyncWithRemote (spec_commitMessage summary total) (tree loop)).1.
Proof.
  intros Hvisit Hall loop c total. subst c loop. unfold syncChangedFiles.
  cbn [fileChangeSummary tree]. unfold syncLoop.
  set (c := fold_left _ changedFiles _).
  assert (Hc : tracked changedFiles c).
  { apply syncLoop_tracked; [auto|].
    intros op s H. cbn in H. now rewrite lookup_empty in H. }
  destruct (tracked_decodes changedFiles (visit (fileChangeSummary c)))
    as (summary & Hdec & Hsum).
  { apply Forall_forall. intros [op s] Hin.
    rewrite (Hvisit (fileChangeSummary c)) in Hin.
    apply elem_of_map_to_list in Hin. exact (Hc op s Hin). }
  exists summary. split; [exact Hdec|]. split; [exact Hsum|].
  assert (Hmsg : buildCommitMessage (visit (fileChangeSummary c)) total
                 = spec_commitMessage summary total).
  { rewrite Hdec. apply message_facts.buildCommitMessage_spec.
    apply Forall_forall. intros [op paths] Hin.
    rewrite Forall_forall in Hsum. destruct (Hsum _ Hin) as [_ Hsub].
    apply Forall_forall. intros p Hp.
    rewrite Forall_forall in Hall. apply Hall. now apply Hsub. }
  split; [exact Hmsg|]. fold total. now rewrite Hmsg.
Qed.

(** Three changed paths, the operations visited last to first. *)
Lemma syncChangedFiles_commit_message_witness :
  let backwards := fun encoded : gmap string string =>
                     reverse (map_to_list encoded) in
  let upToDate := fun (_ : string) (t : node) => (t, @None string) in
  let loop := syncLoop 18 editedSource
                ["nvim"; "zsh/.zshenv"; "i3/config"] repoBeforeEdit in
  let c := syncChangedFiles 18 (sampleManager [] []) backwards upToDate
             editedSource ["nvim"; "zsh/.zshenv"; "i3/config"]
             repoBeforeEdit in
  let total := Z.of_nat (length ["nvim"; "zsh/.zshenv"; "i3/config"]) in
  exists summary,
    decodes summary (backwards (fileChangeSummary c))
    /\ Forall (fun '(_, paths) =>
                 paths <> []
                 /\ forall p, p ∈ paths ->
                              p ∈ ["nvim"; "zsh/.zshenv"; "i3/config"])
              summary
    /\ buildCommitMessage (backwards (fileChangeSummary c)) total
       = spec_commitMessage summary total
    /\ tree c
       = (upToDate (spec_commitMessage summary total) (tree loop)).1.
Proof.
  apply (syncChangedFiles_commit_message 18 (sampleManager [] [])
           (fun encoded => reverse (map_to_list encoded))
           (fun _ t => (t, None)) editedSource
           ["nvim"; "zsh/.zshenv"; "i3/config"] repoBeforeEdit).
  - intros encoded. apply reverse_Permutation.
  - repeat constructor.
Defined.

(** ** Merging every conflict *)

Module merge_all_facts.

Import os os_facts statements git git_facts git_more.

Section Resolver.

Variable umask : Z.
Context {Index : Type}.
Variable worktreeAdd : string -> node -> Index -> Index + string.
Variable gitCheckout : string -> string -> node -> Index -> node + string.

Local Abbreviation ResolveConflict :=
  (ResolveConflict umask worktreeAdd gitCheckout).
Local Abbreviation ResolveConflict_Merge_files :=
  (ResolveConflict_Merge_files umask worktreeAdd gitCheckout).

(** Writing into a file that exists: a file found elsewhere afterwards
    was there before. *)
Lemma writeFile_existing_back q data perm :
  forall t t' m d p m' d',
    Stat q t = Ok (File m d) ->
    writeFile umask q data perm t = Ok t' ->
    p <> q ->
    Stat p t' = Ok (File m' d') -> Stat p t = Ok (File m' d').
Proof.
  induction q as [|s q IH]; intros t t' m d p m' d' HS HW Hne Hp.
  - simpl in HS. injection HS as ->. simpl in HW. injection HW as <-.
    destruct p as [|s' p']; [contradiction|discriminate].
  - destruct t as [m0 d0|m0 es0]; [discriminate|]. simpl in HS.
    destruct (find s es0) as [c0|] eqn:Hc0; [|discriminate].
    assert (Hput : exists c0',
              t' = Dir m0 (put s c0' es0)
              /\ forall p', p' <> q -> Stat p' c0' = Ok (File m' d') ->
                            Stat p' c0 = Ok (File m' d')).
    { rewrite writeFile_unfold in HW. destruct q as [|s2 q2].
      - simpl in HS. injection HS as ->.
        rewrite remove_facts.update_single, Hc0 in HW. simpl in HW.
        injection HW as <-. eexists. split; [reflexivity|].
        intros [|s3 p3] Hn Hs; [contradiction|discriminate].
      - rewrite remove_facts.update_cons, Hc0 in HW.
        destruct (update (s2 :: q2) _ c0) as [c0'|] eqn:Hu; [|discriminate].
        injection HW as <-. exists c0'. split; [reflexivity|].
        intros p' Hn Hs. rewrite <- writeFile_unfold in Hu.
        exact (IH c0 c0' m d p' m' d' HS Hu Hn Hs). }
    destruct Hput as (c0' & -> & Hback).
    destruct p as [|s' p']; [discriminate|].
    cbn [Stat] in Hp |- *. rewrite find_put in Hp.
    destruct (String.eqb s' s) eqn:E.
    + apply String.eqb_eq in E. subst s'. rewrite Hc0.
      apply Hback; [|exact Hp]. intros Eq. apply Hne. now rewrite Eq.
    + exact Hp.
Qed.

Lemma ResolveConflict_Merge_other path (r : repo Index) p mode data :
  p <> filepath.segments path ->
  Stat p (files r) = Ok (File mode data) ->
  Stat p (files (fst (ResolveConflict path Merge r))) = Ok (File mode data).
Proof.
  intros Hne HS.
  destruct (ResolveConflict_Merge_files path r)
    as [->|(content & _ & HW)]; [exact HS|].
  rewrite writeFile_unfold in HW.
  exact (update_other_file _ _ _ _ p mode data (gentle_writer _ _ _) HW Hne
           HS).
Qed.

End Resolver.

End merge_all_facts.

Import os statements git git_facts git_more merge_all_facts.

(** X23. [ResolveAllConflicts] with the merge-both strategy, on
    conflicts with distinct paths: when it returns no error, every
    conflicted path held a file before and holds afterwards the header
    followed by what the file held, under the same permission bits; and
    every file at a path that is not among the conflicts is as it
    was. *)
Theorem ResolveAllConflicts_merges_each (umask : Z) (Index : Type)
  (worktreeAdd : string -> node -> Index -> Index + string)
  (gitCheckout : string -> string -> node -> Index -> node + string)
  (conflicts : list ConflictFile) (r r' : repo Index) :
  List.NoDup (map (fun c => filepath.segments (Path c)) conflicts) ->
  ResolveAllConflicts umask worktreeAdd gitCheckout conflicts Merge r
  = (r', None) ->
  (forall c, In c conflicts ->
     exists mode content,
       Stat (filepath.segments (Path c)) (files r) = Ok (File mode content)
       /\ Stat (filepath.segments (Path c)) (files r')
          = Ok (File mode (mergedHeader ++ content)%string))
  /\ (forall p mode data,
        ~ In p (map (fun c => filepath.segments (Path c)) conflicts) ->
        Stat p (files r) = Ok (File mode data) ->
        Stat p (files r') = Ok (File mode data)).
Proof.
  revert r. induction conflicts as [|c cs IH]; intros r Hnd H.
  - simpl in H. injection H as <-. split; [intros c []|auto].
  - simpl in H.
    destruct (ResolveConflict umask worktreeAdd gitCheckout (Path c) Merge r)
      as [r1 [e|]] eqn:H1; [discriminate|].
    inversion Hnd as [|x l Hnotin Hnd' Heq]. subst x l.
    destruct (IH r1 Hnd' H) as [IHin IHout].
    destruct (ResolveConflict_Merge_inv umask worktreeAdd gitCheckout
                (Path c) r r1 H1) as (mode & content & HS & HS1).
    assert (Hother : forall p mode data,
              p <> filepath.segments (Path c) ->
              Stat p (files r) = Ok (File mode data) ->
              Stat p (files r1) = Ok (File mode data)).
    { intros p m0 d0 Hne Hp.
      pose proof (ResolveConflict_Merge_other umask worktreeAdd gitCheckout
                    (Path c) r p m0 d0 Hne Hp) as Hp1.
      now rewrite H1 in Hp1. }
    split.
    + intros c' [<-|Hin].
      * exists mode, content. split; [exact HS|].
        apply IHout; [exact Hnotin|exact HS1].
      * destruct (IHin c' Hin) as (m' & d' & Hb & Ha).
        assert (Hne : filepath.segments (Path c')
                      <> filepath.segments (Path c)).
        { intros E. apply Hnotin. rewrite <- E.
          now apply (in_map (fun c => filepath.segments (Path c))). }
        exists m', d'. split; [|exact Ha].
        destruct (ResolveConflict_Merge_files umask worktreeAdd gitCheckout
                    (Path c) r) as [Hsame|(content0 & _ & HW)].
        -- rewrite H1 in Hsame. simpl in Hsame. now rewrite <- Hsame.
        -- rewrite H1 in HW. simpl in HW.
           exact (writeFile_existing_back umask _ _ _ _ _ _ _ _ _ _ HS HW
                    Hne Hb).
    + intros p m0 d0 Hnot Hp. apply IHout.
      * intros Hin. apply Hnot. now right.
      * apply Hother; [|exact Hp]. intros E. apply Hnot. now left.
Qed.

Lemma ResolveAllConflicts_merges_each_witness :
  let conflicts := [conflict "bspwmrc"; conflict "picom.conf"] in
  let r' := fst (ResolveAllConflicts 18 stagePath noCheckout conflicts Merge
                   conflictedRepo) in
  (forall c, In c conflicts ->
     exists mode content,
       Stat (filepath.segments (Path c)) (files conflictedRepo)
       = Ok (File mode content)
       /\ Stat (filepath.segments (Path c)) (files r')
          = Ok (File mode (mergedHeader ++ content)%string))
  /\ (forall p mode data,
        ~ In p (map (fun c => filepath.segments (Path c)) conflicts) ->
        Stat p (files conflictedRepo) = Ok (File mode data) ->
        Stat p (files r') = Ok (File mode data)).
Proof.
  apply (ResolveAllConflicts_merges_each 18 (list string) stagePath
           noCheckout [conflict "bspwmrc"; conflict "picom.conf"]
           conflictedRepo).
  - constructor; [|constructor; [|constructor]].
    + vm_compute. intros [H|[]]. discriminate.
    + intros [].
  - vm_compute. reflexivity.
Defined.

(** ** The watcher loop loses no change *)

Module watcher_kept.

Import statements more_statements config watcher_facts.

Section Watcher.

Variable Rel : string -> string -> option string.
Variable m : Manager.
Variables name relPath : string.
Hypothesis Hrel : Rel (ConfigDir m) name = Some relPath.
Hypothesis Hscope : shouldInclude m relPath = true.

Local Abbreviation turn := (turn Rel keepBatch m).
Local Abbreviation loopFrom := (loopFrom Rel keepBatch m).



End Watcher.

End watcher_kept.

Import statements more_statements config watcher_kept.



(** ** A pull that fails *)

Module pull_facts.

Import os statements more_statements ui_prompts git git_rest remote_facts.

Section Sync.

Variable umask : Z.
Context {Store : Type}.
Variable worktreeAdd : string -> node -> Store -> Store + string.
Variable wStatus : node -> Store -> list (string * FileStatus) + string.
Variable storerIndex : Store -> list IndexEntry + string.
Variable wCommit : string -> node -> Store -> Store * option string.
Variable rPush : node -> Store -> outcome.

Lemma DetectConflicts_none (r : repo Store) status :
  hasWorktree r = true ->
  wStatus (files r) (index r) = inl status ->
  noneUnmerged status ->
  DetectConflicts wStatus storerIndex r = ([], (false, None)).
Proof.
  intros Hw Hs Hnone. unfold DetectConflicts. rewrite Hw, Hs. simpl negb.
  cbv iota.
  assert (flat_map
            (fun '(path, fileStatus) =>
               if Ascii.eqb (Staging fileStatus) Unmerged
                  || Ascii.eqb (Worktree fileStatus) Unmerged
               then
                 [match storerIndex (index r) with
                  | inl entries =>
                      withSHAs entries
                        {| Path := path; LocalSHA := ""; RemoteSHA := "" |}
                  | inr _ =>
                      {| Path := path; LocalSHA := ""; RemoteSHA := "" |}
                  end]
               else []) status = []) as ->; [|reflexivity].
  clear Hs. induction Hnone as [|[path s] status [H1 H2] _ IH];
    [reflexivity|].
  cbn [flat_map]. rewrite H1, H2. simpl orb. cbv iota. exact IH.
Qed.

(** With a working tree, staging is attempted first. *)
Lemma stageCommitPush_stages g message (st : @state Store) :
  hasWorktree (work st) = true ->
  exists more,
    calls (stageCommitPush worktreeAdd wStatus wCommit rPush g message
             st).1
    = calls st ++ CallAdd "." :: more
    /\ forall e,
         (stageCommitPush worktreeAdd wStatus wCommit rPush g message
            st).2 = Some e ->
         exists cause,
           e = Errorf "failed to add changes" cause
           \/ e = Errorf "failed to commit changes" cause
           \/ e = Errorf "failed to push changes" cause.
Proof.
  intros Hw. unfold stageCommitPush.
  assert (HA : calls (Add worktreeAdd ["."] st).1
               = calls st ++ [CallAdd "."]).
  { unfold Add. rewrite Hw. simpl.
    now destruct (worktreeAdd _ _ _). }
  destruct (Add worktreeAdd ["."] st) as [st1 [err|]]; simpl in HA.
  { exists []. simpl. split; [exact HA|]. intros e [= <-]. eauto. }
  destruct (Commit_calls wStatus wCommit message st1) as (j2 & Hc2 & _).
  destruct (Commit wStatus wCommit message st1) as [st2 [err|]];
    simpl in Hc2.
  { destruct (String.eqb err "no changes to commit"); simpl.
    - exists (firstn j2 [CallCommit message]).
      rewrite Hc2, HA, <- app_assoc. split; [reflexivity|]. discriminate.
    - exists (firstn j2 [CallCommit message]).
      rewrite Hc2, HA, <- app_assoc. split; [reflexivity|].
      intros e [= <-]. eauto. }
  destruct (Push_calls rPush g st2) as (j3 & Hc3 & _).
  destruct (Push rPush g st2) as [st3 [err|]]; simpl in Hc3 |- *.
  - exists (firstn j2 [CallCommit message] ++ firstn j3 [CallPush]).
    rewrite Hc3, Hc2, HA, <- !app_assoc. split; [reflexivity|].
    intros e [= <-]. eauto.
  - exists (firstn j2 [CallCommit message] ++ firstn j3 [CallPush]).
    rewrite Hc3, Hc2, HA, <- !app_assoc. split; [reflexivity|].
    discriminate.
Qed.

(** What is printed only grows. *)
Lemma stageCommitPush_printed g message (st : @state Store) line :
  In line (printed (work st)) ->
  In line (printed (work (stageCommitPush worktreeAdd wStatus wCommit rPush
                            g message st).1)).
Proof.
  intros Hin. unfold stageCommitPush.
  assert (HA : In line (printed (work (Add worktreeAdd ["."] st).1))).
  { unfold Add. destruct (hasWorktree (work st)); simpl; [|exact Hin].
    now destruct (worktreeAdd _ _ _). }
  destruct (Add worktreeAdd ["."] st) as [st1 [err|]]; simpl in HA;
    [exact HA|].
  assert (HC : In line (printed (work (Commit wStatus wCommit message
                                         st1).1))).
  { unfold Commit. destruct (hasWorktree (work st1)); simpl; [|exact HA].
    destruct (wStatus _ _); [|exact HA].
    destruct (IsClean _); [exact HA|].
    destruct (wCommit _ _ _) as [i [e|]]; simpl; apply in_or_app;
      now left. }
  destruct (Commit wStatus wCommit message st1) as [st2 [err|]];
    simpl in HC.
  { destruct (String.eqb err "no changes to commit"); simpl;
      [apply in_or_app; now left|exact HC]. }
  assert (HP : In line (printed (work (Push rPush g st2).1))).
  { unfold Push. destruct (String.eqb (RemoteURL g) ""); [exact HC|].
    destruct (Auth g); [|exact HC].
    destruct (rPush _ _); simpl; apply in_or_app; now left. }
  destruct (Push rPush g st2) as [st3 [err|]]; simpl in HP |- *;
    [exact HP|].
  apply in_or_app. now left.
Qed.

End Sync.

End pull_facts.

Import os statements more_statements ui_prompts git git_rest remote_facts
  pull_facts.

(** X25. A pull that fails with an error whose text contains "conflict",
    while the status shows no unmerged file: [SyncWithRemote] does not
    return the error of the pull.  It prints it as a warning and goes on
    to stage everything, so that what it returns is nil or an error of
    staging, committing or pushing. *)
Theorem SyncWithRemote_drops_pull_error (umask : Z) (Store : Type)
  (worktreeAdd : string -> node -> Store -> Store + string)
  (gitCheckout : string -> string -> node -> Store -> node + string)
  (wPull : node -> Store -> node * Store * outcome)
  (wStatus : node -> Store -> list (string * FileStatus) + string)
  (storerIndex : Store -> list IndexEntry + string)
  (wCommit : string -> node -> Store -> Store * option string)
  (rPush : node -> Store -> outcome)
  (Input : Type) (newInput : string -> Input) (Value : Input -> string)
  (updateInput : Input -> tea.Msg -> Input)
  (g : GitRepo) (message : string) (st : state)
  (t : node) (i : Store) (err : string)
  (status : list (string * FileStatus)) :
  String.eqb (RemoteURL g) "" = false ->
  hasWorktree (work st) = true ->
  wPull (files (work st)) (index (work st)) = (t, i, Failed err) ->
  Strings.Contains (Errorf "failed to pull" err) "conflict" = true ->
  wStatus t i = inl status ->
  noneUnmerged status ->
  let res :=
    SyncWithRemote umask worktreeAdd gitCheckout wPull wStatus storerIndex
      wCommit rPush newInput Value updateInput g message st in
  In (ui.PrintWarning ("Pull warning: " ++ Errorf "failed to pull" err))
     (printed (work res.1))
  /\ (exists more,
        calls res.1 = calls st ++ CallPull :: CallAdd "." :: more)
  /\ (res.2 = Some None
      \/ exists cause,
           res.2 = Some (Some (Errorf "failed to add changes" cause))
           \/ res.2 = Some (Some (Errorf "failed to commit changes" cause))
           \/ res.2 = Some (Some (Errorf "failed to push changes" cause))).
Proof.
  intros Hurl Hw Hpull Hconf Hstatus Hnone res. subst res.
  unfold SyncWithRemote, Pull. rewrite Hurl, Hw. simpl negb. cbv iota.
  cbn [say setWork called work files index print calls inputs].
  rewrite Hpull. cbn [work hasWorktree files index printed calls inputs].
  rewrite Hconf.
  rewrite (DetectConflicts_none wStatus storerIndex _ status);
    [|cbn; exact Hw|cbn; exact Hstatus|exact Hnone].
  set (st2 := say _ (say _ _)).
  assert (Hw2 : hasWorktree (work st2) = true) by (cbn; exact Hw).
  destruct (stageCommitPush_stages worktreeAdd wStatus wCommit rPush g
              message st2 Hw2) as (more & Hcalls & Herr).
  unfold returned. cbn [fst snd].
  split; [|split].
  - apply stageCommitPush_printed. subst st2. cbn.
    apply in_or_app. left. apply in_or_app. right. now left.
  - exists more. rewrite Hcalls. subst st2. cbn. now rewrite <- app_assoc.
  - destruct (stageCommitPush _ _ _ _ _ _ _).2 as [e|] eqn:He.
    + right. destruct (Herr e eq_refl) as (cause & [->|[->| ->]]); eauto.
    + now left.
Qed.

Lemma SyncWithRemote_drops_pull_error_witness :
  let res :=
    SyncWithRemote 18 stagePath noCheckout rejectedPull modifiedStatus
      noIndex commits pushes (fun _ => "") id typedInput origin
      "Configuration update: modified: i3/config" atRest in
  In (ui.PrintWarning
        ("Pull warning: "
         ++ Errorf "failed to pull"
              "merge conflict: non-fast-forward update"))
     (printed (work res.1))
  /\ (exists more,
        calls res.1 = calls atRest ++ CallPull :: CallAdd "." :: more)
  /\ (res.2 = Some None
      \/ exists cause,
           res.2 = Some (Some (Errorf "failed to add changes" cause))
           \/ res.2 = Some (Some (Errorf "failed to commit changes" cause))
           \/ res.2 = Some (Some (Errorf "failed to push changes" cause))).
Proof.
  apply (SyncWithRemote_drops_pull_error 18 (list string) stagePath
           noCheckout rejectedPull modifiedStatus noIndex commits pushes
           string (fun _ => "") id typedInput origin
           "Configuration update: modified: i3/config" atRest
           (files conflictedRepo) []
           "merge conflict: non-fast-forward update"
           [("i3/config",
             {| Staging := Unmodified; Worktree := "M"%char |})]).
  - reflexivity.
  - reflexivity.
  - reflexivity.
  - vm_compute. reflexivity.
  - reflexivity.
  - constructor; [split; reflexivity|constructor].
Defined.

(** ** The main program *)

Import os statements more_statements config main.

(** X26. [main] reaches the initial sync only when [env.LoadConfig] has
    returned a configuration and, after the prompts, all three
    credentials are set: the remote URL of the repository is then the
    URL of the configuration, which is not empty, and its credentials
    are the user name and the token of the configuration. *)
Theorem setup_ready (umask : Z) (notifyError : option string)
  (loaded : env.Config + string) (plainInit : node -> node + string)
  (plainOpen : node -> option string) (remoteExists : bool)
  (deleteRemote : option string) (createRemote : string -> option string)
  (saveAppConfig : AppConfig -> option string)
  (durationString : Z -> string) (Input : Type)
  (newInput : string -> Input) (Value : Input -> string)
  (updateInput : Input -> tea.Msg -> Input)
  (parsed : AppConfig + string)
  (answers : string -> ui_prompts.session string) (cwd : node)
  (repo : option node) (seen : list shown) (appConfig : AppConfig)
  (r : ready) :
  setup umask notifyError loaded plainInit plainOpen remoteExists
    deleteRemote createRemote saveAppConfig durationString newInput Value
    updateInput parsed answers cwd repo
  = (seen, inr (appConfig, r)) ->
  (exists c0, loaded = inl c0)
  /\ env.IsConfigComplete (envConfig r) = true
  /\ git_rest.RemoteURL (gitRepo r) = env.GithubRepoURL (envConfig r)
  /\ git_rest.RemoteURL (gitRepo r) <> ""
  /\ git_rest.Auth (gitRepo r)
     = Some (env.GithubUsername (envConfig r), env.GithubToken (envConfig r)).
Proof.
  unfold setup. intros H.
  destruct parsed as [cfg|err]; [|discriminate].
  destruct (InitOrOpenRepo umask plainInit plainOpen (RepoDir cfg) repo)
    as [[t lines]|[lines err]]; [|discriminate].
  destruct loaded as [c0|err]; [|discriminate].
  split; [eauto|].
  destruct (askCredentials umask newInput Value updateInput answers c0 cwd)
    as [[c cwd'] lines1].
  destruct (applyCredentials remoteExists deleteRemote createRemote c)
    as [[g lines2]|lines2] eqn:HA; [|discriminate].
  injection H as _ _ <-. simpl.
  unfold applyCredentials in HA.
  destruct (String.eqb (env.GithubRepoURL c) "") eqn:Eurl; [discriminate|].
  assert (HS : forall g1 l,
            SetRemote remoteExists deleteRemote createRemote
              {| git_rest.RemoteURL := ""; git_rest.Auth := None |}
              (env.GithubRepoURL c) = (g1, l, None) ->
            g1 = {| git_rest.RemoteURL := env.GithubRepoURL c;
                    git_rest.Auth := None |}).
  { intros g1 l. unfold SetRemote.
    destruct remoteExists; [destruct deleteRemote|];
      destruct (createRemote (env.GithubRepoURL c)); intros Heq;
      try discriminate;
      injection Heq as <- _; reflexivity. }
  destruct (SetRemote _ _ _ _ _) as [[g1 l] [e|]] eqn:HR; [discriminate|].
  rewrite (HS g1 l eq_refl) in HA.
  destruct (negb (String.eqb (env.GithubUsername c) "")
            && negb (String.eqb (env.GithubToken c) "")) eqn:Ecred;
    [|discriminate].
  injection HA as <- _. simpl.
  split; [|split; [reflexivity|split; [|reflexivity]]].
  - unfold env.IsConfigComplete. apply andb_true_iff in Ecred.
    destruct Ecred as [E1 E2]. now rewrite Eurl, E1, E2.
  - now apply String.eqb_neq.
Qed.

Lemma setup_ready_witness :
  (exists c0, inl (B:=string) noCredentials = inl c0)
  /\ env.IsConfigComplete answered = true
  /\ git_rest.RemoteURL answeredRepo = env.GithubRepoURL answered
  /\ git_rest.RemoteURL answeredRepo <> ""
  /\ git_rest.Auth answeredRepo
     = Some (env.GithubUsername answered, env.GithubToken answered).
Proof.
  apply (setup_ready 18 None (inl noCredentials) (fun t => inl t)
           (fun _ => None) false None (fun _ => None) (fun _ => None)
           (fun _ => "5s") string (fun _ => "") id typedInput
           (inl defaultFlags) sameAnswer more_statements.workDir None
           (fst (setup 18 None (inl noCredentials) (fun t => inl t)
                   (fun _ => None) false None (fun _ => None)
                   (fun _ => None) (fun _ => "5s") (fun _ => "") id
                   typedInput (inl defaultFlags) sameAnswer
                   more_statements.workDir None))
           defaultFlags
           {| gitRepo := answeredRepo; envConfig := answered;
              notifying := true;
              workDir := fst (env.SaveConfig 18 answered
                                more_statements.workDir);
              repoTree := Dir (Z.ldiff 493 18) [] |}).
  vm_compute. reflexivity.
Defined.

(** X27. [main] starts the watcher only after an initial sync that
    returned no error, and only when neither the run-once nor the
    sync-only flag is set: with either flag it ends after the initial
    sync without a watcher, with status 0 when the sync succeeded and 1
    when it failed, so that the two flags differ in nothing but the line
    that is printed.  It goes on to monitor exactly when the flags are
    off and both the initial sync and [StartWatcher] succeed. *)
Theorem run_modes (umask : Z)
  (SyncWithRemote : string -> node -> node * option string)
  (newWatcher : option string) (watcherAdd : path -> option string)
  (appConfig : AppConfig) (r : ready) (src : node) :
  let m := NewManager (ConfigDir appConfig) (RepoDir appConfig)
             (IncludePatterns appConfig) (ExcludePatterns appConfig)
             (SyncInterval appConfig) (Verbose appConfig) (notifying r) in
  let synced := InitialSync umask m SyncWithRemote src (Some (repoTree r)) in
  let started := config_rest.StartWatcher watcherAdd m newWatcher src in
  let res := run umask SyncWithRemote newWatcher watcherAdd appConfig r
               src in
  res.1.2 = mirror synced.1
  /\ (RunOnce appConfig || SyncOnly appConfig = true ->
      res.2 = None
      /\ res.1.1.2 = Exit match synced.2 with
                             | Some _ => 1
                             | None => 0
                             end)
  /\ (res.1.1.2 = Monitoring
      <-> RunOnce appConfig = false /\ SyncOnly appConfig = false
          /\ synced.2 = None /\ started.2 = None)
  /\ (forall w, res.2 = Some w ->
                synced.2 = None /\ w = started.1).
Proof.
  intros m synced started res. subst res. unfold run.
  fold m. fold synced. fold started.
  destruct synced as [st [err|]]; simpl;
    [|destruct (RunOnce appConfig); simpl;
      [|destruct (SyncOnly appConfig); simpl;
        [|destruct started as [w [err|]]; simpl]]];
    repeat split; intros;
    repeat match goal with
           | H : _ /\ _ |- _ => destruct H
           end;
    try discriminate; try congruence; auto.
Qed.
